(** * Hybrid memory store: metadata table + vector index

    A shallow embedding of [src/store.ts] (class [MemoryStore]) together with
    the two storage engines it drives:

    - the SQLite table [memories] is a list of rows in rowid (insertion)
      order; the statements of the store return the rows they keep in that
      order, except that the one statement which restricts the primary key to
      a list of values may be answered from the primary-key index, in the
      order of the ids (the planner's choice, an input of the call); a REAL
      column keeps a NaN as NULL and a zero of either sign as 0; [LIKE] is
      SQLite's default operator (ASCII case-insensitive, [%] and [_]
      wildcards, no escape character);
    - the LanceDB table [memory_vectors] is a list of entries; the store never
      builds an index on it, so [vectorSearch] is a flat scan ordered by the
      engine's distance, and it refuses a limit of 0; an updated entry is
      written anew at the end of the table;
    - JS numbers that hold reals (confidence, importance, distances, scores)
      are IEEE binary64 floats; epoch-millisecond timestamps and day counts
      are integers ([Z]), far inside the 64-bit range of the INTEGER columns;
      [limit] and [offset] are counts ([nat]);
    - a string is a sequence of character codes below 256, one [ascii] per
      UTF-16 code unit; the predicate text [id = '<id>'] the store hands to
      the vector engine compares the id column with [<id>] as long as [<id>]
      has no quote and no backslash; what the engine makes of any other text
      is an input of the call;
    - the embedding provider, the clock, [randomUUID] and the readiness of
      the two engines to accept a write are inputs of each call ([Env]); a
      call that throws keeps what it had already written. *)

From Stdlib Require Import String Ascii List ZArith Lia Bool Floats Permutation.
From Stdlib Require Import Sorted Btauto.
From stdpp Require Import gmap strings.
Import ListNotations.

Local Open Scope Z_scope.
Set Warnings "-inexact-float".

(** ** SQLite's LIKE *)

Module Like.

(** [sqlite3Tolower]: only the 26 ASCII capitals are folded. *)
Definition to_lower (c : ascii) : ascii :=
  let n := nat_of_ascii c in
  if (Nat.leb 65 n && Nat.leb n 90)%bool then ascii_of_nat (n + 32) else c.

Definition eq_nocase (a b : ascii) : bool :=
  Ascii.eqb (to_lower a) (to_lower b).

(** [like p s] is [s LIKE p]: [%] matches any run of characters, [_] any
    single one, every other pattern character matches itself up to ASCII
    case. *)
Fixpoint like (p : string) : string -> bool :=
  match p with
  | EmptyString => fun s => match s with EmptyString => true | _ => false end
  | String c p' =>
      if Ascii.eqb c "%" then
        fix star (s : string) : bool :=
          like p' s ||
          match s with
          | EmptyString => false
          | String _ s' => star s'
          end
      else if Ascii.eqb c "_" then
        fun s => match s with
                 | EmptyString => false
                 | String _ s' => like p' s'
                 end
      else
        fun s => match s with
                 | EmptyString => false
                 | String d s' => eq_nocase c d && like p' s'
                 end
  end.

Definition dquote : ascii := Eval cbv in ascii_of_nat 34.

(** The pattern [<id>%] built by [get] and [delete] for a short id. *)
Definition prefix_pattern (id : string) : string := String.append id "%".

(** The pattern [%"<tag>"%] built by [search] for one tag. *)
Definition tag_pattern (tag : string) : string :=
  String "%" (String dquote (String.append tag (String dquote "%"))).

End Like.

(** ** JSON text of a tag list

    [JSON.stringify] and [JSON.parse] restricted to what the [tags] column
    holds: an array of strings. *)

Module Json.

Definition dquote : ascii := Like.dquote.
Definition backslash : ascii := Eval cbv in ascii_of_nat 92.

Definition hex_digit (n : nat) : ascii :=
  if Nat.ltb n 10 then ascii_of_nat (48 + n) else ascii_of_nat (87 + n).

(** One character of [QuoteJSONString]. *)
Definition escape_char (c : ascii) : string :=
  let n := nat_of_ascii c in
  if Ascii.eqb c dquote then String backslash (String dquote EmptyString)
  else if Ascii.eqb c backslash then String backslash (String backslash EmptyString)
  else if Nat.eqb n 8 then "\b"
  else if Nat.eqb n 12 then "\f"
  else if Nat.eqb n 10 then "\n"
  else if Nat.eqb n 13 then "\r"
  else if Nat.eqb n 9 then "\t"
  else if Nat.ltb n 32 then
    String.append "\u00"
      (String (hex_digit (Nat.div n 16)) (String (hex_digit (Nat.modulo n 16)) EmptyString))
  else String c EmptyString.

Fixpoint escape (s : string) : string :=
  match s with
  | EmptyString => EmptyString
  | String c s' => String.append (escape_char c) (escape s')
  end.

Definition stringify_string (s : string) : string :=
  String dquote (String.append (escape s) (String dquote EmptyString)).

Fixpoint stringify_items (l : list string) : string :=
  match l with
  | [] => EmptyString
  | [s] => stringify_string s
  | s :: l' => String.append (stringify_string s) (String "," (stringify_items l'))
  end.

(** [JSON.stringify(tags)] for [tags : string[]]. *)
Definition stringify (l : list string) : string :=
  String "[" (String.append (stringify_items l) "]").

Definition hex_value (c : ascii) : option nat :=
  let n := nat_of_ascii c in
  if (Nat.leb 48 n && Nat.leb n 57)%bool then Some (n - 48)%nat
  else if (Nat.leb 97 n && Nat.leb n 102)%bool then Some (n - 87)%nat
  else if (Nat.leb 65 n && Nat.leb n 70)%bool then Some (n - 55)%nat
  else None.

Definition hex4 (a b c d : ascii) : option nat :=
  match hex_value a, hex_value b, hex_value c, hex_value d with
  | Some x, Some y, Some z, Some w => Some (((x * 16 + y) * 16 + z) * 16 + w)%nat
  | _, _, _, _ => None
  end.

(** The character a two-character escape stands for. *)
Definition unescape (e : ascii) : option ascii :=
  if Ascii.eqb e dquote then Some dquote
  else if Ascii.eqb e backslash then Some backslash
  else if Ascii.eqb e "/" then Some "/"%char
  else if Ascii.eqb e "b" then Some (ascii_of_nat 8)
  else if Ascii.eqb e "f" then Some (ascii_of_nat 12)
  else if Ascii.eqb e "n" then Some (ascii_of_nat 10)
  else if Ascii.eqb e "r" then Some (ascii_of_nat 13)
  else if Ascii.eqb e "t" then Some (ascii_of_nat 9)
  else None.

Definition is_ws (c : ascii) : bool :=
  let n := nat_of_ascii c in
  (Nat.eqb n 32 || Nat.eqb n 9 || Nat.eqb n 10 || Nat.eqb n 13)%bool.

Definition snoc (s : string) (c : ascii) : string :=
  String.append s (String c EmptyString).

(** Where the reader stands in the text of an array of strings. *)
Inductive pstate : Type :=
| Start
| Opened
| InStr (done : list string) (acc : string)
| AfterStr (done : list string)
| AfterComma (done : list string)
| Closed (done : list string).

(** The reader: [None] is the [SyntaxError] of [JSON.parse] (or a value
    that is not an array of byte strings). *)
Fixpoint parse_from (st : pstate) (inp : string) {struct inp} : option (list string) :=
  match inp with
  | EmptyString =>
      match st with
      | Closed done => Some done
      | _ => None
      end
  | String c rest =>
      match st with
      | Start =>
          if is_ws c then parse_from Start rest
          else if Ascii.eqb c "[" then parse_from Opened rest
          else None
      | Opened =>
          if is_ws c then parse_from Opened rest
          else if Ascii.eqb c "]" then parse_from (Closed []) rest
          else if Ascii.eqb c dquote then parse_from (InStr [] EmptyString) rest
          else None
      | InStr done acc =>
          if Ascii.eqb c dquote then parse_from (AfterStr (done ++ [acc])) rest
          else if Ascii.eqb c backslash then
            match rest with
            | EmptyString => None
            | String e rest1 =>
                if Ascii.eqb e "u" then
                  match rest1 with
                  | String h1 (String h2 (String h3 (String h4 rest2))) =>
                      match hex4 h1 h2 h3 h4 with
                      | Some n =>
                          if Nat.ltb n 256
                          then parse_from (InStr done (snoc acc (ascii_of_nat n))) rest2
                          else None
                      | None => None
                      end
                  | _ => None
                  end
                else
                  match unescape e with
                  | Some ch => parse_from (InStr done (snoc acc ch)) rest1
                  | None => None
                  end
            end
          else if Nat.ltb (nat_of_ascii c) 32 then None
          else parse_from (InStr done (snoc acc c)) rest
      | AfterStr done =>
          if is_ws c then parse_from (AfterStr done) rest
          else if Ascii.eqb c "," then parse_from (AfterComma done) rest
          else if Ascii.eqb c "]" then parse_from (Closed done) rest
          else None
      | AfterComma done =>
          if is_ws c then parse_from (AfterComma done) rest
          else if Ascii.eqb c dquote then parse_from (InStr done EmptyString) rest
          else None
      | Closed done =>
          if is_ws c then parse_from (Closed done) rest else None
      end
  end.

(** [JSON.parse(text)] read as [string[]]. *)
Definition parse (text : string) : option (list string) := parse_from Start text.

(** What follows a string of the array: the remaining items and the
    closing bracket. *)
Fixpoint tail_items (l : list string) : string :=
  match l with
  | [] => "]"
  | t :: l' => String "," (String.append (stringify_string t) (tail_items l'))
  end.

End Json.

(** ** Data model *)

(** Modelled from the spec: [src/types.ts] is not part of the sources; the
    closed enumeration of categories is the one of the data model (section 3)
    and of the README's category table. *)
Inductive MemoryCategory : Type :=
| cat_fact | cat_preference | cat_event | cat_relationship
| cat_context | cat_instruction | cat_decision | cat_entity.

Definition category_name (c : MemoryCategory) : string :=
  match c with
  | cat_fact => "fact"
  | cat_preference => "preference"
  | cat_event => "event"
  | cat_relationship => "relationship"
  | cat_context => "context"
  | cat_instruction => "instruction"
  | cat_decision => "decision"
  | cat_entity => "entity"
  end.

Definition category_eqb (a b : MemoryCategory) : bool :=
  String.eqb (category_name a) (category_name b).

(** A row of the table [memories] created by [initSqlite]. *)
Module Row.
Record t : Type := mk {
  id : string;
  content : string;
  category : MemoryCategory;
  confidence : option float;
  importance : option float;
  created_at : Z;
  updated_at : Z;
  last_accessed_at : Z;
  decay_days : option Z;
  source_channel : option string;
  source_message_id : option string;
  tags : string;
  supersedes : option string;
  deleted_at : option Z;
  delete_reason : option string
}.
End Row.

(** The [Memory] entity handed to callers, field by field as [rowToMemory]
    builds it; [null] and [undefined] are both [None]: [confidence] and
    [importance] are [null] when the column is NULL. *)
Module Memory.
Record t : Type := mk {
  id : string;
  content : string;
  category : MemoryCategory;
  confidence : option float;
  importance : option float;
  createdAt : Z;
  updatedAt : Z;
  lastAccessedAt : Z;
  decayDays : option Z;
  sourceChannel : option string;
  sourceMessageId : option string;
  tags : list string;
  supersedes : option string;
  deletedAt : option Z;
  deleteReason : option string
}.
End Memory.

Record MemorySearchResult : Type := mkResult {
  memory : Memory.t;
  score : float
}.

(** Modelled from the spec: the declaration in [src/types.ts] is not part of
    the sources; the fields are those [create] reads, optional ones as
    [option] (section 4.1). *)
Record CreateMemoryInput : Type := mkCreate {
  c_content : string;
  c_category : MemoryCategory;
  c_confidence : option float;
  c_importance : option float;
  c_decayDays : option Z;
  c_sourceChannel : option string;
  c_sourceMessageId : option string;
  c_tags : option (list string)
}.

(** Modelled from the spec: the declaration in [src/types.ts] is not part of
    the sources; the fields are those [update] tests against [undefined]
    (section 4.3). An absent field is [None]; [decayDays] may be present and
    [null]. *)
Record UpdateMemoryInput : Type := mkUpdate {
  u_content : option string;
  u_confidence : option float;
  u_importance : option float;
  u_decayDays : option (option Z);
  u_tags : option (list string)
}.

(** Modelled from the spec: the declaration in [src/types.ts] is not part of
    the sources; the fields are those [search] reads (section 4.5). *)
Record SearchOptions : Type := mkSearch {
  s_query : option string;
  s_category : option MemoryCategory;
  s_minConfidence : option float;
  s_minImportance : option float;
  s_tags : option (list string);
  s_limit : option nat;
  s_excludeDecayed : option bool
}.

Inductive SortOrder : Type := asc | desc.

(** Modelled from the spec: the declaration in [src/types.ts] is not part of
    the sources; the fields are those [list] reads (section 4.7); [sortBy] is
    the text spliced into [ORDER BY]. *)
Record ListOptions : Type := mkList {
  l_category : option MemoryCategory;
  l_sortBy : option string;
  l_sortOrder : option SortOrder;
  l_limit : option nat;
  l_offset : option nat
}.

Record ListResult : Type := mkListResult {
  total : nat;
  items : list Memory.t
}.

(** ** Failures *)

Inductive Error : Type :=
| ProviderFailure      (* [embeddings.embed] rejected *)
| StorageFailure       (* an engine refused a write or a statement *)
| SyntaxError.         (* [JSON.parse] threw *)

Inductive Result (A : Type) : Type :=
| Ok (a : A)
| Err (e : Error).
Arguments Ok {A} a.
Arguments Err {A} e.

Definition isOk {A} (r : Result A) : bool :=
  match r with Ok _ => true | Err _ => false end.

Fixpoint mapResult {A B} (f : A -> Result B) (l : list A) : Result (list B) :=
  match l with
  | [] => Ok []
  | x :: l' =>
      match f x with
      | Err e => Err e
      | Ok y =>
          match mapResult f l' with
          | Err e => Err e
          | Ok ys => Ok (y :: ys)
          end
      end
  end.

(** ** Stable sorting, as the engines and [Array.prototype.sort] do it *)

Section StableSort.
Context {A : Type} (le : A -> A -> bool).

Fixpoint insert_sorted (x : A) (l : list A) : list A :=
  match l with
  | [] => [x]
  | y :: l' => if le x y then x :: y :: l' else y :: insert_sorted x l'
  end.

Fixpoint stable_sort (l : list A) : list A :=
  match l with
  | [] => []
  | x :: l' => insert_sorted x (stable_sort l')
  end.

End StableSort.

(** ** The metadata engine: the SQLite table [memories] *)

Module Sql.

Definition Table : Type := list Row.t.

Definition is_null {A} (o : option A) : bool :=
  match o with None => true | Some _ => false end.

(** NULL sorts before every value. *)
Definition null_first {A} (le : A -> A -> bool) (a b : option A) : bool :=
  match a, b with
  | None, _ => true
  | Some _, None => false
  | Some x, Some y => le x y
  end.

Definition by_key {K} (key : Row.t -> K) (le : K -> K -> bool) (a b : Row.t) : bool :=
  le (key a) (key b).

(** What a REAL column keeps of a number bound to it: a NaN is stored as
    NULL, and a zero of either sign as 0. *)
Definition real (x : float) : option float :=
  if PrimFloat.is_nan x then None
  else if PrimFloat.eqb x 0 then Some 0%float
  else Some x.

(** [col >= ?] on a REAL column: NULL on either side (a NaN is bound as NULL)
    satisfies no comparison. *)
Definition real_ge (col : option float) (x : float) : bool :=
  match col with
  | Some c => PrimFloat.leb x c
  | None => false
  end.

(** The order of a column of the schema, by name: integers by value, reals
    by value, text bytewise (BINARY collation). [None]: no such column. *)
Definition column_le (name : string) : option (Row.t -> Row.t -> bool) :=
  if String.eqb name "id" then Some (by_key Row.id String.leb)
  else if String.eqb name "content" then Some (by_key Row.content String.leb)
  else if String.eqb name "category"
    then Some (by_key (fun r => category_name (Row.category r)) String.leb)
  else if String.eqb name "confidence"
    then Some (by_key Row.confidence (null_first PrimFloat.leb))
  else if String.eqb name "importance"
    then Some (by_key Row.importance (null_first PrimFloat.leb))
  else if String.eqb name "created_at" then Some (by_key Row.created_at Z.leb)
  else if String.eqb name "updated_at" then Some (by_key Row.updated_at Z.leb)
  else if String.eqb name "last_accessed_at" then Some (by_key Row.last_accessed_at Z.leb)
  else if String.eqb name "decay_days" then Some (by_key Row.decay_days (null_first Z.leb))
  else if String.eqb name "source_channel"
    then Some (by_key Row.source_channel (null_first String.leb))
  else if String.eqb name "source_message_id"
    then Some (by_key Row.source_message_id (null_first String.leb))
  else if String.eqb name "tags" then Some (by_key Row.tags String.leb)
  else if String.eqb name "supersedes"
    then Some (by_key Row.supersedes (null_first String.leb))
  else if String.eqb name "deleted_at" then Some (by_key Row.deleted_at (null_first Z.leb))
  else if String.eqb name "delete_reason"
    then Some (by_key Row.delete_reason (null_first String.leb))
  else None.

(** [ORDER BY <col> <order>]: rows that compare equal keep their scan
    order. An unknown column makes the statement fail to prepare. *)
Definition order_by (col : string) (o : SortOrder) (rows : Table) : Result Table :=
  match column_le col with
  | None => Err StorageFailure
  | Some le =>
      match o with
      | asc => Ok (stable_sort le rows)
      | desc => Ok (stable_sort (fun a b => le b a) rows)
      end
  end.

(** [LIMIT n OFFSET k]. *)
Definition limit_offset (n k : nat) (rows : Table) : Table := firstn n (skipn k rows).

(** [SELECT ... WHERE p]: the rows that satisfy [p], in scan order. *)
Definition select (p : Row.t -> bool) (t : Table) : Table := List.filter p t.

(** How the planner answers a statement that restricts the primary key to a
    list of values ([id IN (?, ..., ?)]): from the table or an index on
    another column of the [WHERE] clause, which yields the rows in rowid
    order, or by looking the values up in the primary-key index, which yields
    them in the order of their ids (BINARY collation). Which one it picks
    depends on the number of values and on the other terms. *)
Inductive Plan : Type := ByRowid | ByPrimaryKey.

Definition scan (plan : Plan) (rows : Table) : Table :=
  match plan with
  | ByRowid => rows
  | ByPrimaryKey => stable_sort (by_key Row.id String.leb) rows
  end.

(** [SELECT ... WHERE p LIMIT 1] read with [.get()]. *)
Definition select_first (p : Row.t -> bool) (t : Table) : option Row.t := List.find p t.

Definition has_id (i : string) (r : Row.t) : bool := String.eqb (Row.id r) i.

(** [INSERT]: refused when the engine cannot write, or when the primary
    key is already taken. *)
Definition insert (writable : bool) (r : Row.t) (t : Table) : Result Table :=
  if negb writable then Err StorageFailure
  else if existsb (has_id (Row.id r)) t then Err StorageFailure
  else Ok (t ++ [r]).

(** [UPDATE ... SET f WHERE p]. *)
Definition update (writable : bool) (p : Row.t -> bool) (f : Row.t -> Row.t) (t : Table)
  : Result Table :=
  if negb writable then Err StorageFailure
  else Ok (map (fun r => if p r then f r else r) t).

End Sql.

(** ** The vector engine: the LanceDB table [memory_vectors] *)

Module VectorTable.

Record Entry : Type := mkEntry {
  id : string;
  vector : list float;
  text : string
}.

(** A row of a search result: the entry's id and its [_distance]. *)
Record Hit : Type := mkHit {
  hit_id : string;
  _distance : float
}.

Definition Table : Type := list Entry.

Definition has_id (i : string) (e : Entry) : bool := String.eqb (id e) i.

Definition add (writable : bool) (e : Entry) (t : Table) : Result Table :=
  if negb writable then Err StorageFailure else Ok (t ++ [e]).

Definition quote : ascii := Eval cbv in ascii_of_nat 39.
Definition backslash : ascii := Eval cbv in ascii_of_nat 92.

(** A text that, put between two quotes, is the string literal of itself:
    it holds no quote and no backslash. *)
Fixpoint plain (s : string) : bool :=
  match s with
  | EmptyString => true
  | String c s' => negb (Ascii.eqb c quote || Ascii.eqb c backslash) && plain s'
  end.

(** The predicate text the store builds: [id = '<i>']. *)
Definition id_equals (i : string) : string :=
  String.append "id = '" (String.append i "'").

(** How the engine reads that text. While [i] is plain it is the comparison
    of the id column with [i]. Otherwise the literal ends inside [i] and the
    engine parses what follows: whether it accepts the text, and as which
    predicate, is the engine's ([other]; [None] when it throws). *)
Definition where_id (other : string -> option (Entry -> bool)) (i : string)
  : option (Entry -> bool) :=
  if plain i then Some (has_id i) else other (id_equals i).

(** [update({ where, values: { vector, text } })]: the entries that satisfy
    the predicate are written anew, with the new values, at the end of the
    table. *)
Definition update (writable : bool) (where_ : option (Entry -> bool))
           (v : list float) (txt : string) (t : Table) : Result Table :=
  if negb writable then Err StorageFailure
  else match where_ with
       | None => Err StorageFailure
       | Some p =>
           Ok (List.filter (fun e => negb (p e)) t
               ++ map (fun e => mkEntry (id e) v txt) (List.filter p t))
       end.

(** [delete(where)]. *)
Definition delete (writable : bool) (where_ : option (Entry -> bool)) (t : Table)
  : Result Table :=
  if negb writable then Err StorageFailure
  else match where_ with
       | None => Err StorageFailure
       | Some p => Ok (List.filter (fun e => negb (p e)) t)
       end.

Definition hit_le (a b : Hit) : bool := PrimFloat.leb (_distance a) (_distance b).

(** [vectorSearch(q).limit(k).toArray()]: the [k] entries closest to [q],
    closest first; the engine refuses a limit that is not positive. *)
Definition vectorSearch (distance : list float -> list float -> float)
           (q : list float) (k : nat) (t : Table) : Result (list Hit) :=
  if Nat.eqb k 0 then Err StorageFailure
  else Ok (firstn k
             (stable_sort hit_le (map (fun e => mkHit (id e) (distance q (vector e))) t))).

End VectorTable.

(** ** The store *)

(** What one call takes from outside the store: the embedding provider, the
    engine's distance, the id [randomUUID()] hands out, the reading of
    [Date.now()], whether each engine accepts writes during the call, what
    the vector engine makes of a predicate text that is not a comparison with
    a plain literal, and how the planner answers [id IN (...)]. *)
Record Env : Type := mkEnv {
  embed : string -> Result (list float);
  distance : list float -> list float -> float;
  randomUUID : string;
  now : Z;
  metadata_writable : bool;
  vectors_writable : bool;
  predicate : string -> option (VectorTable.Entry -> bool);
  plan : Sql.Plan
}.

(** The two tables behind a [MemoryStore]. *)
Record Store : Type := mkStore {
  db : Sql.Table;
  vectorTable : VectorTable.Table
}.

(** A call reads and writes the store and either returns or throws; what it
    wrote before throwing stays written. *)
Definition M (A : Type) : Type := Store -> Store * Result A.

Definition ret {A} (a : A) : M A := fun st => (st, Ok a).

Definition bind {A B} (m : M A) (k : A -> M B) : M B :=
  fun st =>
    match m st with
    | (st', Ok a) => k a st'
    | (st', Err e) => (st', Err e)
    end.

Notation "'let*' x ':=' m 'in' k" := (bind m (fun x => k))
  (at level 10, x name, m at level 100, k at level 200).

Definition lift {A} (r : Result A) : M A := fun st => (st, r).

Definition read {A} (f : Store -> A) : M A := fun st => (st, Ok (f st)).

(** A read that the engine may refuse. *)
Definition query {A} (f : Store -> Result A) : M A := fun st => (st, f st).

Definition write_db (f : Sql.Table -> Result Sql.Table) : M unit :=
  fun st =>
    match f (db st) with
    | Ok t => (mkStore t (vectorTable st), Ok tt)
    | Err e => (st, Err e)
    end.

Definition write_vectors (f : VectorTable.Table -> Result VectorTable.Table) : M unit :=
  fun st =>
    match f (vectorTable st) with
    | Ok t => (mkStore (db st) t, Ok tt)
    | Err e => (st, Err e)
    end.

Definition default {A} (d : A) (o : option A) : A :=
  match o with Some a => a | None => d end.

(** [1 / (1 + distance)] *)
Definition score_of_distance (d : float) : float := (1 / (1 + d))%float.

(** [rowToMemory]; [JSON.parse] may throw. *)
Definition rowToMemory (row : Row.t) : Result Memory.t :=
  match Json.parse (if String.eqb (Row.tags row) EmptyString then "[]" else Row.tags row) with
  | None => Err SyntaxError
  | Some tags =>
      Ok {| Memory.id := Row.id row;
            Memory.content := Row.content row;
            Memory.category := Row.category row;
            Memory.confidence := Row.confidence row;
            Memory.importance := Row.importance row;
            Memory.createdAt := Row.created_at row;
            Memory.updatedAt := Row.updated_at row;
            Memory.lastAccessedAt := Row.last_accessed_at row;
            Memory.decayDays := Row.decay_days row;
            Memory.sourceChannel := Row.source_channel row;
            Memory.sourceMessageId := Row.source_message_id row;
            Memory.tags := tags;
            Memory.supersedes := Row.supersedes row;
            Memory.deletedAt := Row.deleted_at row;
            Memory.deleteReason := Row.delete_reason row |}
  end.

Definition is_short_id (id : string) : bool := Nat.eqb (String.length id) 8.

Definition like_prefix (id : string) (r : Row.t) : bool :=
  Like.like (Like.prefix_pattern id) (Row.id r).

(** The row [get] reads: by prefix for a short id, by key otherwise. *)
Definition get_row (t : Sql.Table) (id : string) : option Row.t :=
  if is_short_id id
  then Sql.select_first (like_prefix id) t
  else Sql.select_first (Sql.has_id id) t.

Definition found (r : Result Memory.t) : Result (option Memory.t) :=
  match r with
  | Ok m => Ok (Some m)
  | Err e => Err e
  end.

Definition get (t : Sql.Table) (id : string) : Result (option Memory.t) :=
  match get_row t id with
  | None => Ok None
  | Some row => found (rowToMemory row)
  end.

Definition getM (id : string) : M (option Memory.t) := fun st => (st, get (db st) id).

Definition new_row (id : string) (now : Z) (input : CreateMemoryInput) : Row.t :=
  {| Row.id := id;
     Row.content := c_content input;
     Row.category := c_category input;
     Row.confidence := Sql.real (default 0.8%float (c_confidence input));
     Row.importance := Sql.real (default 0.5%float (c_importance input));
     Row.created_at := now;
     Row.updated_at := now;
     Row.last_accessed_at := now;
     Row.decay_days := c_decayDays input;
     Row.source_channel := c_sourceChannel input;
     Row.source_message_id := c_sourceMessageId input;
     Row.tags := Json.stringify (default [] (c_tags input));
     Row.supersedes := None;
     Row.deleted_at := None;
     Row.delete_reason := None |}.

(** [create]: embed, add the vector, insert the row, read it back. The
    result is what [this.get(id)!] evaluates to. *)
Definition create (env : Env) (input : CreateMemoryInput) : M (option Memory.t) :=
  let id := randomUUID env in
  let* vector := lift (embed env (c_content input)) in
  let* _ := write_vectors
              (VectorTable.add (vectors_writable env)
                 (VectorTable.mkEntry id vector (c_content input))) in
  let* _ := write_db (Sql.insert (metadata_writable env) (new_row id (now env) input)) in
  getM id.

Definition set_opt {A} (o : option A) (f : A -> Row.t -> Row.t) (r : Row.t) : Row.t :=
  match o with
  | Some a => f a r
  | None => r
  end.

Definition set_updated_at (v : Z) (r : Row.t) : Row.t :=
  Row.mk (Row.id r) (Row.content r) (Row.category r) (Row.confidence r) (Row.importance r)
    (Row.created_at r) v (Row.last_accessed_at r) (Row.decay_days r)
    (Row.source_channel r) (Row.source_message_id r) (Row.tags r) (Row.supersedes r)
    (Row.deleted_at r) (Row.delete_reason r).

Definition set_content (v : string) (r : Row.t) : Row.t :=
  Row.mk (Row.id r) v (Row.category r) (Row.confidence r) (Row.importance r)
    (Row.created_at r) (Row.updated_at r) (Row.last_accessed_at r) (Row.decay_days r)
    (Row.source_channel r) (Row.source_message_id r) (Row.tags r) (Row.supersedes r)
    (Row.deleted_at r) (Row.delete_reason r).

Definition set_confidence (v : float) (r : Row.t) : Row.t :=
  Row.mk (Row.id r) (Row.content r) (Row.category r) (Sql.real v) (Row.importance r)
    (Row.created_at r) (Row.updated_at r) (Row.last_accessed_at r) (Row.decay_days r)
    (Row.source_channel r) (Row.source_message_id r) (Row.tags r) (Row.supersedes r)
    (Row.deleted_at r) (Row.delete_reason r).

Definition set_importance (v : float) (r : Row.t) : Row.t :=
  Row.mk (Row.id r) (Row.content r) (Row.category r) (Row.confidence r) (Sql.real v)
    (Row.created_at r) (Row.updated_at r) (Row.last_accessed_at r) (Row.decay_days r)
    (Row.source_channel r) (Row.source_message_id r) (Row.tags r) (Row.supersedes r)
    (Row.deleted_at r) (Row.delete_reason r).

Definition set_decay_days (v : option Z) (r : Row.t) : Row.t :=
  Row.mk (Row.id r) (Row.content r) (Row.category r) (Row.confidence r) (Row.importance r)
    (Row.created_at r) (Row.updated_at r) (Row.last_accessed_at r) v
    (Row.source_channel r) (Row.source_message_id r) (Row.tags r) (Row.supersedes r)
    (Row.deleted_at r) (Row.delete_reason r).

Definition set_tags (v : string) (r : Row.t) : Row.t :=
  Row.mk (Row.id r) (Row.content r) (Row.category r) (Row.confidence r) (Row.importance r)
    (Row.created_at r) (Row.updated_at r) (Row.last_accessed_at r) (Row.decay_days r)
    (Row.source_channel r) (Row.source_message_id r) v (Row.supersedes r)
    (Row.deleted_at r) (Row.delete_reason r).

Definition set_deleted (at_ : Z) (reason : option string) (r : Row.t) : Row.t :=
  Row.mk (Row.id r) (Row.content r) (Row.category r) (Row.confidence r) (Row.importance r)
    (Row.created_at r) (Row.updated_at r) (Row.last_accessed_at r) (Row.decay_days r)
    (Row.source_channel r) (Row.source_message_id r) (Row.tags r) (Row.supersedes r)
    (Some at_) reason.

(** The [SET] list [update] assembles, in the order it pushes the columns. *)
Definition apply_updates (now : Z) (updates : UpdateMemoryInput) (r : Row.t) : Row.t :=
  set_opt (u_tags updates) (fun l => set_tags (Json.stringify l))
    (set_opt (u_decayDays updates) set_decay_days
       (set_opt (u_importance updates) set_importance
          (set_opt (u_confidence updates) set_confidence
             (set_opt (u_content updates) set_content
                (set_updated_at now r))))).

(** [update]: when [content] is given, re-embed and update the vector
    entries that satisfy [id = '<id>']; then one [UPDATE ... WHERE id = ?];
    then [this.get(id)!]. *)
Definition update (env : Env) (id : string) (updates : UpdateMemoryInput)
  : M (option Memory.t) :=
  let* _ := match u_content updates with
            | Some c =>
                let* vector := lift (embed env c) in
                write_vectors
                  (VectorTable.update (vectors_writable env)
                     (VectorTable.where_id (predicate env) id) vector c)
            | None => ret tt
            end in
  let* _ := write_db (Sql.update (metadata_writable env) (Sql.has_id id)
                        (apply_updates (now env) updates)) in
  getM id.

Definition live (r : Row.t) : bool := Sql.is_null (Row.deleted_at r).

(** The id [delete] acts on: a short id is replaced by the id of the first
    live row it is a prefix of, when there is one. *)
Definition resolve_full_id (t : Sql.Table) (id : string) : string :=
  if is_short_id id then
    match Sql.select_first (fun r => like_prefix id r && live r) t with
    | Some row => Row.id row
    | None => id
    end
  else id.

Definition delete (env : Env) (id : string) (reason : option string) : M unit :=
  let* fullId := read (fun st => resolve_full_id (db st) id) in
  let* _ := write_db (Sql.update (metadata_writable env) (Sql.has_id fullId)
                        (set_deleted (now env) reason)) in
  write_vectors
    (VectorTable.delete (vectors_writable env) (VectorTable.where_id (predicate env) fullId)).

(** JS truthiness of an optional string and of an optional number. *)
Definition truthy_string (o : option string) : bool :=
  match o with
  | Some s => negb (String.eqb s EmptyString)
  | None => false
  end.

Definition truthy_number (o : option Z) : bool :=
  match o with
  | Some n => negb (n =? 0)
  | None => false
  end.

(** [decay_days IS NULL OR (created_at + decay_days * 86400000) > now] *)
Definition not_decayed (now : Z) (r : Row.t) : bool :=
  match Row.decay_days r with
  | None => true
  | Some d => now <? Row.created_at r + d * 86400000
  end.

Definition opt_test {A} (o : option A) (p : A -> bool) : bool :=
  match o with
  | Some a => p a
  | None => true
  end.

(** The [WHERE] clause [search] builds. *)
Definition search_where (now : Z) (opts : SearchOptions) (vectorIds : list string)
           (r : Row.t) : bool :=
  live r
  && match vectorIds with
     | [] => true
     | _ :: _ => existsb (String.eqb (Row.id r)) vectorIds
     end
  && opt_test (s_category opts) (fun c => category_eqb (Row.category r) c)
  && opt_test (s_minConfidence opts) (Sql.real_ge (Row.confidence r))
  && opt_test (s_minImportance opts) (Sql.real_ge (Row.importance r))
  && opt_test (s_tags opts)
       (forallb (fun tag => Like.like (Like.tag_pattern tag) (Row.tags r)))
  && match s_excludeDecayed opts with
     | Some false => true
     | _ => not_decayed now r
     end.

(** [vectorScores]: the last score set for an id is the one kept. *)
Definition vectorScores (hits : list VectorTable.Hit) : gmap string float :=
  foldl (fun m h => <[VectorTable.hit_id h := score_of_distance (VectorTable._distance h)]> m)
        ∅ hits.

Fixpoint index_from (i : nat) (ids : list string) (m : gmap string nat) : gmap string nat :=
  match ids with
  | [] => m
  | x :: ids' => index_from (S i) ids' (<[x := i]> m)
  end.

(** [idOrder = new Map(vectorIds.map((id, i) => [id, i]))] *)
Definition idOrder (vectorIds : list string) : gmap string nat := index_from 0 vectorIds ∅.

Definition rank (order : gmap string nat) (r : MemorySearchResult) : nat :=
  default 999%nat (order !! Memory.id (memory r)).

Definition scored (scores : gmap string float) (row : Row.t) : Result MemorySearchResult :=
  match rowToMemory row with
  | Ok m => Ok (mkResult m (default 1.0%float (scores !! Row.id row)))
  | Err e => Err e
  end.

(** The vector half of [search]: nothing without a query. *)
Definition semantic_hits (env : Env) (opts : SearchOptions) : M (list VectorTable.Hit) :=
  if truthy_string (s_query opts) then
    let* queryVector := lift (embed env (default EmptyString (s_query opts))) in
    query (fun st =>
             VectorTable.vectorSearch (distance env) queryVector
               (default 10%nat (s_limit opts) * 2) (vectorTable st))
  else ret [].

(** The order in which the metadata query of [search] returns its rows: the
    planner has a choice only when the [id IN (...)] term is there. *)
Definition candidate_scan (plan : Sql.Plan) (vectorIds : list string) (rows : Sql.Table)
  : Sql.Table :=
  match vectorIds with
  | [] => rows
  | _ :: _ => Sql.scan plan rows
  end.

Definition search (env : Env) (opts : SearchOptions) : M (list MemorySearchResult) :=
  let* hits := semantic_hits env opts in
  let vectorIds := map VectorTable.hit_id hits in
  let* rows := read (fun st =>
                       firstn (default 10%nat (s_limit opts))
                         (candidate_scan (plan env) vectorIds
                            (Sql.select (search_where (now env) opts vectorIds) (db st)))) in
  let* results := lift (mapResult (scored (vectorScores hits)) rows) in
  match vectorIds with
  | [] => ret results
  | _ :: _ =>
      let order := idOrder vectorIds in
      ret (stable_sort (fun a b => Nat.leb (rank order a) (rank order b)) results)
  end.

(** [sortBy.replace(/([A-Z])/g, '_$1').toLowerCase()] *)
Definition is_upper (c : ascii) : bool :=
  let n := nat_of_ascii c in (Nat.leb 65 n && Nat.leb n 90)%bool.

Fixpoint snake_case (s : string) : string :=
  match s with
  | EmptyString => EmptyString
  | String c s' =>
      if is_upper c
      then String "_" (String (Like.to_lower c) (snake_case s'))
      else String (Like.to_lower c) (snake_case s')
  end.

Definition list_where (opts : ListOptions) (r : Row.t) : bool :=
  live r && opt_test (l_category opts) (fun c => category_eqb (Row.category r) c).

(** [list]: the count, then the ordered page. *)
Definition list_memories (t : Sql.Table) (opts : ListOptions) : Result ListResult :=
  let sortCol := snake_case (default "created_at" (l_sortBy opts)) in
  let sortOrder := default desc (l_sortOrder opts) in
  let matching := Sql.select (list_where opts) t in
  let count := length matching in
  match Sql.order_by sortCol sortOrder matching with
  | Err e => Err e
  | Ok ordered =>
      let rows := Sql.limit_offset (default 20%nat (l_limit opts))
                    (default 0%nat (l_offset opts)) ordered in
      match mapResult rowToMemory rows with
      | Err e => Err e
      | Ok ms => Ok (mkListResult count ms)
      end
  end.

(** [findDuplicates]: the nearest entry, if it scores at least [threshold]
    and its row is there and not deleted. *)
Definition findDuplicates (env : Env) (content : string) (threshold : option float)
  : M (list MemorySearchResult) :=
  let threshold := default 0.95%float threshold in
  let* vector := lift (embed env content) in
  let* results := query (fun st =>
                           VectorTable.vectorSearch (distance env) vector 1 (vectorTable st)) in
  match results with
  | [] => ret []
  | r0 :: _ =>
      let score := score_of_distance (VectorTable._distance r0) in
      if PrimFloat.ltb score threshold then ret []
      else
        let* found := getM (VectorTable.hit_id r0) in
        match found with
        | None => ret []
        | Some m =>
            if truthy_number (Memory.deletedAt m) then ret []
            else ret [mkResult m score]
        end
  end.

(** ** The remaining methods of the store *)

Definition set_last_accessed_at (v : Z) (r : Row.t) : Row.t :=
  Row.mk (Row.id r) (Row.content r) (Row.category r) (Row.confidence r) (Row.importance r)
    (Row.created_at r) (Row.updated_at r) v (Row.decay_days r)
    (Row.source_channel r) (Row.source_message_id r) (Row.tags r) (Row.supersedes r)
    (Row.deleted_at r) (Row.delete_reason r).

(** [id IN (?, ..., ?)] *)
Definition id_in (ids : list string) (r : Row.t) : bool :=
  existsb (String.eqb (Row.id r)) ids.

(** [touchMany]: nothing at all for an empty array, else one [UPDATE] of
    [last_accessed_at] over the listed ids. *)
Definition touchMany (env : Env) (ids : list string) : M unit :=
  match ids with
  | [] => ret tt
  | _ :: _ =>
      write_db (Sql.update (metadata_writable env) (id_in ids)
                  (set_last_accessed_at (now env)))
  end.

(** [count]: [SELECT COUNT( * ) ... WHERE deleted_at IS NULL]. *)
Definition count (t : Sql.Table) : nat := length (Sql.select live t).

(** [ORDER BY k1, k2]: the second key decides between rows the first key
    does not tell apart. *)
Definition then_by (le1 le2 : Row.t -> Row.t -> bool) (a b : Row.t) : bool :=
  if le1 a b then (if le1 b a then le2 a b else true) else false.

(** [<key> DESC] *)
Definition descending (le : Row.t -> Row.t -> bool) (a b : Row.t) : bool := le b a.

(** [ORDER BY importance DESC, created_at DESC] *)
Definition importance_then_recency : Row.t -> Row.t -> bool :=
  then_by (descending (Sql.by_key Row.importance (Sql.null_first PrimFloat.leb)))
          (descending (Sql.by_key Row.created_at Z.leb)).

Definition in_category (category : MemoryCategory) (r : Row.t) : bool :=
  category_eqb (Row.category r) category && live r.

(** [getByCategory(category, limit = 50)] *)
Definition getByCategory (t : Sql.Table) (category : MemoryCategory) (limit : option nat)
  : Result (list Memory.t) :=
  mapResult rowToMemory
    (firstn (default 50%nat limit)
       (stable_sort importance_then_recency (Sql.select (in_category category) t))).

(** ** Sequences of calls *)

(** One mutating call of a caller, with what it takes from outside. *)
Inductive Call : Type :=
| CallCreate (env : Env) (input : CreateMemoryInput)
| CallUpdate (env : Env) (id : string) (updates : UpdateMemoryInput)
| CallDelete (env : Env) (id : string) (reason : option string)
| CallTouchMany (env : Env) (ids : list string).

(** The store a call leaves behind, whether it returned or threw. *)
Definition after (c : Call) (st : Store) : Store :=
  match c with
  | CallCreate env input => fst (create env input st)
  | CallUpdate env id updates => fst (update env id updates st)
  | CallDelete env id reason => fst (delete env id reason st)
  | CallTouchMany env ids => fst (touchMany env ids st)
  end.

Definition run (calls : list Call) (st : Store) : Store :=
  fold_left (fun s c => after c s) calls st.

(** ** Configuration of the plugin

    [parseConfig] of the configuration module reads a value the host hands
    over untyped. *)

Module Config.

#[local] Set Warnings "-register-all".

(** A JavaScript value as [parseConfig] can tell them apart. The fields of
    an object are listed once each; the first entry of a key is the one a
    property access reads. *)
Inductive JsValue : Type :=
| JUndefined
| JNull
| JBool (b : bool)
| JNumber (n : float)
| JString (s : string)
| JArray (items : list JsValue)
| JObject (fields : list (string * JsValue)).

Inductive ConfigError : Type :=
| TypeError                   (* a property of [undefined] or [null] was read *)
| MissingEmbedding            (* Missing embedding configuration *)
| MissingApiKey.              (* Missing embedding.apiKey *)

Fixpoint lookup (k : string) (fields : list (string * JsValue)) : JsValue :=
  match fields with
  | [] => JUndefined
  | (k', v) :: rest => if String.eqb k' k then v else lookup k rest
  end.

(** [v.k] for a key that is no array index and no built-in property. *)
Definition prop (v : JsValue) (k : string) : option JsValue :=
  match v with
  | JUndefined | JNull => None
  | JObject fields => Some (lookup k fields)
  | _ => Some JUndefined
  end.

Definition truthy (v : JsValue) : bool :=
  match v with
  | JUndefined | JNull => false
  | JBool b => b
  | JNumber n => negb (PrimFloat.eqb n 0 || PrimFloat.is_nan n)
  | JString s => negb (String.eqb s EmptyString)
  | JArray _ | JObject _ => true
  end.

(** [typeof v === 'object'] *)
Definition is_object (v : JsValue) : bool :=
  match v with
  | JNull | JArray _ | JObject _ => true
  | _ => false
  end.

(** [a || b] *)
Definition or_else (a b : JsValue) : JsValue := if truthy a then a else b.

(** [a ?? b] *)
Definition nullish_else (a b : JsValue) : JsValue :=
  match a with
  | JUndefined | JNull => b
  | _ => a
  end.

(** [v !== false] *)
Definition is_not_false (v : JsValue) : bool :=
  match v with
  | JBool false => false
  | _ => true
  end.

(** The value [parseConfig] returns; [model], [dbPath] and
    [decayCheckInterval] are passed through behind a type assertion. *)
Record MemoryToolsConfig : Type := mkConfig {
  apiKey : string;
  model : JsValue;
  dbPath : JsValue;
  autoInjectInstructions : bool;
  decayCheckInterval : JsValue
}.

Definition parseConfig (raw : JsValue) : ConfigError + MemoryToolsConfig :=
  match prop raw "embedding" with
  | None => inl TypeError
  | Some embedding =>
      if negb (truthy embedding) || negb (is_object embedding) then inl MissingEmbedding
      else
        match prop embedding "apiKey" with
        | None => inl TypeError
        | Some (JString key) =>
            if negb (truthy (JString key)) then inl MissingApiKey
            else
              match prop embedding "model", prop raw "dbPath",
                    prop raw "autoInjectInstructions", prop raw "decayCheckInterval" with
              | Some m, Some p, Some a, Some d =>
                  inr {| apiKey := key;
                         model := or_else m (JString "text-embedding-3-small");
                         dbPath := or_else p (JString "~/.openclaw/memory/tools");
                         autoInjectInstructions := is_not_false a;
                         decayCheckInterval := nullish_else d (JNumber 24) |}
              | _, _, _, _ => inl TypeError
              end
        | Some _ => inl MissingApiKey
        end
  end.

(** The configuration object a parsed configuration stands for. *)
Definition to_raw (c : MemoryToolsConfig) : JsValue :=
  JObject
    [("embedding"%string,
      JObject [("apiKey"%string, JString (apiKey c)); ("model"%string, model c)]);
     ("dbPath"%string, dbPath c);
     ("autoInjectInstructions"%string, JBool (autoInjectInstructions c));
     ("decayCheckInterval"%string, decayCheckInterval c)].

End Config.

(** ** The mock provider of the tests

    [hashString] of [MockEmbeddingProvider]: the running value is kept a
    32-bit integer by [hash |= 0]. *)

Module Mock.

(** [ToInt32] of an integer. *)
Definition to_int32 (z : Z) : Z := (z + 2147483648) mod 4294967296 - 2147483648.

(** [((hash << 5) - hash) + code], then [hash |= 0]. *)
Definition step (hash : Z) (code : Z) : Z :=
  to_int32 (to_int32 (hash * 32) - hash + code).

Fixpoint hash_from (hash : Z) (s : string) : Z :=
  match s with
  | EmptyString => hash
  | String c s' => hash_from (step hash (Z.of_nat (nat_of_ascii c))) s'
  end.

Definition hashString (s : string) : Z := hash_from 0 s.

(** The same sum without any wrap-around: each character code times a power
    of 31. *)
Fixpoint poly_from (acc : Z) (s : string) : Z :=
  match s with
  | EmptyString => acc
  | String c s' => poly_from (acc * 31 + Z.of_nat (nat_of_ascii c)) s'
  end.

End Mock.

(** ** Vocabulary of the statements *)

(** Both engines accept writes during the call. *)
Definition writable (env : Env) : Prop :=
  metadata_writable env = true /\ vectors_writable env = true.

(** The [tags] column holds the text [JSON.stringify] writes. *)
Definition row_ok (r : Row.t) : bool :=
  match Json.parse (Row.tags r) with
  | Some l => String.eqb (Json.stringify l) (Row.tags r)
  | None => false
  end.

(** The primary key: no two rows share an id. *)
Fixpoint unique_ids (t : Sql.Table) : bool :=
  match t with
  | [] => true
  | r :: t' => negb (existsb (Sql.has_id (Row.id r)) t') && unique_ids t'
  end.

(** A table as the store writes it: unique ids, decodable tags. *)
Definition wf_table (t : Sql.Table) : Prop :=
  unique_ids t = true /\ forall r, In r t -> row_ok r = true.

(** Deletion stamps are readings of a clock that is past the epoch, so none
    is 0. *)
Definition stamped (t : Sql.Table) : Prop :=
  forall r, In r t -> Row.deleted_at r <> Some 0.

(** Every vector entry has a metadata row with its id. *)
Definition orphan_free (st : Store) : bool :=
  forallb (fun e => existsb (Sql.has_id (VectorTable.id e)) (db st)) (vectorTable st).

(** What the [UPDATE] of [delete] does to one row. *)
Definition mark_deleted (fullId : string) (at_ : Z) (reason : option string) (r : Row.t)
  : Row.t :=
  if Sql.has_id fullId r then set_deleted at_ reason r else r.

(** The provider embeds the text, when there is one. *)
Definition embeds (env : Env) (text : option string) : Prop :=
  forall c, text = Some c -> exists v, embed env c = Ok v.


(** [opts.limit ?? 10] *)
Definition search_limit (opts : SearchOptions) : nat := default 10%nat (s_limit opts).

(** The rows the metadata query of [search] returns for given candidates. *)
Definition search_rows (env : Env) (opts : SearchOptions) (hits : list VectorTable.Hit)
           (t : Sql.Table) : Sql.Table :=
  firstn (search_limit opts)
    (candidate_scan (plan env) (map VectorTable.hit_id hits)
       (Sql.select (search_where (now env) opts (map VectorTable.hit_id hits)) t)).





(** The same options with [query] left out. *)
Definition without_query (opts : SearchOptions) : SearchOptions :=
  mkSearch None (s_category opts) (s_minConfidence opts) (s_minImportance opts)
    (s_tags opts) (s_limit opts) (s_excludeDecayed opts).

(** Distances that count as zero: [+0] and [-0]. *)
Definition is_zero (d : float) : bool := PrimFloat.eqb d 0.

(** [0 <= d], which no NaN satisfies. *)
Definition non_negative (d : float) : bool := PrimFloat.leb 0 d.

(** Every vector entry has a live metadata row that [get] reads for its
    id. *)
Definition backed (st : Store) : Prop :=
  forall e, In e (vectorTable st) ->
            exists row, get_row (db st) (VectorTable.id e) = Some row /\ live row = true.

(** The same provider and engines at another call: another id from
    [randomUUID], another reading of the clock. *)
Definition at_call (env : Env) (uuid : string) (time : Z) : Env :=
  mkEnv (embed env) (distance env) uuid time (metadata_writable env) (vectors_writable env)
    (predicate env) (plan env).

(** *** The specification's wording of five properties

    Each is stated for one call, the way the specification words it; the
    facts below decide them. *)

(** A [create] whose vector write succeeds and whose metadata write fails
    leaves no vector entry without a metadata row. *)
Definition failed_create_leaves_no_orphan
           (env : Env) (input : CreateMemoryInput) (st : Store) : Prop :=
  isOk (embed env (c_content input)) = true ->
  vectors_writable env = true ->
  isOk (Sql.insert (metadata_writable env)
          (new_row (randomUUID env) (now env) input) (db st)) = false ->
  orphan_free st = true ->
  isOk (snd (create env input st)) = false
  /\ orphan_free (fst (create env input st)) = true.


(** [update] returns a Memory when the id names a live row and fails when it
    names no row or a soft-deleted one. *)
Definition update_reports_not_found
           (env : Env) (id : string) (updates : UpdateMemoryInput) (st : Store) : Prop :=
  match get_row (db st) id with
  | Some row =>
      if live row
      then exists m, snd (update env id updates st) = Ok (Some m)
      else isOk (snd (update env id updates st)) = false
  | None => isOk (snd (update env id updates st)) = false
  end.



(** *** Further vocabulary *)

(** The id is no short id of a stored row: [get] and [delete] read it as a
    key. *)
Definition full_id (id : string) : Prop := is_short_id id = false.


(** Ids as [randomUUID] makes them: without a quote or a backslash. *)
Definition plain_rows (t : Sql.Table) : Prop :=
  forall r, In r t -> VectorTable.plain (Row.id r) = true.

(** The id is plain whenever [update] hands it to the vector engine, that
    is, whenever new content is given. *)
Definition plain_for (id : string) (updates : UpdateMemoryInput) : Prop :=
  u_content updates <> None -> VectorTable.plain id = true.

(** What is read back of a number written to the table: the number itself,
    except that a NaN comes back as [null] and [-0] as [0]. *)
Definition read_back (x : float) : option float :=
  if PrimFloat.eqb x x
  then Some (if PrimFloat.eqb x 0 then 0%float else x)
  else None.

(** A number of the unit interval, as the data model asks of confidence and
    importance. *)
Definition in_unit (x : float) : bool := PrimFloat.leb 0 x && PrimFloat.leb x 1.

(** The number read is the number written: equal as numbers, and the very
    same float unless the number written is a zero, which is read as [0]
    whatever its sign. *)
Definition same_number (read : option float) (written : float) : Prop :=
  exists y, read = Some y
            /\ PrimFloat.eqb y written = true
            /\ (PrimFloat.eqb written 0 = false -> y = written)
            /\ (PrimFloat.eqb written 0 = true -> y = 0%float).

(** Not soft-deleted. *)
Definition not_deleted (r : Row.t) : bool :=
  match Row.deleted_at r with
  | None => true
  | Some _ => false
  end.

(** Of the category asked for, when one is asked for. *)
Definition of_category (category : option MemoryCategory) (r : Row.t) : bool :=
  match category with
  | None => true
  | Some c => category_eqb (Row.category r) c
  end.





(** [x] comes before [y] in the list. *)
Fixpoint precedes {A} (x y : A) (l : list A) : Prop :=
  match l with
  | [] => False
  | z :: l' => (z = x /\ In y l') \/ precedes x y l'
  end.

(** The order does not tell the two rows apart. *)
Definition tied (le : Row.t -> Row.t -> bool) (x y : Row.t) : Prop :=
  le x y = true /\ le y x = true.

(** A Memory with another deletion stamp and nothing else changed. *)
Definition with_stamp (m : Memory.t) (at_ : option Z) (reason : option string) : Memory.t :=
  Memory.mk (Memory.id m) (Memory.content m) (Memory.category m) (Memory.confidence m)
    (Memory.importance m) (Memory.createdAt m) (Memory.updatedAt m)
    (Memory.lastAccessedAt m) (Memory.decayDays m) (Memory.sourceChannel m)
    (Memory.sourceMessageId m) (Memory.tags m) (Memory.supersedes m) at_ reason.


(** [covers p s]: [p] spells the first characters of [s] up to ASCII case,
    with [_] standing for any character. *)
Fixpoint covers (p s : string) : bool :=
  match p, s with
  | EmptyString, _ => true
  | String _ _, EmptyString => false
  | String c p', String d s' =>
      (Ascii.eqb c "_" || (negb (Ascii.eqb c "%") && Like.eq_nocase c d)) && covers p' s'
  end.

(** The columns no call ever rewrites. *)
Definition birth (r : Row.t) : string * MemoryCategory * Z * option string * option string :=
  (Row.id r, Row.category r, Row.created_at r, Row.source_channel r,
   Row.source_message_id r).

(** A vector entry mirrors a row: same id, the row's content as text, and
    the provider's embedding of that content as vector. *)
Definition mirrors (provider : string -> Result (list float))
           (e : VectorTable.Entry) (r : Row.t) : Prop :=
  VectorTable.id e = Row.id r
  /\ VectorTable.text e = Row.content r
  /\ provider (Row.content r) = Ok (VectorTable.vector e).

(** The two stores agree: ids are unique plain UUIDs, no two entries of the
    index share an id, every entry mirrors a live row and every live row has
    an entry that mirrors it. The order of the index is left open. *)
Definition consistent (provider : string -> Result (list float)) (st : Store) : Prop :=
  unique_ids (db st) = true
  /\ (forall r, In r (db st) -> String.length (Row.id r) = 36%nat)
  /\ plain_rows (db st)
  /\ List.NoDup (map VectorTable.id (vectorTable st))
  /\ (forall e, In e (vectorTable st) ->
                exists r, In r (db st) /\ not_deleted r = true /\ mirrors provider e r)
  /\ (forall r, In r (db st) -> not_deleted r = true ->
                exists e, In e (vectorTable st) /\ mirrors provider e r).

(** A call during which nothing is refused: both engines accept writes, the
    provider is the given one, [randomUUID] hands out a fresh plain id, and
    the id a caller passes is plain. *)
Definition unhindered (provider : string -> Result (list float)) (c : Call) (st : Store)
  : Prop :=
  match c with
  | CallCreate env input =>
      writable env /\ embed env = provider
      /\ String.length (randomUUID env) = 36%nat
      /\ VectorTable.plain (randomUUID env) = true
      /\ existsb (Sql.has_id (randomUUID env)) (db st) = false
  | CallUpdate env id _ => writable env /\ embed env = provider /\ VectorTable.plain id = true
  | CallDelete env id _ => writable env /\ VectorTable.plain id = true
  | CallTouchMany _ _ => True
  end.

Fixpoint unhindered_run (provider : string -> Result (list float)) (calls : list Call)
         (st : Store) : Prop :=
  match calls with
  | [] => True
  | c :: rest => unhindered provider c st /\ unhindered_run provider rest (after c st)
  end.

(** A row without its last access time. *)
Definition without_access (r : Row.t) : Row.t := set_last_accessed_at 0 r.

(** 1 when the condition holds, 0 otherwise. *)
Definition one_if (b : bool) : nat := if b then 1%nat else 0%nat.

(** A comparison decides every pair of elements of the list one way or the
    other. *)
Definition total_on {A} (le : A -> A -> bool) (l : list A) : Prop :=
  forall x y, In x l -> In y l -> le x y = false -> le y x = true.

(** Not a NaN. *)
Definition is_number (f : float) : bool := PrimFloat.eqb f f.

(** Newest first, and oldest first. *)
Definition newer_first (a b : Memory.t) : Prop := Memory.createdAt b <= Memory.createdAt a.

Definition older_first (a b : Memory.t) : Prop := Memory.createdAt a <= Memory.createdAt b.

(** More important first, a memory without an importance after all that
    have one; between equally important memories, newest first. *)
Definition weightier_first (a b : Memory.t) : Prop :=
  match Memory.importance a, Memory.importance b with
  | Some x, Some y =>
      PrimFloat.leb y x = true
      /\ (PrimFloat.leb x y = true -> Memory.createdAt b <= Memory.createdAt a)
  | Some _, None => True
  | None, Some _ => False
  | None, None => Memory.createdAt b <= Memory.createdAt a
  end.

(** Every importance stored is a number: the engine keeps no NaN in a REAL
    column. *)
Definition importances_are_numbers (t : Sql.Table) : Prop :=
  forall r x, In r t -> Row.importance r = Some x -> is_number x = true.


(** ** Sample data *)

Module Sample.

(** Squared Euclidean distance, the engine's default metric. *)
Fixpoint l2 (a b : list float) : float :=
  match a, b with
  | x :: a', y :: b' => ((x - y) * (x - y) + l2 a' b')%float
  | _, _ => 0%float
  end.

(** A one-dimensional embedding: the length of the text. *)
Definition embed_length (s : string) : Result (list float) :=
  Ok [PrimFloat.of_uint63 (Uint63.of_Z (Z.of_nat (String.length s)))].

(** A vector engine that accepts no predicate but the comparison of the id
    with a plain literal; the samples hand it no other. *)
Definition comparisons_only (text : string) : option (VectorTable.Entry -> bool) := None.

Definition env (uuid : string) (now : Z) : Env :=
  mkEnv embed_length l2 uuid now true true comparisons_only Sql.ByRowid.

(** The same call answered from the primary-key index. *)
Definition env_by_id (uuid : string) (now : Z) : Env :=
  mkEnv embed_length l2 uuid now true true comparisons_only Sql.ByPrimaryKey.

(** The same call while the metadata engine refuses writes. *)
Definition env_metadata_down (uuid : string) (now : Z) : Env :=
  mkEnv embed_length l2 uuid now false true comparisons_only Sql.ByRowid.

Definition empty : Store := mkStore [] [].

Definition id1 : string := "3f2a9c1e-0000-4000-8000-000000000001".
Definition id2 : string := "3f2a9c1e-0000-4000-8000-000000000002".
Definition id3 : string := "7b1d4e60-0000-4000-8000-000000000003".

Definition dark_mode : CreateMemoryInput :=
  mkCreate "User prefers dark mode" cat_preference None None None None None None.

Definition meeting : CreateMemoryInput :=
  mkCreate "Meeting tomorrow at 3pm" cat_event (Some 0.9%float) (Some 0.3%float) (Some 1)
    (Some "chat"%string) (Some "msg-17"%string) (Some ["Work"%string; "meeting"%string]).

Definition rex : CreateMemoryInput :=
  mkCreate "User dog name is Rex" cat_fact None (Some 0.6%float) None None None None.

(** Three memories stored one after the other; the first two ids share
    their first eight characters. *)
Definition one : Store := fst (create (env id1 1000) dark_mode empty).
Definition two : Store := fst (create (env id2 2000) meeting one).
Definition three : Store := fst (create (env id3 3000) rex two).

Definition id4 : string := "9c0e5a77-0000-4000-8000-000000000004".

(** Four memories stored within the same millisecond, the second of them
    forgotten since. *)
Definition same_time : Store :=
  let s1 := fst (create (env id1 1000) dark_mode empty) in
  let s2 := fst (create (env id4 1000) rex s1) in
  let s3 := fst (create (env id2 1000) meeting s2) in
  let s4 := fst (create (env id3 1000) rex s3) in
  fst (delete (env EmptyString 5000) id4 None s4).

(** The same content stored twice. *)
Definition twice : Store := fst (create (env id2 2000) dark_mode one).

(** A provider that is down. *)
Definition env_provider_down (uuid : string) (now : Z) : Env :=
  mkEnv (fun _ => Err ProviderFailure) l2 uuid now true true comparisons_only Sql.ByRowid.

(** The same call while the vector engine refuses writes. *)
Definition env_vectors_down (uuid : string) (now : Z) : Env :=
  mkEnv embed_length l2 uuid now true false comparisons_only Sql.ByRowid.

(** A caller's session: three stores, one of them refused by the metadata
    engine, an update, a touch and a forget. *)
Definition session : list Call :=
  [CallCreate (env id1 1000) dark_mode;
   CallCreate (env_metadata_down id2 2000) meeting;
   CallCreate (env id3 3000) rex;
   CallUpdate (env EmptyString 4000) id1
     (mkUpdate (Some "User prefers light mode"%string) None None None None);
   CallTouchMany (env EmptyString 5000) [id1; id3];
   CallDelete (env EmptyString 6000) "7b1d4e60" (Some "wrong"%string)].

(** The same session with nothing refused. *)
Definition smooth_session : list Call :=
  [CallCreate (env id1 1000) dark_mode;
   CallCreate (env id2 2000) meeting;
   CallCreate (env id3 3000) rex;
   CallUpdate (env EmptyString 4000) id1
     (mkUpdate (Some "User prefers light mode"%string) None None None None);
   CallTouchMany (env EmptyString 5000) [id1; id3];
   CallDelete (env EmptyString 6000) "7b1d4e60" (Some "wrong"%string)].

(** A configuration as the host hands it over: an empty [model], and a
    [decayCheckInterval] of 0. *)
Definition raw_config : Config.JsValue :=
  Config.JObject
    [("embedding"%string,
      Config.JObject [("apiKey"%string, Config.JString "sk-test");
                      ("model"%string, Config.JString EmptyString)]);
     ("decayCheckInterval"%string, Config.JNumber 0)].

End Sample.

(** ** JSON: the round trip *)

Module JsonFacts.
Import Json.

Lemma append_cons (x : ascii) (a b : string) :
  String.append (String x a) b = String x (String.append a b).
Proof. reflexivity. Qed.

Lemma append_assoc (a b c : string) :
  String.append (String.append a b) c = String.append a (String.append b c).
Proof.
  induction a as [|x a IH]; [reflexivity|].
  rewrite !append_cons. now rewrite IH.
Qed.

Lemma append_nil_r (a : string) : String.append a EmptyString = a.
Proof.
  induction a as [|x a IH]; [reflexivity|].
  rewrite append_cons. now rewrite IH.
Qed.

Lemma parse_escape_char (c : ascii) (done : list string) (acc rest : string) :
  parse_from (InStr done acc) (String.append (escape_char c) rest)
  = parse_from (InStr done (snoc acc c)) rest.
Proof.
  destruct c as [[] [] [] [] [] [] [] []]; reflexivity.
Qed.

Lemma parse_escape (s : string) (done : list string) (acc rest : string) :
  parse_from (InStr done acc) (String.append (escape s) rest)
  = parse_from (InStr done (String.append acc s)) rest.
Proof.
  revert acc.
  induction s as [|c s IH]; intros acc; simpl.
  - now rewrite append_nil_r.
  - rewrite append_assoc, parse_escape_char, IH.
    unfold snoc. now rewrite append_assoc.
Qed.

Lemma parse_string (s : string) (done : list string) (acc rest : string) :
  parse_from (InStr done acc) (String.append (escape s) (String dquote rest))
  = parse_from (AfterStr (done ++ [String.append acc s])) rest.
Proof. rewrite parse_escape. reflexivity. Qed.

Lemma stringify_items_tail (s : string) (l : list string) :
  String.append (stringify_items (s :: l)) "]"
  = String.append (stringify_string s) (tail_items l).
Proof.
  revert s.
  induction l as [|t l IH]; intros s; [reflexivity|].
  change (stringify_items (s :: t :: l))
    with (String.append (stringify_string s) (String "," (stringify_items (t :: l)))).
  rewrite append_assoc, append_cons, IH. reflexivity.
Qed.

Lemma parse_tail (l : list string) (done : list string) :
  parse_from (AfterStr done) (tail_items l) = Some (done ++ l).
Proof.
  revert done.
  induction l as [|t l IH]; intros done.
  - simpl. now rewrite app_nil_r.
  - change (parse_from (InStr done EmptyString)
              (String.append (String.append (escape t) (String dquote EmptyString))
                 (tail_items l)) = Some (done ++ t :: l)).
    rewrite append_assoc, append_cons.
    change (String.append EmptyString (tail_items l)) with (tail_items l).
    rewrite parse_string, IH.
    change (String.append EmptyString t) with t.
    now rewrite <- app_assoc.
Qed.

(** [JSON.parse(JSON.stringify(tags))] gives [tags] back. *)
Lemma parse_stringify (l : list string) : parse (stringify l) = Some l.
Proof.
  destruct l as [|s l]; [reflexivity|].
  unfold parse, stringify.
  rewrite stringify_items_tail.
  change (parse_from (InStr [] EmptyString)
            (String.append (String.append (escape s) (String dquote EmptyString))
               (tail_items l)) = Some (s :: l)).
  rewrite append_assoc, append_cons.
  change (String.append EmptyString (tail_items l)) with (tail_items l).
  rewrite parse_string, parse_tail. reflexivity.
Qed.

End JsonFacts.

(** ** Categories *)

Lemma category_eqb_eq (a b : MemoryCategory) : category_eqb a b = true <-> a = b.
Proof. destruct a, b; vm_compute; split; congruence. Qed.

(** ** Facts about the stable sort *)

Section StableSortFacts.
Context {A : Type} (le : A -> A -> bool).

Lemma insert_sorted_perm (x : A) (l : list A) :
  Permutation (x :: l) (insert_sorted le x l).
Proof.
  induction l as [|y l IH]; simpl; [reflexivity|].
  destruct (le x y); [reflexivity|].
  rewrite perm_swap. now apply perm_skip.
Qed.

Lemma stable_sort_perm (l : list A) : Permutation l (stable_sort le l).
Proof.
  induction l as [|x l IH]; simpl; [constructor|].
  rewrite <- insert_sorted_perm. now apply perm_skip.
Qed.

Lemma stable_sort_length (l : list A) : length (stable_sort le l) = length l.
Proof. symmetry. apply Permutation_length, stable_sort_perm. Qed.

Lemma stable_sort_In (x : A) (l : list A) : In x (stable_sort le l) <-> In x l.
Proof.
  split; apply Permutation_in;
    [symmetry|]; apply stable_sort_perm.
Qed.

End StableSortFacts.

(** ** create: a metadata write that fails after the vector write *)

Lemma create_steps (env : Env) (input : CreateMemoryInput) (st : Store) (vector : list float) :
  embed env (c_content input) = Ok vector ->
  vectors_writable env = true ->
  create env input st =
    let st1 := mkStore (db st)
                 (vectorTable st ++
                    [VectorTable.mkEntry (randomUUID env) vector (c_content input)]) in
    match Sql.insert (metadata_writable env)
            (new_row (randomUUID env) (now env) input) (db st) with
    | Ok t => let st2 := mkStore t (vectorTable st1) in (st2, get t (randomUUID env))
    | Err e => (st1, Err e)
    end.
Proof.
  intros Hemb Hvec.
  unfold create, bind, lift, write_vectors, write_db, getM, VectorTable.add.
  rewrite Hemb, Hvec. simpl.
  destruct (Sql.insert _ _ _); reflexivity.
Qed.

(** C1 (as stated, refuted): a store with no orphan, a create whose vector
    write succeeds and whose metadata write fails; afterwards the index
    holds an entry that has no metadata row. *)
Lemma create_orphan_counterexample :
  let env := Sample.env_metadata_down Sample.id1 1000 in
  let st' := fst (create env Sample.dark_mode Sample.empty) in
  (snd (create env Sample.dark_mode Sample.empty) = Err StorageFailure
   /\ db st' = []
   /\ map VectorTable.id (vectorTable st') = [Sample.id1])
  /\ ~ failed_create_leaves_no_orphan env Sample.dark_mode Sample.empty.
Proof.
  split; [repeat split|].
  intros H. destruct H as [_ H]; try reflexivity. discriminate H.
Qed.

(** C1 (amended): when the vector write of [create] succeeds and the
    metadata write then fails, [create] fails with that error and the
    metadata table is left as it was, but the vector write is not undone:
    the new entry stays in the index. *)
Theorem create_metadata_failure_keeps_vector
        (env : Env) (input : CreateMemoryInput) (st : Store)
        (vector : list float) (e : Error) :
  embed env (c_content input) = Ok vector ->
  vectors_writable env = true ->
  Sql.insert (metadata_writable env) (new_row (randomUUID env) (now env) input) (db st)
    = Err e ->
  snd (create env input st) = Err e
  /\ db (fst (create env input st)) = db st
  /\ vectorTable (fst (create env input st))
     = vectorTable st ++ [VectorTable.mkEntry (randomUUID env) vector (c_content input)].
Proof.
  intros Hemb Hvec Hins.
  rewrite (create_steps env input st vector Hemb Hvec), Hins.
  simpl. repeat split.
Qed.

Lemma create_metadata_failure_keeps_vector_witness :
  let env := Sample.env_metadata_down Sample.id2 2000 in
  snd (create env Sample.meeting Sample.one) = Err StorageFailure
  /\ db (fst (create env Sample.meeting Sample.one)) = db Sample.one
  /\ vectorTable (fst (create env Sample.meeting Sample.one))
     = vectorTable Sample.one
       ++ [VectorTable.mkEntry Sample.id2 [23%float] "Meeting tomorrow at 3pm"].
Proof.
  apply (create_metadata_failure_keeps_vector
           (Sample.env_metadata_down Sample.id2 2000) Sample.meeting Sample.one
           [23%float] StorageFailure); reflexivity.
Defined.

(** ** delete: the second call *)

Lemma resolve_plain (t : Sql.Table) (id : string) :
  VectorTable.plain id = true ->
  plain_rows t ->
  VectorTable.plain (resolve_full_id t id) = true.
Proof.
  intros Hid Hrows. unfold resolve_full_id.
  destruct (is_short_id id); [|exact Hid].
  destruct (Sql.select_first _ t) as [row|] eqn:E; [|exact Hid].
  apply Hrows. unfold Sql.select_first in E. now apply find_some in E.
Qed.

Lemma delete_steps (env : Env) (id : string) (reason : option string) (st : Store) :
  writable env ->
  VectorTable.plain (resolve_full_id (db st) id) = true ->
  delete env id reason st =
    (mkStore
       (map (mark_deleted (resolve_full_id (db st) id) (now env) reason) (db st))
       (List.filter (fun e => negb (VectorTable.has_id (resolve_full_id (db st) id) e))
          (vectorTable st)),
     Ok tt).
Proof.
  intros [Hm Hv] Hp.
  unfold delete, bind, read, write_db, write_vectors, Sql.update, VectorTable.delete,
    VectorTable.where_id.
  rewrite Hm, Hv. cbn [negb db vectorTable]. rewrite Hp. reflexivity.
Qed.

(** The metadata half of [delete] is done before the vector engine is
    called. *)
Lemma delete_stamps (env : Env) (id : string) (reason : option string) (st : Store) :
  metadata_writable env = true ->
  db (fst (delete env id reason st))
  = map (mark_deleted (resolve_full_id (db st) id) (now env) reason) (db st).
Proof.
  intros Hm.
  unfold delete, bind, read, write_db, write_vectors, Sql.update.
  rewrite Hm. cbn [negb db vectorTable].
  destruct (VectorTable.delete _ _ _); reflexivity.
Qed.

Lemma mark_deleted_plain (fullId : string) (at_ : Z) (reason : option string)
      (t : Sql.Table) :
  plain_rows t -> plain_rows (map (mark_deleted fullId at_ reason) t).
Proof.
  intros H r Hr. apply in_map_iff in Hr as [r0 [<- Hr0]].
  unfold mark_deleted. destruct (Sql.has_id fullId r0); [|now apply H].
  cbn [set_deleted Row.id]. now apply H.
Qed.

Lemma mark_deleted_id (fullId : string) (at_ : Z) (reason : option string) (r : Row.t) :
  Row.id (mark_deleted fullId at_ reason r) = Row.id r.
Proof. unfold mark_deleted. now destruct (Sql.has_id fullId r). Qed.




(** ** update: what it returns *)

Lemma apply_updates_id (now : Z) (updates : UpdateMemoryInput) (r : Row.t) :
  Row.id (apply_updates now updates r) = Row.id r.
Proof.
  unfold apply_updates, set_opt.
  destruct (u_tags updates), (u_decayDays updates), (u_importance updates),
    (u_confidence updates), (u_content updates); reflexivity.
Qed.

Lemma apply_updates_deleted_at (now : Z) (updates : UpdateMemoryInput) (r : Row.t) :
  Row.deleted_at (apply_updates now updates r) = Row.deleted_at r.
Proof.
  unfold apply_updates, set_opt.
  destruct (u_tags updates), (u_decayDays updates), (u_importance updates),
    (u_confidence updates), (u_content updates); reflexivity.
Qed.

Lemma apply_updates_updated_at (now : Z) (updates : UpdateMemoryInput) (r : Row.t) :
  Row.updated_at (apply_updates now updates r) = now.
Proof.
  unfold apply_updates, set_opt.
  destruct (u_tags updates), (u_decayDays updates), (u_importance updates),
    (u_confidence updates), (u_content updates); reflexivity.
Qed.

Lemma apply_updates_tags (now : Z) (updates : UpdateMemoryInput) (r : Row.t) :
  Row.tags (apply_updates now updates r)
  = match u_tags updates with
    | Some l => Json.stringify l
    | None => Row.tags r
    end.
Proof.
  unfold apply_updates, set_opt.
  destruct (u_tags updates), (u_decayDays updates), (u_importance updates),
    (u_confidence updates), (u_content updates); reflexivity.
Qed.

Lemma stringify_not_empty (l : list string) :
  String.eqb (Json.stringify l) EmptyString = false.
Proof. reflexivity. Qed.

Lemma row_ok_stringify (r : Row.t) :
  row_ok r = true -> exists l, Row.tags r = Json.stringify l /\ Json.parse (Row.tags r) = Some l.
Proof.
  unfold row_ok. destruct (Json.parse (Row.tags r)) as [l|] eqn:E; [|discriminate].
  intros H. apply String.eqb_eq in H. now exists l.
Qed.

(** A well-formed row decodes, and its tags are the list the text encodes. *)
Lemma rowToMemory_ok (r : Row.t) :
  row_ok r = true ->
  exists m, rowToMemory r = Ok m
            /\ Json.stringify (Memory.tags m) = Row.tags r
            /\ Memory.id m = Row.id r
            /\ Memory.deletedAt m = Row.deleted_at r.
Proof.
  intros H. destruct (row_ok_stringify r H) as [l [Ht Hp]].
  unfold rowToMemory.
  rewrite Ht, stringify_not_empty, JsonFacts.parse_stringify.
  eexists. repeat split.
Qed.

Lemma apply_updates_ok (now : Z) (updates : UpdateMemoryInput) (r : Row.t) :
  row_ok r = true -> row_ok (apply_updates now updates r) = true.
Proof.
  intros H. unfold row_ok. rewrite apply_updates_tags.
  destruct (u_tags updates) as [l|]; [|exact H].
  rewrite JsonFacts.parse_stringify. apply String.eqb_refl.
Qed.

Lemma find_has_id_map (id : string) (f : Row.t -> Row.t) (t : Sql.Table) :
  (forall r, Row.id (f r) = Row.id r) ->
  List.find (Sql.has_id id) (map (fun r => if Sql.has_id id r then f r else r) t)
  = option_map f (List.find (Sql.has_id id) t).
Proof.
  intros Hid. induction t as [|a t IH]; [reflexivity|].
  simpl. destruct (Sql.has_id id a) eqn:E.
  - unfold Sql.has_id in *. rewrite Hid, E. reflexivity.
  - rewrite E. exact IH.
Qed.

Lemma map_unchanged (id : string) (f : Row.t -> Row.t) (t : Sql.Table) :
  List.find (Sql.has_id id) t = None ->
  map (fun r => if Sql.has_id id r then f r else r) t = t.
Proof.
  intros H. rewrite <- (map_id t) at 2.
  apply map_ext_in. intros r Hr.
  now rewrite (find_none _ _ H r Hr).
Qed.

Lemma update_steps (env : Env) (id : string) (updates : UpdateMemoryInput) (st : Store) :
  writable env ->
  embeds env (u_content updates) ->
  plain_for id updates ->
  let t := map (fun r => if Sql.has_id id r then apply_updates (now env) updates r else r)
               (db st) in
  db (fst (update env id updates st)) = t
  /\ snd (update env id updates st) = get t id.
Proof.
  intros [Hm Hv] Hemb Hplain.
  unfold update, bind, lift, ret, write_db, write_vectors, getM, Sql.update,
    VectorTable.update, VectorTable.where_id.
  rewrite Hm, Hv. unfold plain_for in Hplain.
  destruct (u_content updates) as [c|].
  - destruct (Hemb c eq_refl) as [v ->]. rewrite Hplain by discriminate.
    split; reflexivity.
  - split; reflexivity.
Qed.

(** C3 (as stated, refuted): the row was soft-deleted at time 1500, yet
    [update] rewrites it and returns it instead of failing; and for an id
    that names no row [update] returns [null], not an error. *)
Lemma update_not_found_counterexample :
  let env := Sample.env EmptyString 2000 in
  let st := fst (delete (Sample.env EmptyString 1500) Sample.id1 None Sample.one) in
  let changes := mkUpdate (Some "User prefers light mode"%string) None None None None in
  (map Row.deleted_at (db st) = [Some 1500]
   /\ (exists m, snd (update env Sample.id1 changes st) = Ok (Some m)
                 /\ Memory.content m = "User prefers light mode"%string
                 /\ Memory.updatedAt m = 2000
                 /\ Memory.deletedAt m = Some 1500)
   /\ get (db st) "non-existent" = Ok None
   /\ snd (update env "non-existent" changes st) = Ok None)
  /\ ~ update_reports_not_found env Sample.id1 changes st
  /\ ~ update_reports_not_found env "non-existent" changes st.
Proof.
  split; [|split].
  - vm_compute. repeat split. eexists. repeat split.
  - intros H. discriminate H.
  - intros H. discriminate H.
Qed.

(** C3 (amended): while both engines accept writes and the provider embeds
    the new content, [update] called with a full id (any length but 8; an id
    without quote or backslash when new content is given, as the id is then
    spliced into the predicate text of the vector engine) makes no liveness
    check. If a row has that id, live or soft-deleted, the row is rewritten,
    the rows of other ids are left as they were, and the call returns the
    updated Memory: the decoding of the row as it is stored after the call,
    with its [deletedAt] untouched. If no row has that id the call changes no
    row and returns [null]; it raises no error. *)
Theorem update_ignores_liveness
        (env : Env) (id : string) (updates : UpdateMemoryInput) (st : Store) :
  writable env ->
  embeds env (u_content updates) ->
  is_short_id id = false ->
  plain_for id updates ->
  (forall row : Row.t,
      get_row (db st) id = Some row ->
      row_ok row = true ->
      exists m, snd (update env id updates st) = Ok (Some m)
                /\ rowToMemory (apply_updates (now env) updates row) = Ok m
                /\ Memory.updatedAt m = now env
                /\ Memory.deletedAt m = Row.deleted_at row
                /\ get_row (db (fst (update env id updates st))) id
                   = Some (apply_updates (now env) updates row)
                /\ map Row.id (db (fst (update env id updates st))) = map Row.id (db st)
                /\ (forall r, In r (db st) -> Row.id r <> id ->
                              In r (db (fst (update env id updates st)))))
  /\ (get_row (db st) id = None ->
      snd (update env id updates st) = Ok None
      /\ db (fst (update env id updates st)) = db st).
Proof.
  intros Hw Hemb Hshort Hplain.
  destruct (update_steps env id updates st Hw Hemb Hplain) as [Hdb Hres].
  rewrite Hres, Hdb. clear Hdb Hres.
  unfold get, get_row, Sql.select_first. rewrite Hshort.
  split.
  - intros row Hrow Hok.
    rewrite (find_has_id_map id _ (db st) (apply_updates_id (now env) updates)), Hrow.
    simpl.
    destruct (rowToMemory_ok _ (apply_updates_ok (now env) updates row Hok))
      as [m [Hm [_ [_ Hdel]]]].
    exists m. rewrite Hm.
    split; [reflexivity|]. split; [reflexivity|]. split; [|split; [|split; [|split]]].
    + unfold rowToMemory in Hm.
      destruct (Json.parse _); [|discriminate].
      injection Hm as <-. simpl. apply apply_updates_updated_at.
    + now rewrite Hdel, apply_updates_deleted_at.
    + reflexivity.
    + rewrite map_map. apply map_ext. intros r.
      destruct (Sql.has_id id r); [apply apply_updates_id | reflexivity].
    + intros r Hr Hne. apply in_map_iff. exists r. split; [|exact Hr].
      unfold Sql.has_id. destruct (String.eqb_spec (Row.id r) id); [contradiction | reflexivity].
  - intros Hnone.
    rewrite (map_unchanged id _ (db st) Hnone), Hnone. split; reflexivity.
Qed.

Lemma update_ignores_liveness_witness :
  let env := Sample.env EmptyString 2000 in
  let st := fst (delete (Sample.env EmptyString 1500) Sample.id1 None Sample.one) in
  let changes := mkUpdate (Some "User prefers light mode"%string) None None None None in
  let row := set_deleted 1500 None (new_row Sample.id1 1000 Sample.dark_mode) in
  get_row (db st) Sample.id1 = Some row
  /\ exists m, snd (update env Sample.id1 changes st) = Ok (Some m)
               /\ rowToMemory (apply_updates (now env) changes row) = Ok m
               /\ Memory.updatedAt m = 2000
               /\ Memory.deletedAt m = Some 1500
               /\ get_row (db (fst (update env Sample.id1 changes st))) Sample.id1
                  = Some (apply_updates (now env) changes row)
               /\ map Row.id (db (fst (update env Sample.id1 changes st))) = map Row.id (db st)
               /\ (forall r, In r (db st) -> Row.id r <> Sample.id1 ->
                             In r (db (fst (update env Sample.id1 changes st)))).
Proof.
  split; [reflexivity|].
  destruct (update_ignores_liveness (Sample.env EmptyString 2000) Sample.id1
              (mkUpdate (Some "User prefers light mode"%string) None None None None)
              (fst (delete (Sample.env EmptyString 1500) Sample.id1 None Sample.one)))
    as [Hfound _].
  - split; reflexivity.
  - intros c _. eexists. reflexivity.
  - reflexivity.
  - intros _. reflexivity.
  - apply (Hfound (set_deleted 1500 None (new_row Sample.id1 1000 Sample.dark_mode)));
      reflexivity.
Defined.

(** ** Numbers in a REAL column *)

Lemma leb_number_r (x y : float) : PrimFloat.leb x y = true -> PrimFloat.eqb y y = true.
Proof.
  rewrite FloatAxioms.leb_spec, FloatAxioms.eqb_spec.
  unfold SFleb, SFeqb, SFcompare.
  destruct (Prim2SF x) as [sx|sx| |sx mx ex]; try discriminate;
    destruct (Prim2SF y) as [sy|sy| |sy my ey]; try discriminate; intros _;
    try reflexivity; try (destruct sy; reflexivity);
    change (PosDef.Pos.compare_cont Eq my my) with (Pos.compare my my);
    rewrite Z.compare_refl, Pos.compare_refl; destruct sy; reflexivity.
Qed.

Lemma eqb_zero (x : float) :
  PrimFloat.eqb x 0 = true -> PrimFloat.eqb 0 x = true.
Proof.
  rewrite !FloatAxioms.eqb_spec.
  change (Prim2SF 0) with (S754_zero false).
  unfold SFeqb, SFcompare.
  destruct (Prim2SF x) as [sx|sx| |sx mx ex]; try reflexivity;
    try discriminate; destruct sx; discriminate.
Qed.

Lemma is_nan_number (x : float) : PrimFloat.eqb x x = true -> PrimFloat.is_nan x = false.
Proof. unfold PrimFloat.is_nan. now intros ->. Qed.

(** The engine and the statements describe the same read-back. *)
Lemma real_read_back (x : float) : Sql.real x = read_back x.
Proof.
  unfold Sql.real, read_back, PrimFloat.is_nan.
  destruct (PrimFloat.eqb x x); cbn [negb]; [|reflexivity].
  now destruct (PrimFloat.eqb x 0).
Qed.

Lemma real_same_number (x : float) : in_unit x = true -> same_number (Sql.real x) x.
Proof.
  unfold in_unit. intros H. apply andb_true_iff in H as [H0 _].
  pose proof (leb_number_r _ _ H0) as Hx.
  unfold same_number, Sql.real. rewrite (is_nan_number x Hx).
  destruct (PrimFloat.eqb x 0) eqn:E.
  - exists 0%float. repeat split; [now apply eqb_zero | discriminate].
  - exists x. repeat split; [exact Hx | discriminate].
Qed.

(** ** create then get *)

Lemma find_app_fresh (id : string) (t : Sql.Table) (r : Row.t) :
  existsb (Sql.has_id id) t = false ->
  Row.id r = id ->
  List.find (Sql.has_id id) (t ++ [r]) = Some r.
Proof.
  intros Hfresh Hid. induction t as [|a t IH]; simpl in *.
  - unfold Sql.has_id. now rewrite Hid, String.eqb_refl.
  - apply orb_false_iff in Hfresh as [Ha Ht].
    rewrite Ha. now apply IH.
Qed.

Lemma rowToMemory_new_row (id : string) (now : Z) (input : CreateMemoryInput) :
  rowToMemory (new_row id now input)
  = Ok {| Memory.id := id;
          Memory.content := c_content input;
          Memory.category := c_category input;
          Memory.confidence := Sql.real (default 0.8%float (c_confidence input));
          Memory.importance := Sql.real (default 0.5%float (c_importance input));
          Memory.createdAt := now;
          Memory.updatedAt := now;
          Memory.lastAccessedAt := now;
          Memory.decayDays := c_decayDays input;
          Memory.sourceChannel := c_sourceChannel input;
          Memory.sourceMessageId := c_sourceMessageId input;
          Memory.tags := default [] (c_tags input);
          Memory.supersedes := None;
          Memory.deletedAt := None;
          Memory.deleteReason := None |}.
Proof.
  unfold rowToMemory, new_row. cbn [Row.tags].
  rewrite stringify_not_empty, JsonFacts.parse_stringify. reflexivity.
Qed.

(** What a [create] that meets no failure does to the store. *)
Lemma create_succeeds (env : Env) (input : CreateMemoryInput) (st : Store)
      (vector : list float) :
  embed env (c_content input) = Ok vector ->
  writable env ->
  existsb (Sql.has_id (randomUUID env)) (db st) = false ->
  is_short_id (randomUUID env) = false ->
  create env input st =
    (mkStore (db st ++ [new_row (randomUUID env) (now env) input])
             (vectorTable st
                ++ [VectorTable.mkEntry (randomUUID env) vector (c_content input)]),
     found (rowToMemory (new_row (randomUUID env) (now env) input))).
Proof.
  intros Hemb [Hm Hv] Hfresh Hshort.
  rewrite (create_steps env input st vector Hemb Hv).
  unfold Sql.insert. rewrite Hm. cbn [negb Row.id new_row]. rewrite Hfresh.
  cbn zeta. unfold get, get_row, Sql.select_first. rewrite Hshort.
  rewrite find_app_fresh; [reflexivity | exact Hfresh | reflexivity].
Qed.

(** C4: a [create] of a valid input (confidence and importance, when given,
    numbers of the unit interval) that meets no failure (the provider embeds
    the content, both engines accept writes, [randomUUID] hands out a
    36-character id no row has yet) returns a Memory that [get] of its id
    returns again; its content, category, decayDays, tags, sourceChannel and
    sourceMessageId are the inputs, its confidence and importance are the
    numbers given, 0.8 and 0.5 when omitted (the same floats, but for a [-0]
    given, which is read back as [0]), its id is the assigned one and its
    three timestamps are the creation time. *)
Theorem create_get_round_trip
        (env : Env) (input : CreateMemoryInput) (st : Store) (vector : list float) :
  embed env (c_content input) = Ok vector ->
  writable env ->
  existsb (Sql.has_id (randomUUID env)) (db st) = false ->
  String.length (randomUUID env) = 36%nat ->
  (forall x, c_confidence input = Some x -> in_unit x = true) ->
  (forall x, c_importance input = Some x -> in_unit x = true) ->
  exists m : Memory.t,
    snd (create env input st) = Ok (Some m)
    /\ get (db (fst (create env input st))) (Memory.id m) = Ok (Some m)
    /\ Memory.id m = randomUUID env
    /\ Memory.content m = c_content input
    /\ Memory.category m = c_category input
    /\ same_number (Memory.confidence m) (default 0.8%float (c_confidence input))
    /\ same_number (Memory.importance m) (default 0.5%float (c_importance input))
    /\ Memory.decayDays m = c_decayDays input
    /\ Memory.tags m = default [] (c_tags input)
    /\ Memory.sourceChannel m = c_sourceChannel input
    /\ Memory.sourceMessageId m = c_sourceMessageId input
    /\ Memory.createdAt m = now env
    /\ Memory.updatedAt m = now env
    /\ Memory.lastAccessedAt m = now env.
Proof.
  intros Hemb Hw Hfresh Hlen Hconf Himp.
  assert (Hshort : is_short_id (randomUUID env) = false)
    by (unfold is_short_id; now rewrite Hlen).
  rewrite (create_succeeds env input st vector Hemb Hw Hfresh Hshort).
  rewrite rowToMemory_new_row. cbn [fst snd found db].
  eexists. split; [reflexivity|]. cbn [Memory.id].
  split.
  - unfold get, get_row, Sql.select_first. rewrite Hshort.
    rewrite find_app_fresh; [|exact Hfresh|reflexivity].
    now rewrite rowToMemory_new_row.
  - split; [reflexivity|]. split; [reflexivity|]. split; [reflexivity|].
    cbn [Memory.confidence Memory.importance].
    split; [|split; [|repeat split]].
    + apply real_same_number.
      destruct (c_confidence input) as [x|]; [now apply Hconf | reflexivity].
    + apply real_same_number.
      destruct (c_importance input) as [x|]; [now apply Himp | reflexivity].
Qed.

Lemma create_get_round_trip_witness :
  (exists m : Memory.t,
      snd (create (Sample.env Sample.id2 2000) Sample.meeting Sample.one) = Ok (Some m)
      /\ get (db (fst (create (Sample.env Sample.id2 2000) Sample.meeting Sample.one)))
             (Memory.id m) = Ok (Some m)
      /\ Memory.id m = Sample.id2
      /\ Memory.content m = "Meeting tomorrow at 3pm"%string
      /\ Memory.category m = cat_event
      /\ same_number (Memory.confidence m) 0.9%float
      /\ same_number (Memory.importance m) 0.3%float
      /\ Memory.decayDays m = Some 1
      /\ Memory.tags m = ["Work"%string; "meeting"%string]
      /\ Memory.sourceChannel m = Some "chat"%string
      /\ Memory.sourceMessageId m = Some "msg-17"%string
      /\ Memory.createdAt m = 2000
      /\ Memory.updatedAt m = 2000
      /\ Memory.lastAccessedAt m = 2000)
  /\ (exists m : Memory.t,
         snd (create (Sample.env Sample.id2 2000) Sample.meeting Sample.one) = Ok (Some m)
         /\ Memory.confidence m = Some 0.9%float
         /\ Memory.importance m = Some 0.3%float)
  /\ (exists m : Memory.t,
         snd (create (Sample.env Sample.id2 2000) Sample.dark_mode Sample.one)
         = Ok (Some m)
         /\ Memory.confidence m = Some 0.8%float
         /\ Memory.importance m = Some 0.5%float).
Proof.
  split; [|split].
  - apply (create_get_round_trip (Sample.env Sample.id2 2000) Sample.meeting Sample.one
             [23%float]).
    + reflexivity.
    + split; reflexivity.
    + reflexivity.
    + reflexivity.
    + intros x H. injection H as <-. reflexivity.
    + intros x H. injection H as <-. reflexivity.
  - eexists. split; [vm_compute; reflexivity|]. split; reflexivity.
  - destruct (create_get_round_trip (Sample.env Sample.id2 2000) Sample.dark_mode
                Sample.one [22%float]) as [m [Hm _]].
    + reflexivity.
    + split; reflexivity.
    + reflexivity.
    + reflexivity.
    + intros x H. discriminate H.
    + intros x H. discriminate H.
    + exists m. split; [exact Hm|].
      vm_compute in Hm. injection Hm as <-. split; reflexivity.
Defined.

(** ** Decoding several rows *)

Lemma mapResult_Forall2 {A B} (f : A -> Result B) (l : list A) (ys : list B) :
  mapResult f l = Ok ys <-> Forall2 (fun x y => f x = Ok y) l ys.
Proof.
  revert ys. induction l as [|x l IH]; intros ys; simpl.
  - split.
    + intros H. injection H as <-. constructor.
    + intros H. inversion H. reflexivity.
  - split.
    + destruct (f x) as [y|e] eqn:Ex; [|discriminate].
      destruct (mapResult f l) as [zs|e]; [|discriminate].
      intros H. injection H as <-.
      constructor; [exact Ex | now apply IH].
    + intros H. inversion H as [|x0 y l0 zs Hx Hl]; subst.
      rewrite Hx. apply IH in Hl. now rewrite Hl.
Qed.


Lemma mapResult_In {A B} (f : A -> Result B) (l : list A) (ys : list B) (y : B) :
  mapResult f l = Ok ys -> In y ys -> exists x, In x l /\ f x = Ok y.
Proof.
  intros H. apply mapResult_Forall2 in H.
  induction H as [|x y' l ys Hxy Hl IH]; intros Hy; [destruct Hy|].
  destruct Hy as [<- | Hy].
  - exists x. split; [now left | exact Hxy].
  - destruct (IH Hy) as [x' [Hin Hx']]. exists x'. split; [now right | exact Hx'].
Qed.

Lemma mapResult_length {A B} (f : A -> Result B) (l : list A) (ys : list B) :
  mapResult f l = Ok ys -> length ys = length l.
Proof.
  intros H. apply mapResult_Forall2 in H.
  induction H; simpl; congruence.
Qed.

(** ** list: two pages over three rows *)

Lemma order_by_perm (col : string) (o : SortOrder) (rows ordered : Sql.Table) :
  Sql.order_by col o rows = Ok ordered -> Permutation rows ordered.
Proof.
  unfold Sql.order_by.
  destruct (Sql.column_le col) as [le|]; [|discriminate].
  destruct o; intros H; injection H as <-; apply stable_sort_perm.
Qed.

Lemma order_by_known (col : string) (o : SortOrder) (rows : Sql.Table) :
  Sql.column_le col <> None -> exists ordered, Sql.order_by col o rows = Ok ordered.
Proof.
  unfold Sql.order_by.
  destruct (Sql.column_le col) as [le|]; [|congruence].
  intros _. destruct o; eexists; reflexivity.
Qed.

(** The stable sort keeps, for two rows it is given in order, that order
    whenever the comparison allows it. *)
Lemma insert_sorted_In_iff {A} (le : A -> A -> bool) (x y : A) (l : list A) :
  In y (insert_sorted le x l) <-> y = x \/ In y l.
Proof.
  induction l as [|z l IH]; cbn [insert_sorted].
  - cbn. intuition.
  - destruct (le x z); cbn [In] in *; [intuition|]. rewrite IH. intuition.
Qed.

Lemma insert_sorted_keeps {A} (le : A -> A -> bool) (x a b : A) (l : list A) :
  precedes a b l -> precedes a b (insert_sorted le x l).
Proof.
  induction l as [|z l IH]; cbn [insert_sorted precedes]; [easy|].
  intros H. destruct (le x z); cbn [precedes].
  - right. exact H.
  - destruct H as [[-> Hb] | H].
    + left. split; [reflexivity|]. apply insert_sorted_In_iff. now right.
    + right. now apply IH.
Qed.

Lemma insert_sorted_first {A} (le : A -> A -> bool) (x y : A) (l : list A) :
  In y l -> le x y = true -> precedes x y (insert_sorted le x l).
Proof.
  induction l as [|z l IH]; cbn [insert_sorted]; [easy|].
  intros Hy Hle. destruct (le x z) eqn:E; cbn [precedes].
  - left. split; [reflexivity | exact Hy].
  - right. destruct Hy as [-> | Hy]; [congruence | now apply IH].
Qed.

Lemma stable_sort_stable {A} (le : A -> A -> bool) (x y : A) (l : list A) :
  precedes x y l -> le x y = true -> precedes x y (stable_sort le l).
Proof.
  induction l as [|z l IH]; cbn [stable_sort precedes]; [easy|].
  intros [[-> Hy] | H] Hle.
  - apply insert_sorted_first; [|exact Hle]. now apply stable_sort_In.
  - apply insert_sorted_keeps. now apply IH.
Qed.

Lemma decoded_In {A B} (f : A -> Result B) (l : list A) (ys : list B) (x : A) (y : B) :
  Forall2 (fun x y => f x = Ok y) l ys -> In x l -> f x = Ok y -> In y ys.
Proof.
  intros H. induction H as [|a b l ys Hab _ IH]; intros Hin Hx; [destruct Hin|].
  destruct Hin as [-> | Hin]; [left; congruence | right; now apply IH].
Qed.

Lemma precedes_decoded {A B} (f : A -> Result B) (l : list A) (ys : list B)
      (x y : A) (x' y' : B) :
  mapResult f l = Ok ys -> f x = Ok x' -> f y = Ok y' ->
  precedes x y l -> precedes x' y' ys.
Proof.
  intros H Hx Hy. apply mapResult_Forall2 in H.
  induction H as [|z z' l ys Hz Hl IH]; cbn [precedes]; [easy|].
  intros [[-> Hin] | Hp].
  - left. split; [congruence|].
    exact (decoded_In f l ys y y' Hl Hin Hy).
  - right. now apply IH.
Qed.

Lemma list_where_filters (opts : ListOptions) (r : Row.t) :
  list_where opts r = not_deleted r && of_category (l_category opts) r.
Proof.
  unfold list_where, live, Sql.is_null, opt_test, not_deleted, of_category.
  destruct (Row.deleted_at r); destruct (l_category opts); reflexivity.
Qed.

Lemma order_by_stable (col : string) (o : SortOrder) (le : Row.t -> Row.t -> bool)
      (rows ordered : Sql.Table) (x y : Row.t) :
  Sql.column_le col = Some le ->
  Sql.order_by col o rows = Ok ordered ->
  precedes x y rows -> tied le x y -> precedes x y ordered.
Proof.
  unfold Sql.order_by. intros -> H Hp [Hxy Hyx].
  destruct o; injection H as <-; now apply stable_sort_stable.
Qed.

(** C5: over a table whose live rows (of the listed category, when one is
    given) are exactly three, whatever soft-deleted rows and rows of other
    categories lie between them, [list] with limit 2, offset 0 and then limit
    2, offset 2 returns two memories and then one, both calls report a total
    of 3, and the three returned memories are the three live rows, each
    exactly once, whatever the sort key and the direction. Rows that tie on
    the sort key come in the order in which they were stored, in both
    directions: the position in the table is the secondary key, and it is the
    same for both calls. *)
Theorem list_pages_partition
        (t : Sql.Table) (category : option MemoryCategory)
        (sortBy : option string) (sortOrder : option SortOrder)
        (r1 r2 r3 : Row.t) (le : Row.t -> Row.t -> bool) :
  let page offset := mkList category sortBy sortOrder (Some 2%nat) (Some offset) in
  List.filter (fun r => not_deleted r && of_category category r) t = [r1; r2; r3] ->
  row_ok r1 = true -> row_ok r2 = true -> row_ok r3 = true ->
  Sql.column_le (snake_case (default "created_at"%string sortBy)) = Some le ->
  exists (a b c m1 m2 m3 : Memory.t),
    rowToMemory r1 = Ok m1 /\ rowToMemory r2 = Ok m2 /\ rowToMemory r3 = Ok m3
    /\ list_memories t (page 0%nat) = Ok (mkListResult 3 [a; b])
    /\ list_memories t (page 2%nat) = Ok (mkListResult 3 [c])
    /\ Permutation [m1; m2; m3] [a; b; c]
    /\ (tied le r1 r2 -> precedes m1 m2 [a; b; c])
    /\ (tied le r2 r3 -> precedes m2 m3 [a; b; c])
    /\ (tied le r1 r3 -> precedes m1 m3 [a; b; c]).
Proof.
  intros page Hrows Hok1 Hok2 Hok3 Hcol.
  assert (Hsel : forall k, Sql.select (list_where (page k)) t = [r1; r2; r3]).
  { intros k. unfold Sql.select. rewrite <- Hrows. apply filter_ext.
    intros r. apply list_where_filters. }
  destruct (order_by_known (snake_case (default "created_at"%string sortBy))
              (default desc sortOrder) [r1; r2; r3]) as [ordered Hord];
    [congruence|].
  pose proof (order_by_perm _ _ _ _ Hord) as Hperm.
  destruct (rowToMemory_ok r1 Hok1) as [m1 [Hm1 _]].
  destruct (rowToMemory_ok r2 Hok2) as [m2 [Hm2 _]].
  destruct (rowToMemory_ok r3 Hok3) as [m3 [Hm3 _]].
  assert (Hms : mapResult rowToMemory [r1; r2; r3] = Ok [m1; m2; m3])
    by (cbn [mapResult]; now rewrite Hm1, Hm2, Hm3).
  destruct (Permutation_Forall2 Hperm (proj1 (mapResult_Forall2 _ _ _) Hms))
    as [ms' [Hpm Hf2]].
  pose proof (proj2 (mapResult_Forall2 _ _ _) Hf2) as Hdec.
  assert (Hlen' : length ordered = 3%nat)
    by (now rewrite <- (Permutation_length Hperm)).
  destruct ordered as [|x [|y [|z [|w ordered]]]]; try discriminate Hlen'.
  inversion Hf2 as [|? a ? ? Ha Hf2a]; subst.
  inversion Hf2a as [|? b ? ? Hb Hf2b]; subst.
  inversion Hf2b as [|? c ? ? Hc Hf2c]; subst.
  inversion Hf2c; subst.
  exists a, b, c, m1, m2, m3.
  split; [exact Hm1|]. split; [exact Hm2|]. split; [exact Hm3|].
  unfold list_memories. rewrite !Hsel.
  cbn [l_sortBy l_sortOrder l_limit l_offset page default].
  change (match sortBy with Some a0 => a0 | None => "created_at"%string end)
    with (default "created_at"%string sortBy).
  change (match sortOrder with Some a0 => a0 | None => desc end)
    with (default desc sortOrder).
  rewrite Hord.
  unfold Sql.limit_offset. cbn [firstn skipn mapResult length].
  rewrite Ha, Hb, Hc.
  split; [reflexivity|]. split; [reflexivity|]. split; [exact Hpm|].
  assert (Hties : forall u v mu mv,
             rowToMemory u = Ok mu -> rowToMemory v = Ok mv ->
             precedes u v [r1; r2; r3] -> tied le u v -> precedes mu mv [a; b; c]).
  { intros u v mu mv Hu Hv Hp Ht.
    apply (precedes_decoded rowToMemory [x; y; z] [a; b; c] u v); try assumption.
    exact (order_by_stable _ _ le _ _ u v Hcol Hord Hp Ht). }
  split; [|split]; intros Ht.
  - apply (Hties r1 r2); try assumption. cbn. left. split; [reflexivity | now left].
  - apply (Hties r2 r3); try assumption. cbn. right. left. split; [reflexivity | now left].
  - apply (Hties r1 r3); try assumption. cbn. left. split; [reflexivity | right; now left].
Qed.

Lemma list_pages_partition_witness :
  let page offset := mkList None None None (Some 2%nat) (Some offset) in
  let t := db Sample.same_time in
  map Row.id t = [Sample.id1; Sample.id4; Sample.id2; Sample.id3]
  /\ map Row.created_at t = [1000; 1000; 1000; 1000]
  /\ map Row.deleted_at t = [None; Some 5000; None; None]
  /\ match list_memories t (page 0%nat), list_memories t (page 2%nat) with
     | Ok first, Ok second =>
         total first = 3%nat /\ total second = 3%nat
         /\ map Memory.id (items first) = [Sample.id1; Sample.id2]
         /\ map Memory.id (items second) = [Sample.id3]
     | _, _ => False
     end
  /\ exists (a b c : Memory.t),
       list_memories t (page 0%nat) = Ok (mkListResult 3 [a; b])
       /\ list_memories t (page 2%nat) = Ok (mkListResult 3 [c])
       /\ map Memory.id [a; b; c] = [Sample.id1; Sample.id2; Sample.id3]
       /\ precedes a b [a; b; c] /\ precedes b c [a; b; c].
Proof.
  split; [reflexivity|]. split; [reflexivity|]. split; [reflexivity|].
  split; [vm_compute; repeat split|].
  destruct (list_pages_partition (db Sample.same_time) None None None
              (new_row Sample.id1 1000 Sample.dark_mode)
              (new_row Sample.id2 1000 Sample.meeting)
              (new_row Sample.id3 1000 Sample.rex)
              (Sql.by_key Row.created_at Z.leb)
              eq_refl eq_refl eq_refl eq_refl eq_refl)
    as [a [b [c [m1 [m2 [m3 [H1 [H2 [H3 [Hp0 [Hp2 [_ [H12 [H23 _]]]]]]]]]]]]]].
  exists a, b, c.
  split; [exact Hp0|]. split; [exact Hp2|].
  assert (E1 : m1 = a /\ m2 = b).
  { vm_compute in Hp0, H1, H2. split; congruence. }
  assert (E3 : m3 = c).
  { vm_compute in Hp2, H3. congruence. }
  destruct E1 as [<- <-]. subst c.
  split; [vm_compute in H1, H2, H3; injection H1 as <-; injection H2 as <-;
          injection H3 as <-; reflexivity|].
  split; [apply H12 | apply H23]; split; reflexivity.
Defined.

(** ** Short ids *)

Lemma like_percent_all (s : string) : Like.like "%" s = true.
Proof.
  induction s as [|c s IH]; [reflexivity|].
  change (Like.like "%" (String c s))
    with (Like.like EmptyString (String c s) || Like.like "%" s).
  rewrite IH. apply orb_true_r.
Qed.


Lemma like_cons (c : ascii) (p s : string) :
  Like.like (String c p) s
  = if Ascii.eqb c "%" then
      Like.like p s
      || match s with
         | EmptyString => false
         | String _ s' => Like.like (String "%" p) s'
         end
    else if Ascii.eqb c "_" then
      match s with
      | EmptyString => false
      | String _ s' => Like.like p s'
      end
    else
      match s with
      | EmptyString => false
      | String d s' => Like.eq_nocase c d && Like.like p s'
      end.
Proof.
  simpl.
  destruct (Ascii.eqb c "%"); [destruct s; reflexivity|].
  destruct (Ascii.eqb c "_"); reflexivity.
Qed.





Lemma find_first (p : Row.t -> bool) (before after : Sql.Table) (row : Row.t) :
  (forall r, In r before -> p r = false) ->
  p row = true ->
  List.find p (before ++ row :: after) = Some row.
Proof.
  intros Hb Hrow. induction before as [|a before IH]; simpl.
  - now rewrite Hrow.
  - rewrite (Hb a (or_introl eq_refl)). apply IH. intros r Hr. apply Hb. now right.
Qed.

Lemma has_id_sym (a b : Row.t) : Sql.has_id (Row.id a) b = Sql.has_id (Row.id b) a.
Proof. unfold Sql.has_id. apply String.eqb_sym. Qed.






(** ** search: its shape *)

Lemma In_firstn {A} (n : nat) (l : list A) (x : A) : In x (firstn n l) -> In x l.
Proof.
  revert l. induction n as [|n IH]; intros [|a l] H; simpl in *; try contradiction.
  destruct H as [H | H]; [now left | right; now apply IH].
Qed.

Lemma candidate_scan_perm (plan : Sql.Plan) (ids : list string) (rows : Sql.Table) :
  Permutation rows (candidate_scan plan ids rows).
Proof.
  unfold candidate_scan, Sql.scan.
  destruct ids; [reflexivity|]. destruct plan; [reflexivity | apply stable_sort_perm].
Qed.

Lemma candidate_scan_In (plan : Sql.Plan) (ids : list string) (rows : Sql.Table) (r : Row.t) :
  In r (candidate_scan plan ids rows) <-> In r rows.
Proof.
  split; apply Permutation_in; [symmetry|]; apply candidate_scan_perm.
Qed.

Lemma search_rows_In (env : Env) (opts : SearchOptions) (hits : list VectorTable.Hit)
      (t : Sql.Table) (r : Row.t) :
  In r (search_rows env opts hits t) ->
  In r t /\ search_where (now env) opts (map VectorTable.hit_id hits) r = true.
Proof.
  unfold search_rows. intros H. apply In_firstn in H.
  apply candidate_scan_In in H. unfold Sql.select in H. now apply filter_In in H.
Qed.

Lemma vectorSearch_positive (d : list float -> list float -> float) (q : list float)
      (k : nat) (t : VectorTable.Table) :
  k <> 0%nat ->
  VectorTable.vectorSearch d q k t
  = Ok (firstn k
          (stable_sort VectorTable.hit_le
             (map (fun e => VectorTable.mkHit (VectorTable.id e) (d q (VectorTable.vector e)))
                t))).
Proof.
  intros Hk. unfold VectorTable.vectorSearch.
  destruct (Nat.eqb_spec k 0); [contradiction | reflexivity].
Qed.

Lemma vectorSearch_inv (d : list float -> list float -> float) (q : list float)
      (k : nat) (t : VectorTable.Table) (hits : list VectorTable.Hit) :
  VectorTable.vectorSearch d q k t = Ok hits ->
  k <> 0%nat
  /\ hits = firstn k
              (stable_sort VectorTable.hit_le
                 (map (fun e => VectorTable.mkHit (VectorTable.id e)
                                  (d q (VectorTable.vector e))) t)).
Proof.
  unfold VectorTable.vectorSearch.
  destruct (Nat.eqb_spec k 0); [discriminate|].
  intros H. injection H as <-. split; [assumption | reflexivity].
Qed.

Lemma search_no_query (env : Env) (opts : SearchOptions) (st : Store) :
  truthy_string (s_query opts) = false ->
  search env opts st = (st, mapResult (scored ∅) (search_rows env opts [] (db st))).
Proof.
  intros Hq. unfold search, semantic_hits, bind, ret, read, lift. rewrite Hq.
  cbn [map vectorScores foldl].
  unfold search_rows, search_limit. cbn [map db].
  destruct (mapResult _ _); reflexivity.
Qed.

Lemma search_with_query (env : Env) (opts : SearchOptions) (st : Store) (v : list float)
      (hits : list VectorTable.Hit) :
  truthy_string (s_query opts) = true ->
  embed env (default EmptyString (s_query opts)) = Ok v ->
  VectorTable.vectorSearch (distance env) v (search_limit opts * 2) (vectorTable st)
  = Ok hits ->
  search env opts st =
    (st,
     match mapResult (scored (vectorScores hits)) (search_rows env opts hits (db st)) with
     | Ok results =>
         match map VectorTable.hit_id hits with
         | [] => Ok results
         | _ :: _ =>
             Ok (stable_sort
                   (fun a b => Nat.leb (rank (idOrder (map VectorTable.hit_id hits)) a)
                                       (rank (idOrder (map VectorTable.hit_id hits)) b))
                   results)
         end
     | Err e => Err e
     end).
Proof.
  intros Hq Hemb Hhits. unfold search, semantic_hits, bind, ret, read, lift, query.
  rewrite Hq, Hemb. cbn [db vectorTable].
  fold (search_limit opts). rewrite Hhits.
  unfold search_rows, search_limit.
  destruct (mapResult _ _); [|reflexivity].
  destruct (map VectorTable.hit_id hits); reflexivity.
Qed.

(** A refusal of the vector engine ends the call. *)
Lemma search_refused (env : Env) (opts : SearchOptions) (st : Store) (v : list float)
      (e : Error) :
  truthy_string (s_query opts) = true ->
  embed env (default EmptyString (s_query opts)) = Ok v ->
  VectorTable.vectorSearch (distance env) v (search_limit opts * 2) (vectorTable st)
  = Err e ->
  search env opts st = (st, Err e).
Proof.
  intros Hq Hemb Hhits. unfold search, semantic_hits, bind, ret, read, lift, query.
  rewrite Hq, Hemb. cbn [db vectorTable].
  fold (search_limit opts). now rewrite Hhits.
Qed.


(** Whatever [search] returns is, up to order, the decoding of the rows its
    metadata query selected for some list of candidates. *)
Lemma search_results (env : Env) (opts : SearchOptions) (st : Store)
      (results : list MemorySearchResult) :
  snd (search env opts st) = Ok results ->
  exists (hits : list VectorTable.Hit) (unsorted : list MemorySearchResult),
    mapResult (scored (vectorScores hits)) (search_rows env opts hits (db st)) = Ok unsorted
    /\ Permutation unsorted results.
Proof.
  destruct (truthy_string (s_query opts)) eqn:Hq.
  - destruct (embed env (default EmptyString (s_query opts))) as [v|e] eqn:Hemb.
    + destruct (VectorTable.vectorSearch (distance env) v (search_limit opts * 2)
                  (vectorTable st)) as [hits|e] eqn:Hhits.
      * rewrite (search_with_query env opts st v hits Hq Hemb Hhits). cbn [snd].
        destruct (mapResult _ _) as [unsorted|e] eqn:Hmap; [|discriminate].
        intros H. exists hits, unsorted. split; [exact Hmap|].
        destruct (map VectorTable.hit_id hits); injection H as <-;
          [reflexivity | apply stable_sort_perm].
      * rewrite (search_refused env opts st v e Hq Hemb Hhits). discriminate.
    + unfold search, semantic_hits, bind, lift. rewrite Hq, Hemb. discriminate.
  - rewrite (search_no_query env opts st Hq). cbn [snd].
    intros H. exists [], results. split; [exact H | reflexivity].
Qed.


Lemma scored_inv (scores : gmap string float) (row : Row.t) (r : MemorySearchResult) :
  scored scores row = Ok r ->
  rowToMemory row = Ok (memory r)
  /\ score r = default 1.0%float (scores !! Row.id row).
Proof.
  unfold scored. destruct (rowToMemory row) as [m|e]; [|discriminate].
  intros H. injection H as <-. split; reflexivity.
Qed.

Lemma rowToMemory_fields (row : Row.t) (m : Memory.t) :
  rowToMemory row = Ok m ->
  Memory.id m = Row.id row
  /\ Memory.category m = Row.category row
  /\ Memory.confidence m = Row.confidence row
  /\ Memory.importance m = Row.importance row
  /\ Memory.deletedAt m = Row.deleted_at row
  /\ Memory.decayDays m = Row.decay_days row
  /\ Memory.createdAt m = Row.created_at row.
Proof.
  unfold rowToMemory. destruct (Json.parse _); [|discriminate].
  intros H. injection H as <-. repeat split.
Qed.

(** Every result of [search] decodes a row that passed the [WHERE] clause,
    candidates or not. *)
Lemma search_result_row (env : Env) (opts : SearchOptions) (st : Store)
      (results : list MemorySearchResult) (r : MemorySearchResult) :
  snd (search env opts st) = Ok results ->
  In r results ->
  exists row, In row (db st)
              /\ search_where (now env) opts [] row = true
              /\ rowToMemory row = Ok (memory r).
Proof.
  intros Hs Hr.
  destruct (search_results env opts st results Hs) as [hits [unsorted [Hmap Hperm]]].
  apply (Permutation_in _ (Permutation_sym Hperm)) in Hr.
  destruct (mapResult_In _ _ _ _ Hmap Hr) as [row [Hrow Hsc]].
  apply search_rows_In in Hrow as [Hin Hw].
  exists row. split; [exact Hin|]. split; [|now apply scored_inv in Hsc].
  unfold search_where in *.
  repeat (apply andb_true_iff in Hw as [Hw ?]).
  repeat (apply andb_true_iff; split); try assumption. reflexivity.
Qed.








(** ** Decay *)




(** ** search: the structured filters *)




(** ** search: a query without candidates *)

Lemma search_where_without_query (now : Z) (opts : SearchOptions) (ids : list string)
      (r : Row.t) :
  search_where now (without_query opts) ids r = search_where now opts ids r.
Proof. reflexivity. Qed.



(** ** findDuplicates *)

Lemma zero_class (x : float) : is_zero x = true -> x = 0%float \/ x = (-0)%float.
Proof.
  unfold is_zero. rewrite FloatAxioms.eqb_spec. intros H.
  rewrite <- (SF2Prim_Prim2SF x).
  change (Prim2SF 0) with (S754_zero false) in H.
  destruct (Prim2SF x) as [[] | [] | | [] m e]; try discriminate H.
  - right. reflexivity.
  - left. reflexivity.
Qed.

Lemma zero_sandwich (x y : float) :
  PrimFloat.leb x y = true -> is_zero y = true -> non_negative x = true -> is_zero x = true.
Proof.
  unfold non_negative. intros Hxy Hy Hx.
  destruct (zero_class y Hy) as [-> | ->];
    rewrite FloatAxioms.leb_spec in Hxy, Hx; unfold is_zero; rewrite FloatAxioms.eqb_spec.
  - change (Prim2SF 0) with (S754_zero false) in *.
    destruct (Prim2SF x) as [[] | [] | | [] m e]; try discriminate; reflexivity.
  - change (Prim2SF 0) with (S754_zero false) in *.
    change (Prim2SF (-0)) with (S754_zero true) in *.
    destruct (Prim2SF x) as [[] | [] | | [] m e]; try discriminate; reflexivity.
Qed.

Lemma zero_below (x y : float) :
  is_zero x = true -> non_negative y = true -> PrimFloat.leb x y = true.
Proof.
  unfold non_negative. intros Hx Hy.
  destruct (zero_class x Hx) as [-> | ->]; [exact Hy|].
  rewrite FloatAxioms.leb_spec in *.
  change (Prim2SF 0) with (S754_zero false) in *.
  change (Prim2SF (-0)) with (S754_zero true).
  destruct (Prim2SF y) as [[] | [] | | [] m e]; try discriminate; reflexivity.
Qed.

(** A distance of zero scores exactly 1. *)
Lemma score_zero (d : float) : is_zero d = true -> score_of_distance d = 1%float.
Proof. intros H. destruct (zero_class d H) as [-> | ->]; reflexivity. Qed.

(** Among non-negative distances of which one is zero, the closest hit is at
    distance zero. *)
Lemma closest_is_zero (hits : list VectorTable.Hit) :
  (forall h, In h hits -> non_negative (VectorTable._distance h) = true) ->
  (exists h, In h hits /\ is_zero (VectorTable._distance h) = true) ->
  exists h rest,
    stable_sort VectorTable.hit_le hits = h :: rest
    /\ In h hits
    /\ is_zero (VectorTable._distance h) = true.
Proof.
  induction hits as [|x hits IH]; intros Hnn [z [Hz Hzero]]; [destruct Hz|].
  cbn [stable_sort].
  destruct (stable_sort VectorTable.hit_le hits) as [|h' rest'] eqn:Esort.
  - assert (hits = []) as ->.
    { apply length_zero_iff_nil.
      now rewrite <- (stable_sort_length VectorTable.hit_le hits), Esort. }
    destruct Hz as [<- | []].
    exists x, []. repeat split; [now left | exact Hzero].
  - cbn [insert_sorted]. unfold VectorTable.hit_le at 1.
    assert (Hh' : In h' hits)
      by (apply (stable_sort_In VectorTable.hit_le); rewrite Esort; now left).
    destruct Hz as [<- | Hz].
    + rewrite (zero_below _ _ Hzero (Hnn h' (or_intror Hh'))).
      exists x, (h' :: rest'). repeat split; [now left | exact Hzero].
    + destruct IH as [h [rest [Eh [Hin Hzh]]]].
      { intros h Hh. apply Hnn. now right. }
      { now exists z. }
      injection Eh as <- <-.
      destruct (PrimFloat.leb (VectorTable._distance x) (VectorTable._distance h')) eqn:Ele.
      * exists x, (h' :: rest'). repeat split; [now left|].
        apply (zero_sandwich _ _ Ele Hzh). apply Hnn. now left.
      * exists h', (insert_sorted VectorTable.hit_le x rest').
        repeat split; [now right | exact Hzh].
Qed.

Lemma findDuplicates_steps (env : Env) (content : string) (threshold : option float)
      (st : Store) (vector : list float) :
  embed env content = Ok vector ->
  findDuplicates env content threshold st =
    (st,
     match VectorTable.vectorSearch (distance env) vector 1 (vectorTable st) with
     | Err e => Err e
     | Ok [] => Ok []
     | Ok (r0 :: _) =>
         let score := score_of_distance (VectorTable._distance r0) in
         if PrimFloat.ltb score (default 0.95%float threshold) then Ok []
         else
           match get (db st) (VectorTable.hit_id r0) with
           | Ok None => Ok []
           | Ok (Some m) =>
               if truthy_number (Memory.deletedAt m) then Ok [] else Ok [mkResult m score]
           | Err e => Err e
           end
     end).
Proof.
  intros Hemb. unfold findDuplicates, bind, lift, read, query, ret, getM. rewrite Hemb.
  cbn [vectorTable].
  destruct (VectorTable.vectorSearch _ _ _ _) as [[|r0 rest]|e]; [reflexivity| |reflexivity].
  cbn zeta.
  destruct (PrimFloat.ltb _ _); [reflexivity|].
  destruct (get (db st) (VectorTable.hit_id r0)) as [[m|]|e]; try reflexivity.
  destruct (truthy_number _); reflexivity.
Qed.

Lemma get_row_In (t : Sql.Table) (id : string) (row : Row.t) :
  get_row t id = Some row -> In row t.
Proof.
  unfold get_row, Sql.select_first.
  destruct (is_short_id id); intros H; now apply find_some in H.
Qed.

Lemma find_app_some {A} (p : A -> bool) (l l' : list A) (x : A) :
  List.find p l = Some x -> List.find p (l ++ l') = Some x.
Proof.
  induction l as [|a l IH]; simpl; [discriminate|].
  destruct (p a); [trivial | exact IH].
Qed.

Lemma get_row_app (t t' : Sql.Table) (id : string) (row : Row.t) :
  get_row t id = Some row -> get_row (t ++ t') id = Some row.
Proof.
  unfold get_row, Sql.select_first.
  destruct (is_short_id id); apply find_app_some.
Qed.

Lemma get_row_fresh (t : Sql.Table) (row : Row.t) :
  existsb (Sql.has_id (Row.id row)) t = false ->
  is_short_id (Row.id row) = false ->
  get_row (t ++ [row]) (Row.id row) = Some row.
Proof.
  intros Hfresh Hshort. unfold get_row, Sql.select_first. rewrite Hshort.
  now apply find_app_fresh.
Qed.

(** A [create] that meets no failure keeps every entry backed. *)
Lemma create_backed (env : Env) (input : CreateMemoryInput) (st : Store)
      (vector : list float) :
  embed env (c_content input) = Ok vector ->
  writable env ->
  existsb (Sql.has_id (randomUUID env)) (db st) = false ->
  is_short_id (randomUUID env) = false ->
  backed st ->
  backed (fst (create env input st)).
Proof.
  intros Hemb Hw Hfresh Hshort Hb.
  rewrite (create_succeeds env input st vector Hemb Hw Hfresh Hshort). cbn [fst].
  intros e He. cbn [vectorTable db] in *.
  apply in_app_or in He as [He | [<- | []]].
  - destruct (Hb e He) as [row [Hrow Hlive]].
    exists row. split; [now apply get_row_app | exact Hlive].
  - exists (new_row (randomUUID env) (now env) input).
    split; [|reflexivity].
    cbn [VectorTable.id].
    apply (get_row_fresh (db st) (new_row (randomUUID env) (now env) input));
      assumption.
Qed.

Lemma live_not_deleted (r : Row.t) : live r = true -> Row.deleted_at r = None.
Proof. unfold live, Sql.is_null. now destruct (Row.deleted_at r). Qed.

(** With a backed index, non-negative distances and an entry at distance
    zero, the gate returns one match, scored 1. *)
Lemma findDuplicates_zero_distance
      (env : Env) (content : string) (threshold : option float) (st : Store)
      (vector : list float) :
  embed env content = Ok vector ->
  default 0.95%float threshold = 0.95%float ->
  (forall r, In r (db st) -> row_ok r = true) ->
  backed st ->
  (forall e, In e (vectorTable st) ->
             non_negative (distance env vector (VectorTable.vector e)) = true) ->
  (exists e, In e (vectorTable st)
             /\ is_zero (distance env vector (VectorTable.vector e)) = true) ->
  exists m, snd (findDuplicates env content threshold st) = Ok [mkResult m 1%float].
Proof.
  intros Hemb Hthr Hok Hback Hnn [z [Hz Hzero]].
  rewrite (findDuplicates_steps env content threshold st vector Hemb). cbn [snd].
  unfold VectorTable.vectorSearch. cbn [Nat.eqb].
  set (hits := map (fun e => VectorTable.mkHit (VectorTable.id e)
                                (distance env vector (VectorTable.vector e)))
                   (vectorTable st)).
  destruct (closest_is_zero hits) as [h [rest [Esort [Hin Hzh]]]].
  - intros h Hh. apply in_map_iff in Hh as [e [<- He]]. now apply Hnn.
  - exists (VectorTable.mkHit (VectorTable.id z) (distance env vector (VectorTable.vector z))).
    split; [|exact Hzero].
    apply in_map_iff. now exists z.
  - rewrite Esort. cbn [firstn]. cbn zeta.
    rewrite (score_zero _ Hzh), Hthr.
    change (PrimFloat.ltb 1 0.95) with false. cbn iota.
    apply in_map_iff in Hin as [e [<- He]]. cbn [VectorTable.hit_id].
    destruct (Hback e He) as [row [Hrow Hlive]].
    unfold get. rewrite Hrow.
    destruct (rowToMemory_ok row (Hok row (get_row_In _ _ _ Hrow)))
      as [m [Hm [_ [_ Hdel]]]].
    rewrite Hm. cbn [found].
    rewrite Hdel, (live_not_deleted row Hlive). cbn [truthy_number].
    now exists m.
Qed.

(** C9: with a provider that embeds the content, over decodable rows whose
    deletion stamps are real clock readings (not 0), [findDuplicates] writes
    nothing, the vector engine answers with at most the nearest entry, and
    the call
    - returns the empty sequence when the index has no nearest entry, when
      [1 / (1 + distance)] of the nearest entry is below the threshold (0.95
      unless given), when no metadata row is read for its id, or when that
      row is soft-deleted;
    - otherwise returns exactly that one row, decoded, with
      [1 / (1 + distance)] as its score.
    In particular, after two creates of the same content that meet no
    failure, on a store where every vector entry had a live row, with the
    distances to the stored vectors non-negative and the distance of a
    vector to itself zero, [findDuplicates] of that content with threshold
    0.95 returns exactly one match, and its score, 1, is at least 0.95. *)
Theorem findDuplicates_gate
        (env : Env) (content : string) (threshold : option float) (st : Store)
        (vector : list float) :
  embed env content = Ok vector ->
  (forall r, In r (db st) -> row_ok r = true) ->
  stamped (db st) ->
  let found_duplicates := snd (findDuplicates env content threshold st) in
  fst (findDuplicates env content threshold st) = st
  /\ (exists hits,
        VectorTable.vectorSearch (distance env) vector 1 (vectorTable st) = Ok hits
        /\ (length hits <= 1)%nat
        /\ match hits with
           | [] => found_duplicates = Ok []
           | nearest :: _ =>
               let s := (1 / (1 + VectorTable._distance nearest))%float in
               let row := get_row (db st) (VectorTable.hit_id nearest) in
               (PrimFloat.ltb s (default 0.95%float threshold) = true ->
                found_duplicates = Ok [])
               /\ (row = None -> found_duplicates = Ok [])
               /\ (forall r, row = Some r -> Row.deleted_at r <> None ->
                             found_duplicates = Ok [])
               /\ (forall r,
                      PrimFloat.ltb s (default 0.95%float threshold) = false ->
                      row = Some r ->
                      Row.deleted_at r = None ->
                      exists m, rowToMemory r = Ok m
                                /\ found_duplicates = Ok [mkResult m s])
           end)
  /\ (forall (st0 : Store) (first second : CreateMemoryInput)
             (uuid1 uuid2 : string) (time1 time2 : Z),
         let st1 := fst (create (at_call env uuid1 time1) first st0) in
         st = fst (create (at_call env uuid2 time2) second st1) ->
         c_content first = content ->
         c_content second = content ->
         default 0.95%float threshold = 0.95%float ->
         writable env ->
         existsb (Sql.has_id uuid1) (db st0) = false ->
         String.length uuid1 = 36%nat ->
         existsb (Sql.has_id uuid2) (db st1) = false ->
         String.length uuid2 = 36%nat ->
         backed st0 ->
         (forall e, In e (vectorTable st) ->
                    non_negative (distance env vector (VectorTable.vector e)) = true) ->
         is_zero (distance env vector vector) = true ->
         exists m, found_duplicates = Ok [mkResult m 1%float]
                   /\ PrimFloat.leb 0.95 (score (mkResult m 1%float)) = true).
Proof.
  intros Hemb Hok Hstamp found_duplicates. subst found_duplicates.
  rewrite (findDuplicates_steps env content threshold st vector Hemb). cbn [fst snd].
  split; [reflexivity|]. split.
  - rewrite (vectorSearch_positive (distance env) vector 1 (vectorTable st))
      by discriminate.
    eexists. split; [reflexivity|]. split; [apply firstn_le_length|].
    destruct (firstn 1 _) as [|nearest rest]; [reflexivity|].
    cbn zeta. unfold score_of_distance.
    destruct (PrimFloat.ltb _ _) eqn:Elt.
    + repeat split; try reflexivity. intros r Hf. discriminate Hf.
    + unfold get.
      destruct (get_row (db st) (VectorTable.hit_id nearest)) as [row|] eqn:Erow.
      * destruct (rowToMemory_ok row (Hok row (get_row_In _ _ _ Erow)))
          as [m [Hm [_ [_ Hdel]]]].
        rewrite Hm. cbn [found]. rewrite Hdel.
        split; [discriminate|]. split; [discriminate|]. split.
        -- intros r Hr Hdead. injection Hr as <-.
           pose proof (Hstamp row (get_row_In _ _ _ Erow)) as Hnz.
           destruct (Row.deleted_at row) as [t|]; [|congruence].
           cbn [truthy_number].
           destruct (Z.eqb_spec t 0) as [-> | _]; [congruence | reflexivity].
        -- intros r _ Hr Hlive. injection Hr as <-.
           rewrite Hlive. cbn [truthy_number].
           now exists m.
      * split; [discriminate|]. split; [reflexivity|]. split.
        -- intros r Hr. discriminate Hr.
        -- intros r _ Hr. discriminate Hr.
  - intros st0 first second uuid1 uuid2 time1 time2.
    set (st1 := fst (create (at_call env uuid1 time1) first st0)).
    intros Hst H1 H2 Hthr Hw Hfresh1 Hlen1 Hfresh2 Hlen2 Hback Hnn Hzero.
    assert (Hs1 : is_short_id uuid1 = false) by (unfold is_short_id; now rewrite Hlen1).
    assert (Hs2 : is_short_id uuid2 = false) by (unfold is_short_id; now rewrite Hlen2).
    assert (Hemb1 : embed (at_call env uuid1 time1) (c_content first) = Ok vector)
      by (now rewrite H1).
    assert (Hemb2 : embed (at_call env uuid2 time2) (c_content second) = Ok vector)
      by (now rewrite H2).
    assert (Hback1 : backed st1)
      by (apply (create_backed _ _ _ vector); assumption).
    assert (Hback2 : backed st).
    { rewrite Hst. apply (create_backed _ _ _ vector); assumption. }
    assert (Hentry : exists e, In e (vectorTable st)
                               /\ is_zero (distance env vector (VectorTable.vector e)) = true).
    { exists (VectorTable.mkEntry uuid2 vector (c_content second)).
      split; [|exact Hzero].
      rewrite Hst.
      rewrite (create_succeeds (at_call env uuid2 time2) second st1 vector Hemb2 Hw
                 Hfresh2 Hs2).
      cbn [fst vectorTable randomUUID at_call]. apply in_or_app. right. now left. }
    destruct (findDuplicates_zero_distance env content threshold st vector
                Hemb Hthr Hok Hback2 Hnn Hentry) as [m Hm].
    rewrite (findDuplicates_steps env content threshold st vector Hemb) in Hm.
    cbn [snd] in Hm.
    exists m. split; [exact Hm | reflexivity].
Qed.

Lemma findDuplicates_gate_witness :
  let env := Sample.env EmptyString 9000 in
  (fst (findDuplicates env "User prefers dark mode" (Some 0.95%float) Sample.twice)
   = Sample.twice
   /\ exists m,
        snd (findDuplicates env "User prefers dark mode" (Some 0.95%float) Sample.twice)
        = Ok [mkResult m 1%float]
        /\ PrimFloat.leb 0.95 (score (mkResult m 1%float)) = true)
  /\ snd (findDuplicates env "User dog name is Maxx" None Sample.three) = Ok []
  /\ exists m,
       snd (findDuplicates env "User dog name is Maxx" (Some 0.5%float) Sample.three)
       = Ok [mkResult m 0.5%float]
       /\ Memory.id m = Sample.id1.
Proof.
  split; [|split].
  - destruct (findDuplicates_gate (Sample.env EmptyString 9000) "User prefers dark mode"
                (Some 0.95%float) Sample.twice [22%float])
      as [Hstate [_ Htwice]].
    + reflexivity.
    + intros r [<- | [<- | []]]; reflexivity.
    + intros r [<- | [<- | []]]; discriminate.
    + split; [exact Hstate|].
      apply (Htwice Sample.empty Sample.dark_mode Sample.dark_mode
               Sample.id1 Sample.id2 1000 2000).
      * reflexivity.
      * reflexivity.
      * reflexivity.
      * reflexivity.
      * split; reflexivity.
      * reflexivity.
      * reflexivity.
      * reflexivity.
      * reflexivity.
      * intros e [].
      * intros e [<- | [<- | []]]; reflexivity.
      * reflexivity.
  - destruct (findDuplicates_gate (Sample.env EmptyString 9000) "User dog name is Maxx"
                None Sample.three [21%float])
      as [_ [[hits [Hhits [_ Hgate]]] _]].
    + reflexivity.
    + intros r [<- | [<- | [<- | []]]]; reflexivity.
    + intros r [<- | [<- | [<- | []]]]; discriminate.
    + vm_compute in Hhits. injection Hhits as <-.
      destruct Hgate as [Hbelow _]. apply Hbelow. reflexivity.
  - destruct (findDuplicates_gate (Sample.env EmptyString 9000) "User dog name is Maxx"
                (Some 0.5%float) Sample.three [21%float])
      as [_ [[hits [Hhits [_ Hgate]]] _]].
    + reflexivity.
    + intros r [<- | [<- | [<- | []]]]; reflexivity.
    + intros r [<- | [<- | [<- | []]]]; discriminate.
    + vm_compute in Hhits. injection Hhits as <-.
      destruct Hgate as [_ [_ [_ Hmatch]]].
      destruct (Hmatch (new_row Sample.id1 1000 Sample.dark_mode))
        as [m [Hm Hres]]; try reflexivity.
      exists m. split; [exact Hres|].
      vm_compute in Hm. injection Hm as <-. reflexivity.
Defined.

(** ** What every call preserves

    Whatever the inputs and whichever writes are refused, the three mutating
    calls keep the ids of the table unique and its rows decodable: the
    well-formedness the statements above assume holds of every store reached
    from the empty one. *)

Lemma unique_ids_app_fresh (t : Sql.Table) (r : Row.t) :
  unique_ids t = true ->
  existsb (Sql.has_id (Row.id r)) t = false ->
  unique_ids (t ++ [r]) = true.
Proof.
  induction t as [|a t IH]; intros Hu Hfresh; [reflexivity|].
  simpl in *. apply andb_true_iff in Hu as [Ha Hu].
  apply orb_false_iff in Hfresh as [Hra Hfresh].
  apply andb_true_iff. split; [|now apply IH].
  apply negb_true_iff. rewrite existsb_app. apply orb_false_iff.
  split; [now apply negb_true_iff in Ha|].
  simpl. rewrite orb_false_r. now rewrite has_id_sym.
Qed.

Lemma unique_ids_map (g : Row.t -> Row.t) (t : Sql.Table) :
  (forall r, Row.id (g r) = Row.id r) ->
  unique_ids (map g t) = unique_ids t.
Proof.
  intros Hid. induction t as [|a t IH]; [reflexivity|].
  simpl. rewrite IH, Hid. f_equal. f_equal.
  clear IH. induction t as [|b t IH]; [reflexivity|].
  simpl. rewrite IH. unfold Sql.has_id. now rewrite Hid.
Qed.

Lemma wf_table_map (g : Row.t -> Row.t) (t : Sql.Table) :
  (forall r, Row.id (g r) = Row.id r) ->
  (forall r, row_ok r = true -> row_ok (g r) = true) ->
  wf_table t -> wf_table (map g t).
Proof.
  intros Hid Hok [Hu Hrows]. split.
  - now rewrite unique_ids_map.
  - intros r Hr. apply in_map_iff in Hr as [r0 [<- Hr0]]. apply Hok, Hrows, Hr0.
Qed.

Lemma row_ok_new_row (id : string) (now : Z) (input : CreateMemoryInput) :
  row_ok (new_row id now input) = true.
Proof.
  unfold row_ok, new_row. cbn [Row.tags].
  rewrite JsonFacts.parse_stringify. apply String.eqb_refl.
Qed.

Lemma create_preserves_wf (env : Env) (input : CreateMemoryInput) (st : Store) :
  wf_table (db st) -> wf_table (db (fst (create env input st))).
Proof.
  intros [Hu Hrows].
  unfold create, bind, lift, write_vectors, write_db, getM, VectorTable.add, Sql.insert.
  destruct (embed env (c_content input)) as [v|e]; [|now split].
  destruct (vectors_writable env); cbn [negb fst db]; [|now split].
  destruct (metadata_writable env); cbn [negb fst db]; [|now split].
  cbn [Row.id new_row].
  destruct (existsb (Sql.has_id (randomUUID env)) (db st)) eqn:Hfresh; cbn [fst db];
    [now split|].
  split.
  - now apply unique_ids_app_fresh.
  - intros r Hr. apply in_app_or in Hr as [Hr | [<- | []]];
      [now apply Hrows | apply row_ok_new_row].
Qed.

Lemma update_preserves_wf (env : Env) (id : string) (updates : UpdateMemoryInput)
      (st : Store) :
  wf_table (db st) -> wf_table (db (fst (update env id updates st))).
Proof.
  intros Hwf.
  assert (Hmeta : forall st0 : Store,
             db st0 = db st ->
             wf_table
               (db (fst (bind (write_db (Sql.update (metadata_writable env) (Sql.has_id id)
                                           (apply_updates (now env) updates)))
                              (fun _ => getM id) st0)))).
  { intros st0 Hst0.
    unfold bind, write_db, Sql.update, getM. rewrite Hst0.
    destruct (metadata_writable env); cbn [negb fst db]; [|now rewrite Hst0].
    apply wf_table_map; [| |exact Hwf].
    - intros r. destruct (Sql.has_id id r); [apply apply_updates_id | reflexivity].
    - intros r Hr. destruct (Sql.has_id id r); [now apply apply_updates_ok | exact Hr]. }
  unfold update.
  destruct (u_content updates) as [c|].
  - unfold bind at 1. unfold bind at 2. unfold lift.
    destruct (embed env c) as [v|e]; [|exact Hwf].
    unfold write_vectors. cbv [bind].
    destruct (VectorTable.update _ _ _ _ _); [|exact Hwf].
    now apply Hmeta.
  - unfold bind at 1. unfold ret. now apply Hmeta.
Qed.

Lemma delete_preserves_wf (env : Env) (id : string) (reason : option string) (st : Store) :
  wf_table (db st) -> wf_table (db (fst (delete env id reason st))).
Proof.
  intros Hwf.
  unfold delete, bind, read, write_db, write_vectors, Sql.update.
  destruct (metadata_writable env); cbn [negb fst db]; [|exact Hwf].
  assert (Hmap : wf_table
                   (map (fun r => if Sql.has_id (resolve_full_id (db st) id) r
                                  then set_deleted (now env) reason r else r) (db st))).
  { apply wf_table_map; [| |exact Hwf].
    - intros r. destruct (Sql.has_id _ r); reflexivity.
    - intros r Hr. destruct (Sql.has_id _ r); [exact Hr | exact Hr]. }
  destruct (VectorTable.delete _ _ _); cbn [fst db]; exact Hmap.
Qed.

Lemma create_preserves_stamped (env : Env) (input : CreateMemoryInput) (st : Store) :
  stamped (db st) -> stamped (db (fst (create env input st))).
Proof.
  intros Hs.
  unfold create, bind, lift, write_vectors, write_db, getM, VectorTable.add, Sql.insert.
  destruct (embed env (c_content input)) as [v|e]; [|exact Hs].
  destruct (vectors_writable env); cbn [negb fst db]; [|exact Hs].
  destruct (metadata_writable env); cbn [negb fst db]; [|exact Hs].
  destruct (existsb _ (db st)); cbn [fst db]; [exact Hs|].
  intros r Hr. apply in_app_or in Hr as [Hr | [<- | []]]; [now apply Hs | discriminate].
Qed.

Lemma delete_preserves_stamped (env : Env) (id : string) (reason : option string)
      (st : Store) :
  now env <> 0 ->
  stamped (db st) -> stamped (db (fst (delete env id reason st))).
Proof.
  intros Hnow Hs.
  unfold delete, bind, read, write_db, write_vectors, Sql.update.
  destruct (metadata_writable env); cbn [negb fst db]; [|exact Hs].
  assert (Hmap : stamped
                   (map (fun r => if Sql.has_id (resolve_full_id (db st) id) r
                                  then set_deleted (now env) reason r else r) (db st))).
  { intros r Hr. apply in_map_iff in Hr as [r0 [<- Hr0]].
    destruct (Sql.has_id _ r0); [cbn; congruence | now apply Hs]. }
  destruct (VectorTable.delete _ _ _); cbn [fst db]; exact Hmap.
Qed.

(** ** The specification's scenario for list

    Three memories with importances 0.3, 0.9 and 0.6, listed by importance:
    the default order is descending. *)

Example list_by_importance :
  let store (uuid : string) (time : Z) (text : string) (c : MemoryCategory) (i : float) st :=
    fst (create (Sample.env uuid time)
           (mkCreate text c None (Some i) None None None None) st) in
  let st := store Sample.id3 3 "Third memory" cat_fact 0.6%float
              (store Sample.id2 2 "Second memory" cat_preference 0.9%float
                 (store Sample.id1 1 "First memory" cat_fact 0.3%float Sample.empty)) in
  match list_memories (db st) (mkList None (Some "importance"%string) None None None) with
  | Ok page => total page = 3%nat
               /\ map Memory.importance (items page)
                  = [Some 0.9%float; Some 0.6%float; Some 0.3%float]
  | Err _ => False
  end.
Proof. vm_compute. split; reflexivity. Qed.

Example snake_case_of_sort_keys :
  snake_case "createdAt" = "created_at"%string
  /\ snake_case "lastAccessedAt" = "last_accessed_at"%string
  /\ snake_case "importance" = "importance"%string.
Proof. repeat split. Qed.

Example like_is_case_blind_and_has_wildcards :
  Like.like "3F2A9C1E%" Sample.id1 = true
  /\ Like.like "3f2a9c1e%" Sample.id3 = false
  /\ Like.like "3f2a____-%" Sample.id2 = true
  /\ Like.like (Like.tag_pattern "work") (Json.stringify ["Work"%string]) = true
  /\ Like.like (Like.tag_pattern "or") (Json.stringify ["Work"%string]) = false.
Proof. repeat split. Qed.

(** * Further properties of the store *)

(** ** update: the fields of the result *)

Lemma rowToMemory_apply_updates (now : Z) (updates : UpdateMemoryInput) (row : Row.t)
      (old : list string) :
  Json.parse (Row.tags row) = Some old ->
  String.eqb (Row.tags row) EmptyString = false ->
  rowToMemory (apply_updates now updates row)
  = Ok {| Memory.id := Row.id row;
          Memory.content := default (Row.content row) (u_content updates);
          Memory.category := Row.category row;
          Memory.confidence := match u_confidence updates with
                               | Some x => Sql.real x
                               | None => Row.confidence row
                               end;
          Memory.importance := match u_importance updates with
                               | Some x => Sql.real x
                               | None => Row.importance row
                               end;
          Memory.createdAt := Row.created_at row;
          Memory.updatedAt := now;
          Memory.lastAccessedAt := Row.last_accessed_at row;
          Memory.decayDays := default (Row.decay_days row) (u_decayDays updates);
          Memory.sourceChannel := Row.source_channel row;
          Memory.sourceMessageId := Row.source_message_id row;
          Memory.tags := default old (u_tags updates);
          Memory.supersedes := Row.supersedes row;
          Memory.deletedAt := Row.deleted_at row;
          Memory.deleteReason := Row.delete_reason row |}.
Proof.
  intros Hparse Hne.
  unfold rowToMemory. rewrite apply_updates_tags.
  unfold apply_updates, set_opt.
  destruct (u_tags updates) as [l|].
  - rewrite stringify_not_empty, JsonFacts.parse_stringify.
    destruct (u_decayDays updates), (u_importance updates), (u_confidence updates),
      (u_content updates); reflexivity.
  - rewrite Hne, Hparse.
    destruct (u_decayDays updates), (u_importance updates), (u_confidence updates),
      (u_content updates); reflexivity.
Qed.

Lemma row_ok_parse (row : Row.t) :
  row_ok row = true ->
  exists old, Json.parse (Row.tags row) = Some old
              /\ String.eqb (Row.tags row) EmptyString = false.
Proof.
  intros H. destruct (row_ok_stringify row H) as [l [Ht Hp]].
  exists l. split; [exact Hp|]. rewrite Ht. apply stringify_not_empty.
Qed.

(** X1: [update] of a stored row by its full id (a plain one when new
    content is given) returns a Memory in which every field given in the
    input has the given value (a [decayDays] given as [null] clears it; a
    confidence or an importance is the number given as it is read back from
    the table: itself, but for a NaN, read back as [null], and [-0], read
    back as [0]), every field left out keeps its stored value, [updatedAt]
    is the time of the call, and id, category, creation time, last access,
    provenance, supersession and deletion stamp are the stored ones. *)
Theorem update_result_fields
        (env : Env) (id : string) (updates : UpdateMemoryInput) (st : Store)
        (row : Row.t) (old : list string) :
  writable env ->
  embeds env (u_content updates) ->
  full_id id ->
  plain_for id updates ->
  get_row (db st) id = Some row ->
  row_ok row = true ->
  Json.parse (Row.tags row) = Some old ->
  exists m : Memory.t,
    snd (update env id updates st) = Ok (Some m)
    /\ Memory.id m = id
    /\ Memory.content m = default (Row.content row) (u_content updates)
    /\ Memory.confidence m = match u_confidence updates with
                             | Some x => read_back x
                             | None => Row.confidence row
                             end
    /\ Memory.importance m = match u_importance updates with
                             | Some x => read_back x
                             | None => Row.importance row
                             end
    /\ Memory.decayDays m = default (Row.decay_days row) (u_decayDays updates)
    /\ Memory.tags m = default old (u_tags updates)
    /\ Memory.updatedAt m = now env
    /\ Memory.category m = Row.category row
    /\ Memory.createdAt m = Row.created_at row
    /\ Memory.lastAccessedAt m = Row.last_accessed_at row
    /\ Memory.sourceChannel m = Row.source_channel row
    /\ Memory.sourceMessageId m = Row.source_message_id row
    /\ Memory.supersedes m = Row.supersedes row
    /\ Memory.deletedAt m = Row.deleted_at row
    /\ Memory.deleteReason m = Row.delete_reason row.
Proof.
  intros Hw Hemb Hfull Hplain Hrow Hok Hold.
  destruct (update_steps env id updates st Hw Hemb Hplain) as [_ Hres].
  rewrite Hres. unfold get, get_row, Sql.select_first in *.
  unfold full_id in Hfull. rewrite Hfull in *.
  rewrite (find_has_id_map id _ (db st) (apply_updates_id (now env) updates)), Hrow.
  cbn [option_map].
  destruct (row_ok_parse row Hok) as [old' [Hp Hne]].
  rewrite (rowToMemory_apply_updates (now env) updates row old Hold Hne).
  eexists. split; [reflexivity|]. cbn.
  apply find_some in Hrow as [_ Hid]. apply String.eqb_eq in Hid.
  split; [exact Hid|]. split; [reflexivity|].
  split; [destruct (u_confidence updates); [apply real_read_back | reflexivity]|].
  split; [destruct (u_importance updates); [apply real_read_back | reflexivity]|].
  repeat split.
Qed.

Lemma update_result_fields_witness :
  let env := Sample.env EmptyString 7000 in
  let changes := mkUpdate None (Some (-0)%float) None (Some None)
                   (Some ["work"%string; "weekly"%string]) in
  exists m : Memory.t,
    snd (update env Sample.id2 changes Sample.three) = Ok (Some m)
    /\ Memory.id m = Sample.id2
    /\ Memory.content m = "Meeting tomorrow at 3pm"%string
    /\ Memory.confidence m = Some 0%float
    /\ Memory.importance m = Some 0.3%float
    /\ Memory.decayDays m = None
    /\ Memory.tags m = ["work"%string; "weekly"%string]
    /\ Memory.updatedAt m = 7000
    /\ Memory.category m = cat_event
    /\ Memory.createdAt m = 2000
    /\ Memory.lastAccessedAt m = 2000
    /\ Memory.sourceChannel m = Some "chat"%string
    /\ Memory.sourceMessageId m = Some "msg-17"%string
    /\ Memory.supersedes m = None
    /\ Memory.deletedAt m = None
    /\ Memory.deleteReason m = None.
Proof.
  destruct (update_result_fields (Sample.env EmptyString 7000) Sample.id2
              (mkUpdate None (Some (-0)%float) None (Some None)
                 (Some ["work"%string; "weekly"%string]))
              Sample.three (new_row Sample.id2 2000 Sample.meeting)
              ["Work"%string; "meeting"%string]) as [m [Hm Hfields]].
  - split; reflexivity.
  - intros c Hc. discriminate Hc.
  - reflexivity.
  - intros _. reflexivity.
  - reflexivity.
  - reflexivity.
  - reflexivity.
  - exists m. split; [exact Hm|].
    vm_compute in Hm. injection Hm as <-. repeat split.
Defined.

(** ** update: the vector entry *)

Lemma update_vectors (env : Env) (id : string) (updates : UpdateMemoryInput) (st : Store) :
  writable env ->
  plain_for id updates ->
  vectorTable (fst (update env id updates st))
  = match u_content updates with
    | Some c =>
        match embed env c with
        | Ok v =>
            List.filter (fun e => negb (VectorTable.has_id id e)) (vectorTable st)
            ++ map (fun e => VectorTable.mkEntry (VectorTable.id e) v c)
                 (List.filter (VectorTable.has_id id) (vectorTable st))
        | Err _ => vectorTable st
        end
    | None => vectorTable st
    end.
Proof.
  intros [Hm Hv] Hplain.
  unfold update, bind, lift, ret, write_db, write_vectors, getM, Sql.update,
    VectorTable.update, VectorTable.where_id.
  rewrite Hm, Hv. unfold plain_for in Hplain.
  destruct (u_content updates) as [c|]; [|reflexivity].
  rewrite Hplain by discriminate.
  destruct (embed env c); reflexivity.
Qed.

(** X2: while both engines accept writes, an [update] of a plain id that
    carries new content takes the entries of that id out of their places in
    the index and writes them anew at its end, with the new embedding and
    the new text: the entries of other ids come first, as they were and in
    the order they had, the rewritten ones follow. An [update] without
    content does not touch the index. *)
Theorem update_moves_vector_to_the_end
        (env : Env) (id : string) (updates : UpdateMemoryInput) (st : Store) :
  writable env ->
  plain_for id updates ->
  let vectors := vectorTable (fst (update env id updates st)) in
  (forall c v,
      u_content updates = Some c ->
      embed env c = Ok v ->
      exists others rewritten,
        vectors = others ++ rewritten
        /\ others = List.filter (fun e => negb (String.eqb (VectorTable.id e) id))
                      (vectorTable st)
        /\ rewritten = map (fun _ => VectorTable.mkEntry id v c)
                         (List.filter (fun e => String.eqb (VectorTable.id e) id)
                            (vectorTable st)))
  /\ (u_content updates = None -> vectors = vectorTable st).
Proof.
  intros Hw Hplain vectors. subst vectors.
  rewrite (update_vectors env id updates st Hw Hplain).
  split.
  - intros c v Hc Hv. rewrite Hc, Hv.
    eexists _, _. split; [reflexivity|]. split; [reflexivity|].
    apply map_ext_in. intros e0 He. apply filter_In in He as [_ He].
    unfold VectorTable.has_id in He. apply String.eqb_eq in He. now rewrite He.
  - intros Hc. now rewrite Hc.
Qed.

Lemma update_moves_vector_to_the_end_witness :
  let env := Sample.env EmptyString 7000 in
  let changes := mkUpdate (Some "User prefers light mode"%string) None None None None in
  let vectors := vectorTable (fst (update env Sample.id1 changes Sample.three)) in
  map VectorTable.id (vectorTable Sample.three) = [Sample.id1; Sample.id2; Sample.id3]
  /\ map VectorTable.id vectors = [Sample.id2; Sample.id3; Sample.id1]
  /\ map VectorTable.text vectors
     = ["Meeting tomorrow at 3pm"%string; "User dog name is Rex"%string;
        "User prefers light mode"%string]
  /\ exists others rewritten,
       vectors = others ++ rewritten
       /\ map VectorTable.id others = [Sample.id2; Sample.id3]
       /\ rewritten
          = [VectorTable.mkEntry Sample.id1 [23%float] "User prefers light mode"].
Proof.
  split; [reflexivity|]. split; [reflexivity|]. split; [reflexivity|].
  destruct (update_moves_vector_to_the_end (Sample.env EmptyString 7000) Sample.id1
              (mkUpdate (Some "User prefers light mode"%string) None None None None)
              Sample.three) as [H _].
  - split; reflexivity.
  - intros _. reflexivity.
  - destruct (H "User prefers light mode"%string [23%float] eq_refl eq_refl)
      as [others [rewritten [Hv [Ho Hr]]]].
    exists others, rewritten. split; [exact Hv|].
    rewrite Ho, Hr. split; reflexivity.
Defined.

(** ** update: called with a short id *)

Lemma map_rows_unchanged (p : Row.t -> bool) (f : Row.t -> Row.t) (t : Sql.Table) :
  (forall r, In r t -> p r = false) ->
  map (fun r => if p r then f r else r) t = t.
Proof.
  intros H. rewrite <- (map_id t) at 2.
  apply map_ext_in. intros r Hr. now rewrite (H r Hr).
Qed.





(** ** Failures: what is written before a call throws *)

(** X4: a failure of the embedding provider is passed on unchanged and
    happens before any write: [create], an [update] that carries content, a
    [search] with a non-empty query and [findDuplicates] then fail with the
    provider's error and leave both tables as they were. *)
Theorem provider_failure_writes_nothing
        (env : Env) (text : string) (e : Error) (st : Store) :
  embed env text = Err e ->
  (forall input, c_content input = text -> create env input st = (st, Err e))
  /\ (forall id updates, u_content updates = Some text ->
                         update env id updates st = (st, Err e))
  /\ (forall opts, s_query opts = Some text -> text <> EmptyString ->
                   search env opts st = (st, Err e))
  /\ (forall threshold, findDuplicates env text threshold st = (st, Err e)).
Proof.
  intros Hemb. repeat split.
  - intros input Hc. unfold create, bind, lift. now rewrite Hc, Hemb.
  - intros id updates Hc. unfold update, bind, lift. now rewrite Hc, Hemb.
  - intros opts Hq Hne. unfold search, semantic_hits, bind, lift.
    rewrite Hq. cbn [truthy_string default].
    apply String.eqb_neq in Hne. rewrite Hne. cbn [negb]. now rewrite Hemb.
  - intros threshold. unfold findDuplicates, bind, lift. now rewrite Hemb.
Qed.

Lemma provider_failure_writes_nothing_witness :
  let env := Sample.env_provider_down Sample.id3 3000 in
  create env Sample.rex Sample.two = (Sample.two, Err ProviderFailure)
  /\ findDuplicates env "User dog name is Rex" None Sample.two
     = (Sample.two, Err ProviderFailure).
Proof.
  destruct (provider_failure_writes_nothing (Sample.env_provider_down Sample.id3 3000)
              "User dog name is Rex" ProviderFailure Sample.two eq_refl)
    as [Hcreate [_ [_ Hdup]]].
  split; [now apply Hcreate | apply Hdup].
Defined.

(** X5: [update] writes the vector entry first. When the vector engine
    accepts writes and the metadata write is refused, the call fails, the
    metadata table is as it was, and, the id being plain, the index already
    holds the new text for that id: the two stores disagree about the
    content. *)
Theorem update_metadata_failure_keeps_new_vector
        (env : Env) (id : string) (updates : UpdateMemoryInput) (st : Store)
        (c : string) (v : list float) :
  u_content updates = Some c ->
  embed env c = Ok v ->
  vectors_writable env = true ->
  metadata_writable env = false ->
  snd (update env id updates st) = Err StorageFailure
  /\ db (fst (update env id updates st)) = db st
  /\ forall e, In e (vectorTable st) -> VectorTable.id e = id ->
               VectorTable.plain id = true ->
               In (VectorTable.mkEntry id v c) (vectorTable (fst (update env id updates st))).
Proof.
  intros Hc Hemb Hv Hm.
  unfold update, bind, lift, write_db, write_vectors, getM, Sql.update, VectorTable.update.
  rewrite Hc, Hemb, Hv, Hm. cbn [negb fst snd db vectorTable].
  unfold VectorTable.where_id.
  destruct (VectorTable.plain id) eqn:Hplain.
  - cbn [negb fst snd db vectorTable]. repeat split.
    intros e He Hid _. apply in_or_app. right.
    apply in_map_iff. exists e. split; [now rewrite Hid|].
    apply filter_In. split; [exact He|].
    unfold VectorTable.has_id. rewrite Hid. apply String.eqb_refl.
  - destruct (predicate env (VectorTable.id_equals id));
      cbn [negb fst snd db vectorTable]; repeat split; intros; discriminate.
Qed.

Lemma update_metadata_failure_keeps_new_vector_witness :
  let env := Sample.env_metadata_down EmptyString 7000 in
  let changes := mkUpdate (Some "User prefers light mode"%string) None None None None in
  snd (update env Sample.id1 changes Sample.one) = Err StorageFailure
  /\ map Row.content (db (fst (update env Sample.id1 changes Sample.one)))
     = ["User prefers dark mode"%string]
  /\ map VectorTable.text (vectorTable (fst (update env Sample.id1 changes Sample.one)))
     = ["User prefers light mode"%string].
Proof.
  destruct (update_metadata_failure_keeps_new_vector
              (Sample.env_metadata_down EmptyString 7000) Sample.id1
              (mkUpdate (Some "User prefers light mode"%string) None None None None)
              Sample.one "User prefers light mode" [23%float])
    as [Herr [Hdb _]]; try reflexivity.
  split; [exact Herr|]. split; [now rewrite Hdb | reflexivity].
Defined.

(** X6: [delete] stamps the metadata row first. When that write succeeds and
    the vector engine refuses the removal, the call fails, the rows of the
    resolved id are already soft-deleted, and the index still holds every
    entry it held. *)
Theorem delete_vector_failure_keeps_entry
        (env : Env) (id : string) (reason : option string) (st : Store) :
  metadata_writable env = true ->
  vectors_writable env = false ->
  snd (delete env id reason st) = Err StorageFailure
  /\ vectorTable (fst (delete env id reason st)) = vectorTable st
  /\ forall row, In row (db (fst (delete env id reason st))) ->
                 Row.id row = resolve_full_id (db st) id ->
                 Row.deleted_at row = Some (now env) /\ Row.delete_reason row = reason.
Proof.
  intros Hm Hv.
  unfold delete, bind, read, write_db, write_vectors, Sql.update, VectorTable.delete.
  rewrite Hm, Hv. cbn [negb fst snd db vectorTable].
  split; [reflexivity|]. split; [reflexivity|].
  intros row Hin Hid. apply in_map_iff in Hin as [r0 [<- _]].
  destruct (Sql.has_id (resolve_full_id (db st) id) r0) eqn:E; [split; reflexivity|].
  unfold Sql.has_id in E. rewrite Hid, String.eqb_refl in E. discriminate E.
Qed.

Lemma delete_vector_failure_keeps_entry_witness :
  let env := Sample.env_vectors_down EmptyString 7000 in
  snd (delete env Sample.id1 None Sample.one) = Err StorageFailure
  /\ map VectorTable.id (vectorTable (fst (delete env Sample.id1 None Sample.one)))
     = [Sample.id1]
  /\ map Row.deleted_at (db (fst (delete env Sample.id1 None Sample.one))) = [Some 7000].
Proof.
  destruct (delete_vector_failure_keeps_entry (Sample.env_vectors_down EmptyString 7000)
              Sample.id1 None Sample.one) as [Herr [Hvec _]]; try reflexivity.
  split; [exact Herr|]. split; [now rewrite Hvec | reflexivity].
Defined.

(** ** delete: what it changes *)



(** X8: [get] does not hide soft-deleted rows. After a [delete] by full id
    of a stored row, while both engines accept writes, [get] of that id
    returns the Memory it returned before with [deletedAt] set to the time of
    the call and [deleteReason] to the reason given, nothing else changed. *)
Theorem get_after_delete
        (env : Env) (reason : option string) (st : Store) (row : Row.t) (m : Memory.t) :
  writable env ->
  full_id (Row.id row) ->
  get_row (db st) (Row.id row) = Some row ->
  rowToMemory row = Ok m ->
  get (db st) (Row.id row) = Ok (Some m)
  /\ get (db (fst (delete env (Row.id row) reason st))) (Row.id row)
     = Ok (Some (with_stamp m (Some (now env)) reason)).
Proof.
  intros Hw Hfull Hrow Hm.
  rewrite (delete_stamps env (Row.id row) reason st (proj1 Hw)).
  unfold full_id in Hfull.
  unfold resolve_full_id. rewrite Hfull.
  unfold get, get_row, Sql.select_first in *. rewrite Hfull in *.
  rewrite Hrow, Hm. split; [reflexivity|].
  unfold mark_deleted.
  rewrite (find_has_id_map (Row.id row) (set_deleted (now env) reason) (db st))
    by reflexivity.
  rewrite Hrow. cbn [option_map].
  unfold rowToMemory in *. cbn [set_deleted Row.tags].
  destruct (Json.parse _); [|discriminate].
  injection Hm as <-. reflexivity.
Qed.

Lemma get_after_delete_witness :
  let env := Sample.env EmptyString 7000 in
  exists m,
    get (db Sample.three) Sample.id2 = Ok (Some m)
    /\ get (db (fst (delete env Sample.id2 (Some "done"%string) Sample.three))) Sample.id2
       = Ok (Some (with_stamp m (Some 7000) (Some "done"%string))).
Proof.
  eexists.
  apply (get_after_delete (Sample.env EmptyString 7000) (Some "done"%string) Sample.three
           (new_row Sample.id2 2000 Sample.meeting)); reflexivity || (split; reflexivity).
Defined.

(** ** delete: what is never returned afterwards *)

Lemma findDuplicates_result_row
      (env : Env) (content : string) (threshold : option float) (st : Store)
      (results : list MemorySearchResult) (r : MemorySearchResult) :
  snd (findDuplicates env content threshold st) = Ok results ->
  In r results ->
  exists row, In row (db st)
              /\ rowToMemory row = Ok (memory r)
              /\ truthy_number (Row.deleted_at row) = false.
Proof.
  destruct (embed env content) as [v|e] eqn:Hemb.
  - rewrite (findDuplicates_steps env content threshold st v Hemb). cbn [snd].
    destruct (VectorTable.vectorSearch _ _ _ _) as [[|r0 rest]|e]; [| |discriminate].
    { intros H. injection H as <-. intros []. }
    cbn zeta. destruct (PrimFloat.ltb _ _).
    { intros H. injection H as <-. intros []. }
    unfold get.
    destruct (get_row (db st) (VectorTable.hit_id r0)) as [row|] eqn:Hrow.
    + destruct (rowToMemory row) as [m|e] eqn:Hm; cbn [found]; [|discriminate].
      destruct (truthy_number (Memory.deletedAt m)) eqn:Ht.
      { intros H. injection H as <-. intros []. }
      intros H. injection H as <-. intros [<- | []].
      exists row. split; [now apply get_row_In in Hrow|]. split; [exact Hm|].
      apply rowToMemory_fields in Hm as [_ [_ [_ [_ [Hdel _]]]]]. now rewrite <- Hdel.
    + intros H. injection H as <-. intros [].
  - unfold findDuplicates, bind, lift. rewrite Hemb. discriminate.
Qed.

Lemma deleted_rows_stamped
      (env : Env) (id : string) (reason : option string) (st : Store) (r : Row.t) :
  writable env ->
  In r (db (fst (delete env id reason st))) ->
  Row.id r = resolve_full_id (db st) id ->
  Row.deleted_at r = Some (now env) /\ Row.delete_reason r = reason.
Proof.
  intros Hw. rewrite (delete_stamps env id reason st (proj1 Hw)).
  intros Hr Hid. apply in_map_iff in Hr as [r0 [<- _]].
  rewrite mark_deleted_id in Hid.
  unfold mark_deleted, Sql.has_id. rewrite Hid, String.eqb_refl. split; reflexivity.
Qed.

(** X9: a forgotten memory never surfaces again. After a [delete], while
    both engines accept writes and the clock reads anything but 0, no later
    [search] and no later [findDuplicates], whatever their arguments, returns
    a memory with the id the [delete] resolved to. *)
Theorem deleted_memory_never_returned
        (env : Env) (id : string) (reason : option string) (st : Store) :
  writable env ->
  now env <> 0 ->
  let target := resolve_full_id (db st) id in
  let st' := fst (delete env id reason st) in
  (forall env' opts results r,
      snd (search env' opts st') = Ok results ->
      In r results -> Memory.id (memory r) <> target)
  /\ (forall env' content threshold results r,
         snd (findDuplicates env' content threshold st') = Ok results ->
         In r results -> Memory.id (memory r) <> target).
Proof.
  intros Hw Hnow target st'.
  assert (Hdead : forall row m,
             In row (db st') -> rowToMemory row = Ok m -> Memory.id m = target ->
             Row.deleted_at row = Some (now env)).
  { intros row m Hin Hm Hid.
    apply rowToMemory_fields in Hm as [Hidm _]. rewrite Hidm in Hid.
    destruct (deleted_rows_stamped env id reason st row Hw Hin Hid) as [Hd _].
    exact Hd. }
  split.
  - intros env' opts results r Hs Hr Hid.
    destruct (search_result_row env' opts st' results r Hs Hr) as [row [Hin [Hwhere Hm]]].
    unfold search_where, live, Sql.is_null in Hwhere.
    rewrite (Hdead row _ Hin Hm Hid) in Hwhere.
    discriminate Hwhere.
  - intros env' content threshold results r Hs Hr Hid.
    destruct (findDuplicates_result_row env' content threshold st' results r Hs Hr)
      as [row [Hin [Hm Htruthy]]].
    rewrite (Hdead row _ Hin Hm Hid) in Htruthy.
    cbn [truthy_number] in Htruthy.
    apply negb_false_iff, Z.eqb_eq in Htruthy. contradiction.
Qed.

Lemma deleted_memory_never_returned_witness :
  let st' := fst (delete (Sample.env EmptyString 7000) Sample.id1 None Sample.twice) in
  (forall env' opts results r,
      snd (search env' opts st') = Ok results ->
      In r results -> Memory.id (memory r) <> Sample.id1)
  /\ (forall env' content threshold results r,
         snd (findDuplicates env' content threshold st') = Ok results ->
         In r results -> Memory.id (memory r) <> Sample.id1).
Proof.
  apply (deleted_memory_never_returned (Sample.env EmptyString 7000) Sample.id1 None
           Sample.twice).
  - split; reflexivity.
  - discriminate.
Defined.

(** ** Short ids: what a short id matches *)

Lemma like_covers (p s : string) :
  covers p s = true -> Like.like (Like.prefix_pattern p) s = true.
Proof.
  unfold Like.prefix_pattern. revert s.
  induction p as [|c p IH]; intros s H.
  - apply like_percent_all.
  - destruct s as [|d s]; [discriminate H|].
    cbn [covers] in H. apply andb_true_iff in H as [Hc Hrest].
    rewrite JsonFacts.append_cons, like_cons.
    destruct (Ascii.eqb c "%") eqn:Epct.
    + destruct (Ascii.eqb c "_") eqn:Eund; [|discriminate Hc].
      apply Ascii.eqb_eq in Epct, Eund. congruence.
    + destruct (Ascii.eqb c "_"); [now apply IH|].
      cbn in Hc. rewrite Hc. now apply IH.
Qed.

(** X10: the short-id lookup is a LIKE match, not a prefix test. An
    8-character argument that spells the first eight characters of a stored
    id in any ASCII case, or with [_] in place of any of them, is resolved by
    [get] to that row when no earlier row matches, and by [delete] to that
    row when it is live. *)
Theorem short_id_is_case_blind_with_wildcards
        (p : string) (before after : Sql.Table) (row : Row.t) :
  let t := before ++ row :: after in
  String.length p = 8%nat ->
  covers p (Row.id row) = true ->
  (forall r, In r before -> like_prefix p r = false) ->
  get_row t p = Some row
  /\ (live row = true -> resolve_full_id t p = Row.id row).
Proof.
  intros t Hlen Hcov Hfirst.
  assert (Hshort : is_short_id p = true) by (unfold is_short_id; now rewrite Hlen).
  assert (Hmatch : like_prefix p row = true) by (now apply like_covers).
  split.
  - unfold get_row, Sql.select_first. rewrite Hshort.
    now apply find_first.
  - intros Hlive. unfold resolve_full_id, Sql.select_first. rewrite Hshort.
    rewrite (find_first _ before after row); [reflexivity| |].
    + intros r Hr. now rewrite (Hfirst r Hr).
    + now rewrite Hmatch, Hlive.
Qed.

Lemma short_id_is_case_blind_with_wildcards_witness :
  let row := new_row Sample.id3 3000 Sample.rex in
  get_row (db Sample.three) "7B1D____" = Some row
  /\ (live row = true -> resolve_full_id (db Sample.three) "7B1D____" = Sample.id3).
Proof.
  apply (short_id_is_case_blind_with_wildcards "7B1D____" (db Sample.two) []
           (new_row Sample.id3 3000 Sample.rex)).
  - reflexivity.
  - reflexivity.
  - intros r [<- | [<- | []]]; reflexivity.
Defined.



(** ** Sequences of calls: what always holds *)

Lemma touchMany_db (env : Env) (ids : list string) (st : Store) :
  db (fst (touchMany env ids st)) = db st
  \/ db (fst (touchMany env ids st))
     = map (fun r => if id_in ids r then set_last_accessed_at (now env) r else r) (db st).
Proof.
  unfold touchMany. destruct ids as [|i ids]; [now left|].
  unfold write_db, Sql.update.
  destruct (metadata_writable env); cbn [negb fst db]; [now right | now left].
Qed.

Lemma create_db (env : Env) (input : CreateMemoryInput) (st : Store) :
  db (fst (create env input st)) = db st
  \/ (existsb (Sql.has_id (randomUUID env)) (db st) = false
      /\ db (fst (create env input st))
         = db st ++ [new_row (randomUUID env) (now env) input]).
Proof.
  unfold create, bind, lift, write_vectors, write_db, getM, VectorTable.add, Sql.insert.
  destruct (embed env (c_content input)) as [v|e]; [|now left].
  destruct (vectors_writable env); cbn [negb fst db]; [|now left].
  destruct (metadata_writable env); cbn [negb fst db]; [|now left].
  cbn [Row.id new_row].
  destruct (existsb (Sql.has_id (randomUUID env)) (db st)) eqn:Hfresh; cbn [fst db];
    [now left | now right].
Qed.

Lemma update_db (env : Env) (id : string) (updates : UpdateMemoryInput) (st : Store) :
  db (fst (update env id updates st)) = db st
  \/ db (fst (update env id updates st))
     = map (fun r => if Sql.has_id id r then apply_updates (now env) updates r else r) (db st).
Proof.
  unfold update, bind, lift, ret, write_db, write_vectors, getM, Sql.update.
  destruct (u_content updates) as [c|].
  - destruct (embed env c) as [v|e]; [|now left].
    destruct (VectorTable.update _ _ _ _ _); cbn [negb fst db]; [|now left].
    destruct (metadata_writable env); cbn [negb fst db]; [now right | now left].
  - destruct (metadata_writable env); cbn [negb fst db]; [now right | now left].
Qed.

Lemma delete_db (env : Env) (id : string) (reason : option string) (st : Store) :
  db (fst (delete env id reason st)) = db st
  \/ db (fst (delete env id reason st))
     = map (mark_deleted (resolve_full_id (db st) id) (now env) reason) (db st).
Proof.
  unfold delete, bind, read, write_db, write_vectors, Sql.update.
  destruct (metadata_writable env); cbn [negb fst db]; [|now left].
  destruct (VectorTable.delete _ _ _); cbn [negb fst db]; now right.
Qed.

Lemma touchMany_preserves_wf (env : Env) (ids : list string) (st : Store) :
  wf_table (db st) -> wf_table (db (fst (touchMany env ids st))).
Proof.
  intros Hwf. destruct (touchMany_db env ids st) as [-> | ->]; [exact Hwf|].
  apply wf_table_map; [| |exact Hwf].
  - intros r. destruct (id_in ids r); reflexivity.
  - intros r Hr. destruct (id_in ids r); exact Hr.
Qed.

Lemma run_cons (c : Call) (calls : list Call) (st : Store) :
  run (c :: calls) st = run calls (after c st).
Proof. reflexivity. Qed.

(** X12: whatever a caller does, the metadata table stays well formed.
    After any sequence of [create], [update], [delete] and [touchMany] calls,
    with any inputs, any clock, any ids from [randomUUID] and any write
    refused by either engine, no two rows share an id and every row still
    decodes. *)
Theorem run_preserves_wf (calls : list Call) (st : Store) :
  wf_table (db st) -> wf_table (db (run calls st)).
Proof.
  revert st. induction calls as [|c calls IH]; intros st Hwf; [exact Hwf|].
  rewrite run_cons. apply IH.
  destruct c as [env input | env id updates | env id reason | env ids]; cbn [after].
  - now apply create_preserves_wf.
  - now apply update_preserves_wf.
  - now apply delete_preserves_wf.
  - now apply touchMany_preserves_wf.
Qed.

Lemma run_preserves_wf_witness :
  wf_table (db (run Sample.session Sample.empty))
  /\ map Row.id (db (run Sample.session Sample.empty)) = [Sample.id1; Sample.id3].
Proof.
  split; [|reflexivity].
  apply (run_preserves_wf Sample.session Sample.empty).
  split; [reflexivity | intros r []].
Defined.

Lemma birth_map (g : Row.t -> Row.t) (t : Sql.Table) :
  (forall r, birth (g r) = birth r) -> map birth (map g t) = map birth t.
Proof. intros H. rewrite map_map. now apply map_ext. Qed.

Lemma apply_updates_birth (now : Z) (updates : UpdateMemoryInput) (r : Row.t) :
  birth (apply_updates now updates r) = birth r.
Proof.
  unfold apply_updates, set_opt.
  destruct (u_tags updates), (u_decayDays updates), (u_importance updates),
    (u_confidence updates), (u_content updates); reflexivity.
Qed.

Lemma after_birth (c : Call) (st : Store) :
  exists added, map birth (db (after c st)) = map birth (db st) ++ map birth added.
Proof.
  destruct c as [env input | env id updates | env id reason | env ids]; cbn [after].
  - destruct (create_db env input st) as [-> | [_ ->]].
    + exists []. now rewrite app_nil_r.
    + eexists [_]. now rewrite map_app.
  - exists []. rewrite app_nil_r.
    destruct (update_db env id updates st) as [-> | ->]; [reflexivity|].
    apply birth_map. intros r.
    destruct (Sql.has_id id r); [apply apply_updates_birth | reflexivity].
  - exists []. rewrite app_nil_r.
    destruct (delete_db env id reason st) as [-> | ->]; [reflexivity|].
    apply birth_map. intros r. unfold mark_deleted.
    destruct (Sql.has_id _ r); reflexivity.
  - exists []. rewrite app_nil_r.
    destruct (touchMany_db env ids st) as [-> | ->]; [reflexivity|].
    apply birth_map. intros r. destruct (id_in ids r); reflexivity.
Qed.

(** X13: no call ever removes a metadata row or rewrites what a row was
    born with. After any sequence of calls, failing ones included, the table
    lists the rows it listed before, in the same order and with the same id,
    category, creation time and provenance, followed by the rows created
    since. *)
Theorem run_never_removes_rows (calls : list Call) (st : Store) :
  exists added : Sql.Table,
    map birth (db (run calls st)) = map birth (db st) ++ map birth added.
Proof.
  revert st. induction calls as [|c calls IH]; intros st.
  - exists []. now rewrite app_nil_r.
  - rewrite run_cons.
    destruct (IH (after c st)) as [later Hlater].
    destruct (after_birth c st) as [first Hfirst].
    exists (first ++ later).
    now rewrite Hlater, Hfirst, map_app, app_assoc.
Qed.

(** ** Sequences of unhindered calls: the two stores agree *)

Lemma apply_updates_content (now : Z) (updates : UpdateMemoryInput) (r : Row.t) :
  Row.content (apply_updates now updates r) = default (Row.content r) (u_content updates).
Proof.
  unfold apply_updates, set_opt.
  destruct (u_tags updates), (u_decayDays updates), (u_importance updates),
    (u_confidence updates), (u_content updates); reflexivity.
Qed.

Lemma select_map_live (g : Row.t -> Row.t) (t : Sql.Table) :
  (forall r, live (g r) = live r) ->
  Sql.select live (map g t) = map g (Sql.select live t).
Proof.
  intros H. unfold Sql.select. induction t as [|a t IH]; [reflexivity|].
  cbn [map List.filter]. rewrite H. destruct (live a); cbn [map]; now rewrite IH.
Qed.

Lemma mirrors_has_id (provider : string -> Result (list float)) (id : string)
      (e : VectorTable.Entry) (r : Row.t) :
  mirrors provider e r -> VectorTable.has_id id e = Sql.has_id id r.
Proof. intros [Hid _]. unfold VectorTable.has_id, Sql.has_id. now rewrite Hid. Qed.

Lemma filter_split_perm {A} (p : A -> bool) (l : list A) :
  Permutation (List.filter (fun x => negb (p x)) l ++ List.filter p l) l.
Proof.
  induction l as [|a l IH]; [constructor|].
  cbn [List.filter]. destruct (p a); cbn [negb].
  - apply Permutation_sym, Permutation_cons_app, Permutation_sym, IH.
  - cbn [app]. now constructor.
Qed.

Lemma NoDup_map_filter {A B} (f : A -> B) (p : A -> bool) (l : list A) :
  List.NoDup (map f l) -> List.NoDup (map f (List.filter p l)).
Proof.
  induction l as [|a l IH]; intros H; [exact H|].
  cbn [map] in H. apply List.NoDup_cons_iff in H as [Hnot Hrest].
  cbn [List.filter]. destruct (p a); [|now apply IH].
  cbn [map]. apply List.NoDup_cons; [|now apply IH].
  intros Hin. apply Hnot. apply in_map_iff in Hin as [x [Hx Hin]].
  apply filter_In in Hin as [Hin _]. apply in_map_iff. now exists x.
Qed.

(** A rewrite of rows that keeps id, content and deletion stamp keeps the
    two stores in agreement. *)
Lemma consistent_rows_rewritten (provider : string -> Result (list float))
      (g : Row.t -> Row.t) (t : Sql.Table) (vt : VectorTable.Table) :
  (forall r, Row.id (g r) = Row.id r) ->
  (forall r, Row.content (g r) = Row.content r) ->
  (forall r, Row.deleted_at (g r) = Row.deleted_at r) ->
  consistent provider (mkStore t vt) ->
  consistent provider (mkStore (map g t) vt).
Proof.
  intros Hid Hcontent Hdel [Hu [Hids [Hplain [Hnd [Hentries Hrows]]]]].
  cbn [db vectorTable] in *.
  assert (Hmir : forall e r, mirrors provider e r -> mirrors provider e (g r)).
  { intros e r [H1 [H2 H3]]. unfold mirrors. now rewrite Hid, Hcontent. }
  assert (Hnot : forall r, not_deleted (g r) = not_deleted r).
  { intros r. unfold not_deleted. now rewrite Hdel. }
  unfold consistent. cbn [db vectorTable].
  split; [|split; [|split; [|split; [|split]]]].
  - now rewrite unique_ids_map.
  - intros r Hr. apply in_map_iff in Hr as [r0 [<- Hr0]]. rewrite Hid. now apply Hids.
  - intros r Hr. apply in_map_iff in Hr as [r0 [<- Hr0]]. rewrite Hid. now apply Hplain.
  - exact Hnd.
  - intros e He. destruct (Hentries e He) as [r [Hr [Hlive Hm]]].
    exists (g r). split; [now apply in_map|]. split; [now rewrite Hnot | now apply Hmir].
  - intros r Hr Hlive. apply in_map_iff in Hr as [r0 [<- Hr0]].
    rewrite Hnot in Hlive.
    destruct (Hrows r0 Hr0 Hlive) as [e [He Hm]].
    exists e. split; [exact He | now apply Hmir].
Qed.

Lemma store_eta (st : Store) : st = mkStore (db st) (vectorTable st).
Proof. now destruct st. Qed.

Lemma has_id_false_in (id : string) (t : Sql.Table) (r : Row.t) :
  existsb (Sql.has_id id) t = false -> In r t -> Row.id r <> id.
Proof.
  intros Hex Hr Hid.
  assert (H : existsb (Sql.has_id id) t = true).
  { apply existsb_exists. exists r. split; [exact Hr|].
    unfold Sql.has_id. rewrite Hid. apply String.eqb_refl. }
  congruence.
Qed.

Lemma create_consistent (provider : string -> Result (list float))
      (env : Env) (input : CreateMemoryInput) (st : Store) :
  unhindered provider (CallCreate env input) st ->
  consistent provider st ->
  consistent provider (fst (create env input st)).
Proof.
  intros [Hw [Hp [Hlen [Hnew Hfresh]]]] [Hu [Hids [Hplain [Hnd [Hentries Hrows]]]]].
  destruct (embed env (c_content input)) as [v|e] eqn:Hemb.
  - assert (Hshort : is_short_id (randomUUID env) = false)
      by (unfold is_short_id; now rewrite Hlen).
    rewrite (create_succeeds env input st v Hemb Hw Hfresh Hshort).
    assert (Hmir : mirrors provider
                     (VectorTable.mkEntry (randomUUID env) v (c_content input))
                     (new_row (randomUUID env) (now env) input)).
    { split; [reflexivity|]. split; [reflexivity|].
      cbn [Row.content new_row VectorTable.vector]. now rewrite <- Hp. }
    unfold consistent. cbn [fst db vectorTable].
    split; [|split; [|split; [|split; [|split]]]].
    + now apply unique_ids_app_fresh.
    + intros r Hr. apply in_app_or in Hr as [Hr | [<- | []]]; [now apply Hids | exact Hlen].
    + intros r Hr. apply in_app_or in Hr as [Hr | [<- | []]]; [now apply Hplain | exact Hnew].
    + rewrite map_app. cbn [map VectorTable.id].
      apply (Permutation_NoDup (l := randomUUID env :: map VectorTable.id (vectorTable st))).
      { apply Permutation_cons_append. }
      apply List.NoDup_cons; [|exact Hnd].
      intros Hin. apply in_map_iff in Hin as [e0 [He0 Hin]].
      destruct (Hentries e0 Hin) as [r [Hr [_ [Hid _]]]].
      apply (has_id_false_in _ _ r Hfresh Hr). congruence.
    + intros e0 He0. apply in_app_or in He0 as [He0 | [<- | []]].
      * destruct (Hentries e0 He0) as [r [Hr Hrest]].
        exists r. split; [apply in_or_app; now left | exact Hrest].
      * exists (new_row (randomUUID env) (now env) input).
        split; [apply in_or_app; right; now left|]. split; [reflexivity | exact Hmir].
    + intros r Hr Hlive. apply in_app_or in Hr as [Hr | [<- | []]].
      * destruct (Hrows r Hr Hlive) as [e0 [He0 Hm]].
        exists e0. split; [apply in_or_app; now left | exact Hm].
      * eexists. split; [apply in_or_app; right; now left | exact Hmir].
  - unfold create, bind, lift. rewrite Hemb. cbn [fst].
    unfold consistent. auto 10.
Qed.

Lemma update_consistent (provider : string -> Result (list float))
      (env : Env) (id : string) (updates : UpdateMemoryInput) (st : Store) :
  unhindered provider (CallUpdate env id updates) st ->
  consistent provider st ->
  consistent provider (fst (update env id updates st)).
Proof.
  intros [Hw [Hp Hpl]] Hcons.
  assert (Hplain : plain_for id updates) by (intros _; exact Hpl).
  assert (Hfailed : forall c e, u_content updates = Some c -> embed env c = Err e ->
                                fst (update env id updates st) = st).
  { intros c e Hc He. unfold update, bind, lift. now rewrite Hc, He. }
  pose proof (update_vectors env id updates st Hw Hplain) as Hvec.
  destruct (u_content updates) as [c|] eqn:Hc.
  - destruct (embed env c) as [v|e] eqn:Hemb; [|now rewrite (Hfailed c e eq_refl Hemb)].
    assert (Hembeds : embeds env (u_content updates)).
    { intros c' Hc'. rewrite Hc in Hc'. injection Hc' as <-. now exists v. }
    destruct (update_steps env id updates st Hw Hembeds Hplain) as [Hdb _].
    destruct Hcons as [Hu [Hids [Hplains [Hnd [Hentries Hrows]]]]].
    set (g := fun r => if Sql.has_id id r then apply_updates (now env) updates r else r)
      in Hdb.
    assert (Hgid : forall r, Row.id (g r) = Row.id r).
    { intros r. unfold g. destruct (Sql.has_id id r); [apply apply_updates_id | reflexivity]. }
    assert (Hgdel : forall r, not_deleted (g r) = not_deleted r).
    { intros r. unfold g, not_deleted. destruct (Sql.has_id id r); [|reflexivity].
      now rewrite apply_updates_deleted_at. }
    assert (Hnew : forall e0 r, mirrors provider e0 r -> Sql.has_id id r = true ->
                                mirrors provider
                                  (VectorTable.mkEntry (VectorTable.id e0) v c) (g r)).
    { intros e0 r [Hid _] Hhas. unfold g. rewrite Hhas.
      split; [cbn [VectorTable.id]; now rewrite apply_updates_id|].
      rewrite apply_updates_content, Hc. cbn [default VectorTable.text VectorTable.vector].
      split; [reflexivity | now rewrite <- Hp]. }
    assert (Hold : forall e0 r, mirrors provider e0 r -> Sql.has_id id r = false ->
                                mirrors provider e0 (g r)).
    { intros e0 r Hm Hhas. unfold g. now rewrite Hhas. }
    unfold consistent. rewrite Hdb, Hvec.
    split; [|split; [|split; [|split; [|split]]]].
    + now rewrite unique_ids_map.
    + intros r Hr. apply in_map_iff in Hr as [r0 [<- Hr0]]. rewrite Hgid. now apply Hids.
    + intros r Hr. apply in_map_iff in Hr as [r0 [<- Hr0]]. rewrite Hgid. now apply Hplains.
    + rewrite map_app, map_map. cbn [VectorTable.id].
      apply (Permutation_NoDup (l := map VectorTable.id (vectorTable st))); [|exact Hnd].
      rewrite <- map_app. apply Permutation_map, Permutation_sym, filter_split_perm.
    + intros e0 He0. apply in_app_or in He0 as [He0 | He0].
      * apply filter_In in He0 as [He0 Hno]. apply negb_true_iff in Hno.
        destruct (Hentries e0 He0) as [r [Hr [Hlive Hm]]].
        exists (g r). split; [now apply in_map|]. split; [now rewrite Hgdel|].
        apply Hold; [exact Hm|]. now rewrite <- (mirrors_has_id provider id e0 r Hm).
      * apply in_map_iff in He0 as [e1 [<- He1]].
        apply filter_In in He1 as [He1 Hyes].
        destruct (Hentries e1 He1) as [r [Hr [Hlive Hm]]].
        exists (g r). split; [now apply in_map|]. split; [now rewrite Hgdel|].
        apply Hnew; [exact Hm|]. now rewrite <- (mirrors_has_id provider id e1 r Hm).
    + intros r Hr Hlive. apply in_map_iff in Hr as [r0 [<- Hr0]].
      rewrite Hgdel in Hlive.
      destruct (Hrows r0 Hr0 Hlive) as [e0 [He0 Hm]].
      destruct (Sql.has_id id r0) eqn:Hhas.
      * exists (VectorTable.mkEntry (VectorTable.id e0) v c).
        split; [|now apply Hnew].
        apply in_or_app. right.
        apply (in_map (fun e1 => VectorTable.mkEntry (VectorTable.id e1) v c)).
        apply filter_In. split; [exact He0|].
        now rewrite (mirrors_has_id provider id e0 r0 Hm).
      * exists e0. split; [|now apply Hold].
        apply in_or_app. left. apply filter_In. split; [exact He0|].
        now rewrite (mirrors_has_id provider id e0 r0 Hm), Hhas.
  - assert (Hembeds : embeds env (u_content updates))
      by (intros c' Hc'; rewrite Hc in Hc'; discriminate Hc').
    destruct (update_steps env id updates st Hw Hembeds Hplain) as [Hdb _].
    rewrite (store_eta (fst (update env id updates st))), Hdb, Hvec.
    apply consistent_rows_rewritten.
    + intros r. destruct (Sql.has_id id r); [apply apply_updates_id | reflexivity].
    + intros r. destruct (Sql.has_id id r); [|reflexivity].
      now rewrite apply_updates_content, Hc.
    + intros r. destruct (Sql.has_id id r); [apply apply_updates_deleted_at | reflexivity].
    + now rewrite <- store_eta.
Qed.

Lemma delete_consistent (provider : string -> Result (list float))
      (env : Env) (id : string) (reason : option string) (st : Store) :
  unhindered provider (CallDelete env id reason) st ->
  consistent provider st ->
  consistent provider (fst (delete env id reason st)).
Proof.
  intros [Hw Hpl] [Hu [Hids [Hplain [Hnd [Hentries Hrows]]]]].
  rewrite (delete_steps env id reason st Hw (resolve_plain _ _ Hpl Hplain)).
  set (target := resolve_full_id (db st) id).
  assert (Hkept : forall r, Sql.has_id target r = false ->
                            mark_deleted target (now env) reason r = r).
  { intros r Hr. unfold mark_deleted. now rewrite Hr. }
  unfold consistent. cbn [fst db vectorTable].
  split; [|split; [|split; [|split; [|split]]]].
  - rewrite unique_ids_map; [exact Hu|]. intros r. apply mark_deleted_id.
  - intros r Hr. apply in_map_iff in Hr as [r0 [<- Hr0]].
    rewrite mark_deleted_id. now apply Hids.
  - now apply mark_deleted_plain.
  - now apply NoDup_map_filter.
  - intros e He. apply filter_In in He as [He Hno]. apply negb_true_iff in Hno.
    destruct (Hentries e He) as [r [Hr [Hlive Hm]]].
    rewrite (mirrors_has_id provider target e r Hm) in Hno.
    exists r. split; [|now split].
    apply in_map_iff. exists r. split; [now apply Hkept | exact Hr].
  - intros r Hr Hlive. apply in_map_iff in Hr as [r0 [<- Hr0]].
    destruct (Sql.has_id target r0) eqn:Hhas.
    + unfold mark_deleted in Hlive. rewrite Hhas in Hlive. discriminate Hlive.
    + rewrite (Hkept r0 Hhas) in *.
      destruct (Hrows r0 Hr0 Hlive) as [e [He Hm]].
      exists e. split; [|exact Hm].
      apply filter_In. split; [exact He|].
      now rewrite (mirrors_has_id provider target e r0 Hm), Hhas.
Qed.

Lemma touchMany_consistent (provider : string -> Result (list float))
      (env : Env) (ids : list string) (st : Store) :
  consistent provider st ->
  consistent provider (fst (touchMany env ids st)).
Proof.
  intros Hcons.
  assert (Hvec : vectorTable (fst (touchMany env ids st)) = vectorTable st).
  { unfold touchMany. destruct ids; [reflexivity|].
    unfold write_db. destruct (Sql.update _ _ _ _); reflexivity. }
  rewrite (store_eta (fst (touchMany env ids st))), Hvec.
  destruct (touchMany_db env ids st) as [-> | ->]; [now rewrite <- store_eta|].
  apply consistent_rows_rewritten; [| | |now rewrite <- store_eta];
    intros r; destruct (id_in ids r); reflexivity.
Qed.

(** X14: the two stores agree after every sequence of unhindered calls. If
    the index mirrors the live rows of the table (every entry carries the id
    of a live row, its content as text and the embedding of that content as
    vector; every live row has such an entry; no two entries share an id;
    the order of the index is left open), then it still does after any
    sequence of [create], [update], [delete] and [touchMany] calls during
    which both engines accept writes, [randomUUID] hands out fresh
    36-character ids and every id is plain; the provider may fail. In
    particular every live memory then has exactly one vector entry and no
    entry is an orphan. *)
Theorem run_keeps_stores_consistent
        (provider : string -> Result (list float)) (calls : list Call) (st : Store) :
  consistent provider st ->
  unhindered_run provider calls st ->
  consistent provider (run calls st).
Proof.
  revert st. induction calls as [|c calls IH]; intros st Hc Hrun; [exact Hc|].
  destruct Hrun as [Hcall Hrest].
  rewrite run_cons. apply IH; [|exact Hrest].
  destruct c as [env input | env id updates | env id reason | env ids]; cbn [after].
  - now apply create_consistent.
  - now apply update_consistent.
  - now apply delete_consistent.
  - now apply touchMany_consistent.
Qed.

Lemma run_keeps_stores_consistent_witness :
  let st := run Sample.smooth_session Sample.empty in
  consistent Sample.embed_length st
  /\ map VectorTable.text (vectorTable st)
     = ["Meeting tomorrow at 3pm"%string; "User prefers light mode"%string]
  /\ map Row.content (db st)
     = ["User prefers light mode"%string; "Meeting tomorrow at 3pm"%string;
        "User dog name is Rex"%string]
  /\ map Row.deleted_at (db st) = [None; None; Some 6000].
Proof.
  split; [|repeat split].
  apply (run_keeps_stores_consistent Sample.embed_length Sample.smooth_session Sample.empty).
  - unfold consistent. cbn [Sample.empty db vectorTable map].
    split; [reflexivity|]. split; [intros r []|]. split; [intros r []|].
    split; [constructor|]. split; [intros e [] | intros r []].
  - cbn [unhindered_run Sample.smooth_session unhindered].
    repeat split.
Defined.

(** ** touchMany *)

(** X15: [touchMany] with an empty array returns at once, whatever the state
    of the engine. With ids, while the metadata engine accepts writes, it
    succeeds, leaves the index alone, sets [last_accessed_at] to the time of
    the call in every row whose id is listed (soft-deleted rows included),
    changes no other column and no other row, and silently ignores ids no row
    has; ids are compared as keys, so when no row has a listed id (short ids
    of UUID rows, for one) the table is left as it was. When the engine
    refuses the write the call fails and nothing changes. *)
Theorem touchMany_effect (env : Env) (ids : list string) (st : Store) :
  touchMany env [] st = (st, Ok tt)
  /\ (metadata_writable env = true ->
      let st' := fst (touchMany env ids st) in
      snd (touchMany env ids st) = Ok tt
      /\ vectorTable st' = vectorTable st
      /\ map without_access (db st') = map without_access (db st)
      /\ (forall r, In r (db st') -> In (Row.id r) ids ->
                    Row.last_accessed_at r = now env)
      /\ (forall r, In r (db st) -> ~ In (Row.id r) ids -> In r (db st'))
      /\ ((forall r, In r (db st) -> ~ In (Row.id r) ids) -> st' = st))
  /\ (metadata_writable env = false -> ids <> [] ->
      touchMany env ids st = (st, Err StorageFailure)).
Proof.
  split; [reflexivity|]. split.
  - intros Hm.
    assert (Hin : forall r, id_in ids r = true <-> In (Row.id r) ids).
    { intros r. unfold id_in. rewrite existsb_exists. split.
      - intros [i [Hi Heq]]. apply String.eqb_eq in Heq. now rewrite Heq.
      - intros Hi. exists (Row.id r). split; [exact Hi | apply String.eqb_refl]. }
    destruct ids as [|i ids].
    { cbn. repeat split; trivial. intros r _ []. }
    unfold touchMany, write_db, Sql.update. rewrite Hm. cbn [negb fst snd db vectorTable].
    split; [reflexivity|]. split; [reflexivity|]. split; [|split; [|split]].
    + rewrite map_map. apply map_ext. intros r.
      destruct (id_in (i :: ids) r); reflexivity.
    + intros r Hr Hid. apply in_map_iff in Hr as [r0 [<- _]].
      destruct (id_in (i :: ids) r0) eqn:E; [reflexivity|].
      apply Hin in Hid. congruence.
    + intros r Hr Hid. apply in_map_iff. exists r. split; [|exact Hr].
      destruct (id_in (i :: ids) r) eqn:E; [|reflexivity].
      apply Hin in E. contradiction.
    + intros Hnone. destruct st as [t v]. cbn [db vectorTable] in *. f_equal.
      apply map_rows_unchanged. intros r Hr.
      destruct (id_in (i :: ids) r) eqn:E; [|reflexivity].
      apply Hin in E. now apply Hnone in E.
  - intros Hm Hne. destruct ids as [|i ids]; [contradiction|].
    unfold touchMany, write_db, Sql.update. now rewrite Hm.
Qed.

Lemma touchMany_effect_witness :
  let env := Sample.env EmptyString 9000 in
  let st' := fst (touchMany env [Sample.id3; "no-such-id"%string; "3f2a9c1e"%string]
                    Sample.three) in
  snd (touchMany env [Sample.id3; "no-such-id"%string; "3f2a9c1e"%string] Sample.three)
  = Ok tt
  /\ map Row.last_accessed_at (db st') = [1000; 2000; 9000]
  /\ map without_access (db st') = map without_access (db Sample.three).
Proof.
  destruct (touchMany_effect (Sample.env EmptyString 9000)
              [Sample.id3; "no-such-id"%string; "3f2a9c1e"%string] Sample.three)
    as [_ [H _]].
  destruct (H eq_refl) as [Hok [_ [Hrows _]]].
  split; [exact Hok|]. split; [reflexivity | exact Hrows].
Defined.

(** ** count *)

Lemma count_map (g : Row.t -> Row.t) (t : Sql.Table) :
  (forall r, live (g r) = live r) -> count (map g t) = count t.
Proof.
  intros H. unfold count. rewrite (select_map_live g t H). apply length_map.
Qed.

Lemma get_total (t : Sql.Table) (id : string) :
  (forall r, In r t -> row_ok r = true) -> isOk (get t id) = true.
Proof.
  intros Hok. unfold get.
  destruct (get_row t id) as [row|] eqn:E; [|reflexivity].
  destruct (rowToMemory_ok row (Hok row (get_row_In _ _ _ E))) as [m [-> _]].
  reflexivity.
Qed.

(** X16: [count] is the number of memories stored and not forgotten. Over
    decodable rows, a [create] raises it by one exactly when it returns and
    leaves it alone when it throws, whatever made it throw; [update] and
    [touchMany] never change it, whatever their arguments and whether they
    return or throw. *)
Theorem count_after_create_update_touch (st : Store) :
  (forall r, In r (db st) -> row_ok r = true) ->
  (forall env input,
      count (db (fst (create env input st)))
      = (count (db st) + one_if (isOk (snd (create env input st))))%nat)
  /\ (forall env id updates, count (db (fst (update env id updates st))) = count (db st))
  /\ (forall env ids, count (db (fst (touchMany env ids st))) = count (db st)).
Proof.
  intros Hok. split; [|split].
  - intros env input.
    unfold create, bind, lift, write_vectors, write_db, getM, VectorTable.add, Sql.insert.
    destruct (embed env (c_content input)) as [v|e]; [|cbn; lia].
    destruct (vectors_writable env); cbn [negb fst snd db]; [|cbn; lia].
    destruct (metadata_writable env); cbn [negb fst snd db]; [|cbn; lia].
    cbn [Row.id new_row].
    destruct (existsb (Sql.has_id (randomUUID env)) (db st)); cbn [fst snd db];
      [cbn; lia|].
    rewrite get_total.
    + unfold count, Sql.select. rewrite List.filter_app, length_app. reflexivity.
    + intros r Hr. apply in_app_or in Hr as [Hr | [<- | []]];
        [now apply Hok | apply row_ok_new_row].
  - intros env id updates.
    destruct (update_db env id updates st) as [-> | ->]; [reflexivity|].
    apply count_map. intros r. destruct (Sql.has_id id r); [|reflexivity].
    unfold live. now rewrite apply_updates_deleted_at.
  - intros env ids.
    destruct (touchMany_db env ids st) as [-> | ->]; [reflexivity|].
    apply count_map. intros r. destruct (id_in ids r); reflexivity.
Qed.

Lemma count_after_create_update_touch_witness :
  count (db Sample.two) = 2%nat
  /\ count (db (fst (create (Sample.env Sample.id3 3000) Sample.rex Sample.two))) = 3%nat
  /\ count (db (fst (create (Sample.env_metadata_down Sample.id3 3000) Sample.rex
                       Sample.two))) = 2%nat.
Proof.
  destruct (count_after_create_update_touch Sample.two) as [Hcreate _].
  - intros r [<- | [<- | []]]; reflexivity.
  - split; [reflexivity|]. split; rewrite Hcreate; reflexivity.
Defined.

Lemma existsb_filter_le {A} (p q : A -> bool) (l : list A) :
  existsb p (List.filter q l) = true -> existsb p l = true.
Proof.
  rewrite !existsb_exists. intros [x [Hx Hp]].
  apply filter_In in Hx as [Hx _]. now exists x.
Qed.

Lemma unique_ids_filter (q : Row.t -> bool) (t : Sql.Table) :
  unique_ids t = true -> unique_ids (List.filter q t) = true.
Proof.
  induction t as [|a t IH]; intros Hu; [reflexivity|].
  cbn [unique_ids] in Hu. apply andb_true_iff in Hu as [Ha Hu].
  cbn [List.filter]. destruct (q a); [|now apply IH].
  cbn [unique_ids]. apply andb_true_iff. split; [|now apply IH].
  apply negb_true_iff in Ha. apply negb_true_iff.
  destruct (existsb (Sql.has_id (Row.id a)) (List.filter q t)) eqn:E; [|reflexivity].
  apply existsb_filter_le in E. congruence.
Qed.






(** ** The stable sort sorts *)

Section SortedFacts.
Context {A : Type} (le : A -> A -> bool).

Let R (a b : A) : Prop := le a b = true.

Lemma insert_sorted_Sorted (x : A) (l : list A) :
  (forall y, In y l -> le x y = false -> le y x = true) ->
  Sorted R l -> Sorted R (insert_sorted le x l).
Proof.
  intros Htot Hs. induction l as [|y l IH]; cbn [insert_sorted].
  - repeat constructor.
  - destruct (le x y) eqn:E.
    + constructor; [exact Hs|]. constructor. exact E.
    + apply Sorted_inv in Hs as [Hs Hhd].
      constructor.
      * apply IH; [|exact Hs]. intros z Hz. apply Htot. now right.
      * destruct l as [|z l]; cbn [insert_sorted].
        -- constructor. apply Htot; [now left | exact E].
        -- destruct (le x z).
           ++ constructor. apply Htot; [now left | exact E].
           ++ constructor. now apply HdRel_inv in Hhd.
Qed.

Lemma stable_sort_Sorted (l : list A) :
  total_on le l -> Sorted R (stable_sort le l).
Proof.
  intros Htot. induction l as [|x l IH]; cbn [stable_sort]; [constructor|].
  apply insert_sorted_Sorted.
  - intros y Hy E.
    apply Htot; [now left | right; exact (proj1 (stable_sort_In le y l) Hy) | exact E].
  - apply IH. intros a b Ha Hb. apply Htot; now right.
Qed.

End SortedFacts.

Lemma StronglySorted_firstn {A} (R : A -> A -> Prop) (n : nat) (l : list A) :
  StronglySorted R l -> StronglySorted R (firstn n l).
Proof.
  revert l. induction n as [|n IH]; intros l Hs; [constructor|].
  destruct l as [|a l]; [constructor|].
  apply StronglySorted_inv in Hs as [Hs Ha]. cbn [firstn].
  constructor; [now apply IH|].
  rewrite List.Forall_forall in *. intros x Hx. apply Ha. now apply In_firstn in Hx.
Qed.

Lemma StronglySorted_skipn {A} (R : A -> A -> Prop) (n : nat) (l : list A) :
  StronglySorted R l -> StronglySorted R (skipn n l).
Proof.
  revert l. induction n as [|n IH]; intros l Hs; [exact Hs|].
  destruct l as [|a l]; [constructor|].
  apply StronglySorted_inv in Hs as [Hs _]. now apply IH.
Qed.

Lemma StronglySorted_decoded {A B} (R : A -> A -> Prop) (R' : B -> B -> Prop)
      (f : A -> Result B) (l : list A) (ys : list B) :
  (forall x y x' y', f x = Ok x' -> f y = Ok y' -> R x y -> R' x' y') ->
  StronglySorted R l ->
  mapResult f l = Ok ys ->
  StronglySorted R' ys.
Proof.
  intros Hrel Hs Hmap. apply mapResult_Forall2 in Hmap.
  induction Hmap as [|x x' l ys Hx Hl IH]; [constructor|].
  apply StronglySorted_inv in Hs as [Hs Hall].
  constructor; [now apply IH|].
  rewrite List.Forall_forall in *. intros y' Hy'.
  clear IH Hs. induction Hl as [|y y0 l ys Hy Hl IH]; [destruct Hy'|].
  destruct Hy' as [<- | Hy'].
  - apply (Hrel x y x' y0 Hx Hy). apply Hall. now left.
  - apply IH; [|exact Hy']. intros z Hz. apply Hall. now right.
Qed.

(** ** list: the page *)

Lemma list_memories_shape (t : Sql.Table) (opts : ListOptions) (page : ListResult) :
  list_memories t opts = Ok page ->
  exists ordered,
    Sql.order_by (snake_case (default "created_at"%string (l_sortBy opts)))
      (default desc (l_sortOrder opts)) (Sql.select (list_where opts) t) = Ok ordered
    /\ total page = length (Sql.select (list_where opts) t)
    /\ mapResult rowToMemory
         (Sql.limit_offset (default 20%nat (l_limit opts)) (default 0%nat (l_offset opts))
            ordered) = Ok (items page).
Proof.
  unfold list_memories.
  destruct (Sql.order_by _ _ _) as [ordered|e]; [|discriminate].
  destruct (mapResult rowToMemory _) as [ms|e] eqn:Hms; [|discriminate].
  intros H. injection H as <-. exists ordered. repeat split. exact Hms.
Qed.

(** X18: whenever [list] returns, [total] is the number of live rows of the
    category asked for, whatever the window and the sort key ([count] when no
    category is given); the page holds
    [min limit (total - offset)] memories (limit 20 and offset 0 unless
    given), all of them live and of that category. *)
Theorem list_page (t : Sql.Table) (opts : ListOptions) (page : ListResult) :
  list_memories t opts = Ok page ->
  total page = length (Sql.select (list_where opts) t)
  /\ (l_category opts = None -> total page = count t)
  /\ length (items page)
     = Nat.min (default 20%nat (l_limit opts)) (total page - default 0%nat (l_offset opts))
  /\ forall m, In m (items page) ->
               Memory.deletedAt m = None
               /\ forall c, l_category opts = Some c -> Memory.category m = c.
Proof.
  intros H. destruct (list_memories_shape t opts page H) as [ordered [Hord [Htot Hitems]]].
  pose proof (order_by_perm _ _ _ _ Hord) as Hperm.
  split; [exact Htot|]. split; [|split].
  - intros Hc. rewrite Htot. unfold count, Sql.select, list_where. rewrite Hc.
    f_equal. apply filter_ext. intros r. cbn [opt_test]. apply andb_true_r.
  - rewrite (mapResult_length _ _ _ Hitems). unfold Sql.limit_offset.
    rewrite length_firstn, length_skipn, Htot. now rewrite (Permutation_length Hperm).
  - intros m Hm.
    destruct (mapResult_In _ _ _ _ Hitems Hm) as [row [Hrow Hdec]].
    unfold Sql.limit_offset in Hrow. apply In_firstn in Hrow.
    assert (Hin : In row ordered).
    { rewrite <- (firstn_skipn (default 0%nat (l_offset opts)) ordered).
      apply in_or_app. now right. }
    apply (Permutation_in _ (Permutation_sym Hperm)) in Hin.
    apply filter_In in Hin as [_ Hwhere].
    unfold list_where in Hwhere. apply andb_true_iff in Hwhere as [Hlive Hcat].
    destruct (rowToMemory_fields row m Hdec) as [_ [Hc [_ [_ [Hd _]]]]].
    rewrite Hd, Hc. split; [now apply live_not_deleted|].
    intros c Hopt. rewrite Hopt in Hcat. now apply category_eqb_eq.
Qed.

Lemma list_page_witness :
  let opts := mkList (Some cat_fact) (Some "importance"%string) None (Some 5%nat)
                (Some 0%nat) in
  exists page,
    list_memories (db Sample.three) opts = Ok page
    /\ total page = 1%nat
    /\ length (items page) = 1%nat
    /\ forall m, In m (items page) ->
                 Memory.deletedAt m = None
                 /\ forall c, l_category opts = Some c -> Memory.category m = c.
Proof.
  eexists. split; [vm_compute; reflexivity|].
  destruct (list_page (db Sample.three)
              (mkList (Some cat_fact) (Some "importance"%string) None (Some 5%nat)
                 (Some 0%nat)) _ eq_refl) as [Htot [_ [Hlen Hall]]].
  split; [exact Htot|]. split; [exact Hlen | exact Hall].
Defined.

(** ** list: windows and order *)




Lemma created_desc_total (l : Sql.Table) :
  total_on (fun a b => Sql.by_key Row.created_at Z.leb b a) l.
Proof.
  intros x y _ _. unfold Sql.by_key. rewrite Z.leb_gt, Z.leb_le. lia.
Qed.

Lemma created_asc_total (l : Sql.Table) :
  total_on (Sql.by_key Row.created_at Z.leb) l.
Proof.
  intros x y _ _. unfold Sql.by_key. rewrite Z.leb_gt, Z.leb_le. lia.
Qed.

(** X20: when [list] sorts by creation time (the default, also asked for as
    [createdAt] or [created_at]), the page it returns is in that order:
    newest first by default and with [desc], oldest first with [asc]; any
    memory of the page is at least as new (as old) as every memory after
    it. *)
Theorem list_is_in_creation_order
        (t : Sql.Table) (opts : ListOptions) (page : ListResult) :
  list_memories t opts = Ok page ->
  snake_case (default "created_at"%string (l_sortBy opts)) = "created_at"%string ->
  match default desc (l_sortOrder opts) with
  | desc => StronglySorted newer_first (items page)
  | asc => StronglySorted older_first (items page)
  end.
Proof.
  intros H Hcol.
  destruct (list_memories_shape t opts page H) as [ordered [Hord [_ Hitems]]].
  rewrite Hcol in Hord. unfold Sql.order_by in Hord.
  change (Sql.column_le "created_at") with (Some (Sql.by_key Row.created_at Z.leb)) in Hord.
  unfold Sql.limit_offset in Hitems.
  destruct (default desc (l_sortOrder opts)); injection Hord as <-.
  - apply (StronglySorted_decoded
             (fun a b => Sql.by_key Row.created_at Z.leb a b = true) older_first
             rowToMemory _ _) with (3 := Hitems).
    + intros x y x' y' Hx Hy Hle.
      apply rowToMemory_fields in Hx as [_ [_ [_ [_ [_ [_ Hx]]]]]].
      apply rowToMemory_fields in Hy as [_ [_ [_ [_ [_ [_ Hy]]]]]].
      unfold older_first. rewrite Hx, Hy. now apply Z.leb_le.
    + apply StronglySorted_firstn, StronglySorted_skipn.
      apply Sorted_StronglySorted.
      * intros a b c. unfold Sql.by_key. rewrite !Z.leb_le. lia.
      * apply stable_sort_Sorted, created_asc_total.
  - apply (StronglySorted_decoded
             (fun a b => Sql.by_key Row.created_at Z.leb b a = true) newer_first
             rowToMemory _ _) with (3 := Hitems).
    + intros x y x' y' Hx Hy Hle.
      apply rowToMemory_fields in Hx as [_ [_ [_ [_ [_ [_ Hx]]]]]].
      apply rowToMemory_fields in Hy as [_ [_ [_ [_ [_ [_ Hy]]]]]].
      unfold newer_first. rewrite Hx, Hy. now apply Z.leb_le.
    + apply StronglySorted_firstn, StronglySorted_skipn.
      apply Sorted_StronglySorted.
      * intros a b c. unfold Sql.by_key. rewrite !Z.leb_le. lia.
      * apply (stable_sort_Sorted (fun a b => Sql.by_key Row.created_at Z.leb b a)).
        apply created_desc_total.
Qed.

Lemma list_is_in_creation_order_witness :
  exists page,
    list_memories (db Sample.three)
      (mkList None (Some "createdAt"%string) (Some asc) None None) = Ok page
    /\ StronglySorted older_first (items page)
    /\ map Memory.createdAt (items page) = [1000; 2000; 3000].
Proof.
  eexists. split; [vm_compute; reflexivity|]. split; [|reflexivity].
  apply (list_is_in_creation_order (db Sample.three)
           (mkList None (Some "createdAt"%string) (Some asc) None None) _ eq_refl eq_refl).
Defined.

(** ** getByCategory *)

Lemma is_number_spec (x : float) : is_number x = true -> Prim2SF x <> S754_nan.
Proof.
  unfold is_number. rewrite FloatAxioms.eqb_spec. intros H E. rewrite E in H. discriminate H.
Qed.

Lemma SFleb_total (a b : spec_float) :
  a <> S754_nan -> b <> S754_nan -> SFleb a b = false -> SFleb b a = true.
Proof.
  intros Ha Hb. unfold SFleb, SFcompare.
  destruct a as [sa | sa | | sa ma ea]; try congruence;
    destruct b as [sb | sb | | sb mb eb]; try congruence;
    try (destruct sa; try destruct sb; cbn; congruence);
    try (destruct sb; cbn; congruence).
  change (PosDef.Pos.compare_cont Eq ma mb) with (Pos.compare ma mb).
  change (PosDef.Pos.compare_cont Eq mb ma) with (Pos.compare mb ma).
  rewrite (Z.compare_antisym ea eb), (Pos.compare_antisym ma mb).
  destruct sa, sb; try congruence;
    destruct (Z.compare ea eb); cbn; try congruence;
    destruct (Pos.compare ma mb); cbn; congruence.
Qed.

Lemma SFleb_trans (a b c : spec_float) :
  SFleb a b = true -> SFleb b c = true -> SFleb a c = true.
Proof.
  unfold SFleb, SFcompare.
  destruct a as [sa|sa| |sa ma ea]; destruct b as [sb|sb| |sb mb eb];
    destruct c as [sc|sc| |sc mc ec];
    try destruct sa; try destruct sb; try destruct sc; cbn; try congruence;
    change (PosDef.Pos.compare_cont Eq) with Pos.compare;
    repeat match goal with
           | |- context [Z.compare ?x ?y] => destruct (Z.compare_spec x y)
           | |- context [Pos.compare ?x ?y] => destruct (Pos.compare_spec x y)
           end; cbn; try congruence; try lia.
Qed.

(** [<=] on numbers decides every pair, and is transitive on all floats. *)
Lemma leb_total (x y : float) :
  is_number x = true -> is_number y = true ->
  PrimFloat.leb x y = false -> PrimFloat.leb y x = true.
Proof.
  intros Hx Hy. rewrite !FloatAxioms.leb_spec.
  apply SFleb_total; now apply is_number_spec.
Qed.

Lemma leb_trans (x y z : float) :
  PrimFloat.leb x y = true -> PrimFloat.leb y z = true -> PrimFloat.leb x z = true.
Proof. rewrite !FloatAxioms.leb_spec. apply SFleb_trans. Qed.

Lemma then_by_trans (le1 le2 : Row.t -> Row.t -> bool) :
  (forall a b c, le1 a b = true -> le1 b c = true -> le1 a c = true) ->
  (forall a b c, le2 a b = true -> le2 b c = true -> le2 a c = true) ->
  forall a b c, then_by le1 le2 a b = true -> then_by le1 le2 b c = true ->
                then_by le1 le2 a c = true.
Proof.
  intros T1 T2 a b c. unfold then_by.
  destruct (le1 a b) eqn:Eab; [|discriminate].
  destruct (le1 b c) eqn:Ebc; [|intros _ H; discriminate H].
  rewrite (T1 a b c Eab Ebc).
  destruct (le1 c a) eqn:Eca; [|reflexivity].
  rewrite (T1 b c a Ebc Eca), (T1 c a b Eca Eab). apply T2.
Qed.

Lemma importance_then_recency_total (l : Sql.Table) :
  importances_are_numbers l ->
  total_on importance_then_recency l.
Proof.
  intros Hnum x y Hx Hy.
  unfold importance_then_recency, then_by, descending, Sql.by_key, Sql.null_first.
  pose proof (Hnum x) as Hnx. pose proof (Hnum y) as Hny.
  destruct (Row.importance x) as [ix|], (Row.importance y) as [iy|];
    try discriminate; try reflexivity.
  - destruct (PrimFloat.leb iy ix) eqn:Eyx.
    + destruct (PrimFloat.leb ix iy) eqn:Exy; [|discriminate].
      rewrite Z.leb_gt, Z.leb_le. lia.
    + intros _.
      rewrite (leb_total _ _ (Hny iy Hy eq_refl) (Hnx ix Hx eq_refl) Eyx). reflexivity.
  - rewrite Z.leb_gt, Z.leb_le. lia.
Qed.

Lemma null_first_trans (a b c : option float) :
  Sql.null_first PrimFloat.leb a b = true ->
  Sql.null_first PrimFloat.leb b c = true ->
  Sql.null_first PrimFloat.leb a c = true.
Proof.
  destruct a as [x|], b as [y|], c as [z|]; cbn [Sql.null_first];
    try discriminate; try reflexivity.
  apply leb_trans.
Qed.

Lemma importance_then_recency_trans (a b c : Row.t) :
  importance_then_recency a b = true -> importance_then_recency b c = true ->
  importance_then_recency a c = true.
Proof.
  apply then_by_trans.
  - intros x y z. unfold descending, Sql.by_key. intros H1 H2.
    exact (null_first_trans _ _ _ H2 H1).
  - intros x y z. unfold descending, Sql.by_key. rewrite !Z.leb_le. lia.
Qed.

(** X21: [getByCategory] returns live memories of the category asked for,
    as many as there are up to the limit (50 unless given), the most
    important first, a memory whose importance is NULL after all that have
    one and, between equally important ones, the newest first; every
    returned memory is ranked at least as high as all that follow it. The
    importances stored are numbers (the engine stores a NaN as NULL). *)
Theorem getByCategory_ranks_live_memories
        (t : Sql.Table) (category : MemoryCategory) (limit : option nat)
        (ms : list Memory.t) :
  importances_are_numbers t ->
  getByCategory t category limit = Ok ms ->
  length ms = Nat.min (default 50%nat limit)
                (length (List.filter
                           (fun r => category_eqb (Row.category r) category && not_deleted r)
                           t))
  /\ Forall (fun m => Memory.category m = category /\ Memory.deletedAt m = None) ms
  /\ StronglySorted weightier_first ms.
Proof.
  intros Hnum H. unfold getByCategory in H.
  assert (Hsel : Sql.select (in_category category) t
                 = List.filter
                     (fun r => category_eqb (Row.category r) category && not_deleted r) t).
  { apply filter_ext. intros r. unfold in_category, live, Sql.is_null, not_deleted.
    now destruct (Row.deleted_at r). }
  split; [|split].
  - rewrite (mapResult_length _ _ _ H), length_firstn, stable_sort_length, Hsel.
    reflexivity.
  - apply List.Forall_forall. intros m Hm.
    destruct (mapResult_In _ _ _ _ H Hm) as [row [Hrow Hdec]].
    apply In_firstn in Hrow. apply stable_sort_In in Hrow.
    unfold Sql.select in Hrow. apply filter_In in Hrow as [_ Hc].
    unfold in_category in Hc. apply andb_true_iff in Hc as [Hc Hl].
    apply rowToMemory_fields in Hdec as [_ [Hcat [_ [_ [Hdel _]]]]].
    rewrite Hcat, Hdel. split; [now apply category_eqb_eq|].
    unfold live, Sql.is_null in Hl. now destruct (Row.deleted_at row).
  - apply (StronglySorted_decoded
             (fun a b => importance_then_recency a b = true) weightier_first
             rowToMemory _ _) with (3 := H).
    + intros x y x' y' Hx Hy Hle.
      apply rowToMemory_fields in Hx as [_ [_ [_ [Hxi [_ [_ Hxc]]]]]].
      apply rowToMemory_fields in Hy as [_ [_ [_ [Hyi [_ [_ Hyc]]]]]].
      unfold weightier_first. rewrite Hxi, Hyi, Hxc, Hyc.
      unfold importance_then_recency, then_by, descending, Sql.by_key, Sql.null_first
        in Hle.
      destruct (Row.importance x) as [ix|], (Row.importance y) as [iy|];
        try discriminate; try exact I.
      * destruct (PrimFloat.leb iy ix); [|discriminate].
        split; [reflexivity|]. intros E. rewrite E in Hle. now apply Z.leb_le.
      * now apply Z.leb_le.
    + apply StronglySorted_firstn.
      apply Sorted_StronglySorted.
      * intros a b c. apply importance_then_recency_trans.
      * apply stable_sort_Sorted, importance_then_recency_total.
        intros r x Hr. apply Hnum. unfold Sql.select in Hr. now apply filter_In in Hr.
Qed.

Lemma getByCategory_ranks_live_memories_witness :
  exists ms,
    getByCategory (db Sample.twice) cat_preference None = Ok ms
    /\ map Memory.id ms = [Sample.id2; Sample.id1]
    /\ StronglySorted weightier_first ms.
Proof.
  eexists. split; [vm_compute; reflexivity|]. split; [reflexivity|].
  refine (proj2 (proj2 (getByCategory_ranks_live_memories
                          (db Sample.twice) cat_preference None _ _ eq_refl))).
  intros r x Hr. vm_compute in Hr.
  destruct Hr as [<- | [<- | []]]; intros Hx; injection Hx as <-; reflexivity.
Defined.

(** ** search: the order and the scores of the results *)

Lemma index_from_fresh (ids : list string) (i : nat) (m : gmap string nat) (x : string) :
  ~ In x ids -> index_from i ids m !! x = m !! x.
Proof.
  revert i m. induction ids as [|a ids IH]; intros i m Hx; cbn [index_from]; [reflexivity|].
  rewrite IH by (intros H; apply Hx; now right).
  apply lookup_insert_ne. intros ->. apply Hx. now left.
Qed.

Lemma index_from_lookup (ids : list string) (i j : nat) (m : gmap string nat) (x : string) :
  List.NoDup ids -> ids !! j = Some x -> index_from i ids m !! x = Some (i + j)%nat.
Proof.
  revert i j m. induction ids as [|a ids IH]; intros i j m Hnd Hj; [discriminate|].
  apply List.NoDup_cons_iff in Hnd as [Ha Hnd].
  cbn [index_from]. destruct j as [|j]; cbn in Hj.
  - injection Hj as ->. rewrite index_from_fresh by exact Ha.
    rewrite lookup_insert_eq. f_equal. lia.
  - rewrite (IH (S i) j _ Hnd Hj). f_equal. lia.
Qed.

Lemma In_lookup {A} (x : A) (l : list A) : In x l -> exists i, l !! i = Some x.
Proof.
  induction l as [|a l IH]; intros H; [destruct H|].
  destruct H as [-> | H]; [now exists 0%nat|].
  destruct (IH H) as [i Hi]. now exists (S i).
Qed.

Lemma scores_fresh (hits : list VectorTable.Hit) (m : gmap string float) (x : string) :
  ~ In x (map VectorTable.hit_id hits) ->
  foldl (fun m h => <[VectorTable.hit_id h := score_of_distance (VectorTable._distance h)]> m)
    m hits !! x = m !! x.
Proof.
  revert m. induction hits as [|a hits IH]; intros m Hx; cbn [foldl]; [reflexivity|].
  rewrite IH by (intros H; apply Hx; now right).
  apply lookup_insert_ne. intros E. apply Hx. now left.
Qed.

Lemma scores_lookup (hits : list VectorTable.Hit) (m : gmap string float)
      (h : VectorTable.Hit) :
  List.NoDup (map VectorTable.hit_id hits) ->
  In h hits ->
  foldl (fun m h => <[VectorTable.hit_id h := score_of_distance (VectorTable._distance h)]> m)
    m hits !! VectorTable.hit_id h
  = Some (score_of_distance (VectorTable._distance h)).
Proof.
  revert m. induction hits as [|a hits IH]; intros m Hnd Hh; [destruct Hh|].
  cbn [map] in Hnd. apply List.NoDup_cons_iff in Hnd as [Ha Hnd].
  cbn [foldl]. destruct Hh as [-> | Hh].
  - rewrite scores_fresh by exact Ha. apply lookup_insert_eq.
  - now apply IH.
Qed.

(** Keys that are in the order of their positions in a list are a
    subsequence of it. *)
Lemma ranked_sublist {K} (pos : K -> nat) (ids : list K) :
  forall (ks : list K) (off : nat),
    List.NoDup ks ->
    (forall k, In k ks -> (off <= pos k)%nat /\ ids !! (pos k - off)%nat = Some k) ->
    StronglySorted (fun a b => (pos a <= pos b)%nat) ks ->
    sublist ks ids.
Proof.
  induction ids as [|x ids IH]; intros ks off Hnd Hpos Hs.
  - destruct ks as [|k ks]; [constructor|].
    destruct (Hpos k (or_introl eq_refl)) as [_ H]. discriminate H.
  - destruct ks as [|k ks]; [apply sublist_nil_l|].
    destruct (Hpos k (or_introl eq_refl)) as [Hk Hlk].
    pose proof Hs as Hs0.
    apply StronglySorted_inv in Hs as [Hs Hall]. rewrite List.Forall_forall in Hall.
    pose proof Hnd as Hnd0.
    apply List.NoDup_cons_iff in Hnd as [Hfresh Hnd].
    destruct (pos k - off)%nat as [|n] eqn:E.
    + cbn in Hlk. injection Hlk as ->. apply sublist_skip.
      apply (IH ks (S off) Hnd); [|exact Hs].
      intros k' Hk'. destruct (Hpos k' (or_intror Hk')) as [Hle Hl'].
      specialize (Hall k' Hk').
      destruct (pos k' - off)%nat as [|n'] eqn:E'.
      * cbn in Hl'. injection Hl' as ->. contradiction.
      * split; [lia|]. cbn in Hl'.
        replace (pos k' - S off)%nat with n' by lia. exact Hl'.
    + apply sublist_cons.
      apply (IH (k :: ks) (S off) Hnd0); [|exact Hs0].
      intros k' Hk'.
      assert (pos k <= pos k')%nat as Hkk
          by (destruct Hk' as [<- | Hk']; [lia | now apply Hall]).
      destruct (Hpos k' Hk') as [Hle Hl'].
      split; [lia|].
      replace (pos k' - off)%nat with (S (pos k' - S off)) in Hl' by lia.
      exact Hl'.
Qed.

Lemma StronglySorted_map {A B} (f : A -> B) (R : A -> A -> Prop) (R' : B -> B -> Prop)
      (l : list A) :
  (forall a b, R a b -> R' (f a) (f b)) ->
  StronglySorted R l -> StronglySorted R' (map f l).
Proof.
  intros Hrel Hs. induction Hs as [|a l Hs IH Hall]; cbn [map]; constructor.
  - exact IH.
  - rewrite List.Forall_forall in *. intros y Hy.
    apply in_map_iff in Hy as [x [<- Hx]]. apply Hrel, Hall, Hx.
Qed.

Lemma existsb_firstn {A} (p : A -> bool) (n : nat) (l : list A) :
  existsb p l = false -> existsb p (firstn n l) = false.
Proof.
  revert l. induction n as [|n IH]; intros [|a l] H; try reflexivity.
  cbn [existsb firstn] in *. apply orb_false_iff in H as [-> H]. now apply IH.
Qed.

Lemma unique_ids_NoDup (t : Sql.Table) :
  unique_ids t = true -> List.NoDup (map Row.id t).
Proof.
  induction t as [|a t IH]; intros Hu; cbn [map]; [constructor|].
  cbn [unique_ids] in Hu. apply andb_true_iff in Hu as [Ha Hu].
  apply List.NoDup_cons; [|now apply IH].
  intros Hin. apply in_map_iff in Hin as [b [Hb Hin]].
  apply negb_true_iff in Ha.
  assert (existsb (Sql.has_id (Row.id a)) t = true) as E.
  { apply existsb_exists. exists b. split; [exact Hin|].
    unfold Sql.has_id. rewrite Hb. apply String.eqb_refl. }
  congruence.
Qed.

Lemma match_nonempty {A B} (l : list A) (x y : B) :
  l <> [] -> match l with [] => x | _ :: _ => y end = y.
Proof. destruct l; [congruence | reflexivity]. Qed.

Lemma NoDup_firstn {A} (n : nat) (l : list A) :
  List.NoDup l -> List.NoDup (firstn n l).
Proof.
  revert l. induction n as [|n IH]; intros [|a l] H; cbn [firstn]; try constructor.
  - apply List.NoDup_cons_iff in H as [Ha _]. intros Hin. apply Ha.
    now apply In_firstn in Hin.
  - apply List.NoDup_cons_iff in H as [_ H]. now apply IH.
Qed.

Lemma vectorSearch_ids_NoDup (d : list float -> list float -> float) (q : list float)
      (k : nat) (t : VectorTable.Table) (hits : list VectorTable.Hit) :
  VectorTable.vectorSearch d q k t = Ok hits ->
  List.NoDup (map VectorTable.id t) ->
  List.NoDup (map VectorTable.hit_id hits).
Proof.
  intros Hhits Hnd. apply vectorSearch_inv in Hhits as [_ ->].
  rewrite <- List.firstn_map. apply NoDup_firstn.
  apply (Permutation_NoDup (l := map VectorTable.id t)); [|exact Hnd].
  replace (map VectorTable.id t)
    with (map VectorTable.hit_id
            (map (fun e => VectorTable.mkHit (VectorTable.id e) (d q (VectorTable.vector e))) t))
    by (rewrite map_map; reflexivity).
  apply Permutation_map, stable_sort_perm.
Qed.

Lemma vectorSearch_hit (d : list float -> list float -> float) (q : list float)
      (k : nat) (t : VectorTable.Table) (hits : list VectorTable.Hit) (h : VectorTable.Hit) :
  VectorTable.vectorSearch d q k t = Ok hits ->
  In h hits ->
  exists e, In e t /\ VectorTable.hit_id h = VectorTable.id e
            /\ VectorTable._distance h = d q (VectorTable.vector e).
Proof.
  intros Hhits H. apply vectorSearch_inv in Hhits as [_ ->].
  apply In_firstn in H. apply stable_sort_In in H.
  apply in_map_iff in H as [e [<- He]]. exists e. repeat split. exact He.
Qed.

Lemma vectorSearch_nonempty (d : list float -> list float -> float) (q : list float)
      (k : nat) (t : VectorTable.Table) (hits : list VectorTable.Hit) :
  t <> [] -> VectorTable.vectorSearch d q k t = Ok hits -> hits <> [].
Proof.
  intros Ht Hhits E. apply vectorSearch_inv in Hhits as [Hk Hhits].
  rewrite E in Hhits. apply (f_equal (@length _)) in Hhits.
  rewrite length_firstn, stable_sort_length, length_map in Hhits.
  destruct t; [congruence|]. cbn [length] in Hhits. lia.
Qed.

Lemma scored_ids (scores : gmap string float) (rows : Sql.Table)
      (rs : list MemorySearchResult) :
  mapResult (scored scores) rows = Ok rs ->
  map (fun r => Memory.id (memory r)) rs = map Row.id rows.
Proof.
  intros H. apply mapResult_Forall2 in H.
  induction H as [|row r rows rs Hsc _ IH]; [reflexivity|].
  cbn [map]. rewrite IH. f_equal.
  destruct (scored_inv _ _ _ Hsc) as [Hdec _].
  now apply rowToMemory_fields in Hdec as [Hid _].
Qed.

(** X22: a search with a query ranks by the index. When the index is not
    empty, the engine is asked for at least one entry and ids are unique in
    both stores, the vector engine returns its hits and the results come in
    the order in which it returned them: the ids of the results are a
    subsequence of the ids of the hits. Every result is scored
    [1 / (1 + d)] for the distance [d] between the query's embedding and the
    vector of the entry with the result's id. *)
Theorem search_follows_vector_ranking
        (env : Env) (opts : SearchOptions) (st : Store) (q : string) (v : list float)
        (results : list MemorySearchResult) :
  unique_ids (db st) = true ->
  List.NoDup (map VectorTable.id (vectorTable st)) ->
  vectorTable st <> [] ->
  search_limit opts <> 0%nat ->
  s_query opts = Some q ->
  q <> EmptyString ->
  embed env q = Ok v ->
  snd (search env opts st) = Ok results ->
  exists hits,
    VectorTable.vectorSearch (distance env) v (search_limit opts * 2) (vectorTable st)
    = Ok hits
    /\ sublist (map (fun r => Memory.id (memory r)) results)
               (map VectorTable.hit_id hits)
    /\ Forall (fun r => exists e,
                   In e (vectorTable st)
                   /\ VectorTable.id e = Memory.id (memory r)
                   /\ score r = (1 / (1 + distance env v (VectorTable.vector e)))%float)
              results.
Proof.
  intros Hu Hnd Hvt Hlim Hq Hne Hemb Hs.
  assert (Htruthy : truthy_string (s_query opts) = true).
  { rewrite Hq. cbn [truthy_string]. apply negb_true_iff.
    destruct (String.eqb_spec q EmptyString); [contradiction | reflexivity]. }
  assert (Hk : (search_limit opts * 2)%nat <> 0%nat) by lia.
  pose proof (vectorSearch_positive (distance env) v _ (vectorTable st) Hk) as Hsearch.
  set (hits := firstn _ _) in Hsearch.
  exists hits. split; [exact Hsearch|].
  pose proof (search_with_query env opts st v hits Htruthy) as Hw.
  rewrite Hq in Hw. cbn [default] in Hw. specialize (Hw Hemb Hsearch).
  rewrite Hw in Hs. cbn [snd] in Hs. clear Hw.
  assert (Hhits : hits <> [])
    by (apply (vectorSearch_nonempty _ _ _ _ _ Hvt Hsearch)).
  assert (Hids : map VectorTable.hit_id hits <> [])
    by (destruct hits; [congruence | discriminate]).
  assert (Hndh : List.NoDup (map VectorTable.hit_id hits))
    by (apply (vectorSearch_ids_NoDup _ _ _ _ _ Hsearch Hnd)).
  destruct (mapResult (scored (vectorScores hits)) (search_rows env opts hits (db st)))
    as [unsorted|e] eqn:Hmap; [|discriminate].
  rewrite match_nonempty in Hs by exact Hids.
  injection Hs as <-.
  set (order := idOrder (map VectorTable.hit_id hits)).
  set (le := fun a b => Nat.leb (rank order a) (rank order b)).
  (* each result decodes a row whose id is a candidate *)
  assert (Hrow : forall r, In r (stable_sort le unsorted) ->
                           exists row, In row (search_rows env opts hits (db st))
                                       /\ scored (vectorScores hits) row = Ok r
                                       /\ Row.id row = Memory.id (memory r)
                                       /\ In (Row.id row) (map VectorTable.hit_id hits)).
  { intros r Hr. apply stable_sort_In in Hr.
    destruct (mapResult_In _ _ _ _ Hmap Hr) as [row [Hin Hsc]].
    exists row. split; [exact Hin|]. split; [exact Hsc|].
    destruct (scored_inv _ _ _ Hsc) as [Hdec _].
    apply rowToMemory_fields in Hdec as [Hid _].
    split; [now rewrite Hid|].
    apply search_rows_In in Hin as [_ Hwhere].
    unfold search_where in Hwhere.
    rewrite match_nonempty in Hwhere by exact Hids.
    do 5 (apply andb_true_iff in Hwhere as [Hwhere _]).
    apply andb_true_iff in Hwhere as [_ Hex].
    apply existsb_exists in Hex as [i [Hi Heq]].
    apply String.eqb_eq in Heq. now rewrite Heq. }
  split.
  - apply (ranked_sublist (fun k => default 999%nat (order !! k)) _ _ 0%nat).
    + apply (Permutation_NoDup
               (l := map (fun r => Memory.id (memory r)) unsorted));
        [apply Permutation_map, stable_sort_perm|].
      assert (map (fun r => Memory.id (memory r)) unsorted
              = map Row.id (search_rows env opts hits (db st))) as ->.
      { exact (scored_ids _ _ _ Hmap). }
      unfold search_rows. rewrite <- List.firstn_map. apply NoDup_firstn.
      eapply Permutation_NoDup; [apply Permutation_map, candidate_scan_perm|].
      apply unique_ids_NoDup, unique_ids_filter, Hu.
    + intros k Hk'. apply in_map_iff in Hk' as [r [<- Hr]].
      destruct (Hrow r Hr) as [row [_ [_ [Hid Hin]]]].
      rewrite Hid in Hin. apply In_lookup in Hin as [j Hj].
      unfold order, idOrder.
      rewrite (index_from_lookup _ 0 j _ _ Hndh Hj). cbn [default].
      split; [lia|]. rewrite Nat.sub_0_r. exact Hj.
    + apply (StronglySorted_map _ (fun a b => le a b = true)).
      * intros a b Hab. unfold le, rank in Hab. now apply Nat.leb_le in Hab.
      * apply Sorted_StronglySorted.
        -- intros a b c. unfold le. rewrite !Nat.leb_le. lia.
        -- apply stable_sort_Sorted. intros a b _ _. unfold le.
           rewrite Nat.leb_gt, Nat.leb_le. lia.
  - apply List.Forall_forall. intros r Hr.
    destruct (Hrow r Hr) as [row [_ [Hsc [Hid Hin]]]].
    apply in_map_iff in Hin as [h [Hh Hin]].
    destruct (scored_inv _ _ _ Hsc) as [_ Hscore].
    unfold vectorScores in Hscore. rewrite <- Hh in Hscore.
    rewrite (scores_lookup hits ∅ h Hndh Hin) in Hscore. cbn [default] in Hscore.
    destruct (vectorSearch_hit _ _ _ _ _ _ Hsearch Hin) as [e [He [Hide Hd]]].
    exists e. split; [exact He|]. split; [congruence|].
    rewrite Hscore, Hd. reflexivity.
Qed.

Lemma search_follows_vector_ranking_witness :
  exists results,
    snd (search (Sample.env_by_id Sample.id1 4000)
           (mkSearch (Some "User dog name is Max"%string) None None None None None None)
           Sample.three) = Ok results
    /\ map (fun r => Memory.id (memory r)) results = [Sample.id3; Sample.id1; Sample.id2]
    /\ map score results = [1%float; 0.2%float; 0.1%float]
    /\ sublist (map (fun r => Memory.id (memory r)) results)
               [Sample.id3; Sample.id1; Sample.id2].
Proof.
  assert (H : exists results,
             snd (search (Sample.env_by_id Sample.id1 4000)
                    (mkSearch (Some "User dog name is Max"%string)
                       None None None None None None)
                    Sample.three) = Ok results)
    by (eexists; vm_compute; reflexivity).
  destruct H as [results Hres]. exists results.
  destruct (search_follows_vector_ranking
              (Sample.env_by_id Sample.id1 4000)
              (mkSearch (Some "User dog name is Max"%string) None None None None None None)
              Sample.three "User dog name is Max"%string [20%float] results
              eq_refl) as [hits [Hhits [Hsub _]]].
  - vm_compute. repeat constructor; cbn; intuition discriminate.
  - discriminate.
  - discriminate.
  - reflexivity.
  - discriminate.
  - reflexivity.
  - exact Hres.
  - vm_compute in Hhits. injection Hhits as <-.
    split; [exact Hres|].
    vm_compute in Hres. injection Hres as <-.
    split; [reflexivity|]. split; [reflexivity | exact Hsub].
Defined.

(** ** parseConfig *)

Module ConfigFacts.
Import Config.

Lemma or_else_truthy (a b : JsValue) : truthy b = true -> truthy (or_else a b) = true.
Proof. intros Hb. unfold or_else. destruct (truthy a) eqn:E; [exact E | exact Hb]. Qed.

Lemma or_else_idem (a b : JsValue) :
  truthy b = true -> or_else (or_else a b) b = or_else a b.
Proof.
  intros Hb. unfold or_else at 1. now rewrite (or_else_truthy a b Hb).
Qed.

Lemma nullish_else_idem (a b : JsValue) :
  nullish_else (nullish_else a b) b = nullish_else a b.
Proof. destruct a; try reflexivity; destruct b; reflexivity. Qed.

Lemma key_truthy (key : string) :
  truthy (JString key) = true <-> key <> EmptyString.
Proof.
  cbn [truthy]. rewrite negb_true_iff. destruct (String.eqb_spec key EmptyString).
  - split; [discriminate | contradiction].
  - split; [intros _; assumption | reflexivity].
Qed.

End ConfigFacts.

Lemma parseConfig_inv (raw : Config.JsValue) (c : Config.MemoryToolsConfig) :
  Config.parseConfig raw = inr c ->
  exists fields efields key,
    raw = Config.JObject fields
    /\ Config.lookup "embedding" fields = Config.JObject efields
    /\ Config.lookup "apiKey" efields = Config.JString key
    /\ key <> EmptyString.
Proof.
  intros H. unfold Config.parseConfig in H.
  destruct raw as [| | b | n | s | items | fields]; cbn [Config.prop] in H;
    try discriminate.
  exists fields.
  destruct (Config.lookup "embedding" fields) as [| | b | n | s | items | efields];
    cbn [Config.prop Config.truthy Config.is_object negb orb] in H;
    try discriminate;
    try (destruct (negb _ || _); discriminate);
    try (destruct (negb _); discriminate).
  exists efields.
  destruct (Config.lookup "apiKey" efields) as [| | b | n | key | items | kf];
    try discriminate.
  exists key. repeat split.
  apply ConfigFacts.key_truthy.
  cbn [Config.truthy] in H |- *.
  destruct (negb (String.eqb key EmptyString)); [reflexivity | discriminate H].
Qed.

(** X23: [parseConfig] accepts exactly the objects whose [embedding] is an
    object holding a non-empty string [apiKey]. Nothing else of the input
    is checked: whatever [model], [dbPath], [autoInjectInstructions] and
    [decayCheckInterval] hold, of whatever type, the call returns. *)
Theorem parseConfig_accepts (raw : Config.JsValue) :
  (exists c, Config.parseConfig raw = inr c)
  <-> exists fields efields key,
        raw = Config.JObject fields
        /\ Config.lookup "embedding" fields = Config.JObject efields
        /\ Config.lookup "apiKey" efields = Config.JString key
        /\ key <> EmptyString.
Proof.
  split.
  - intros [c H]. exact (parseConfig_inv raw c H).
  - intros [fields [efields [key [-> [He [Hk Hne]]]]]].
    unfold Config.parseConfig. cbn [Config.prop]. rewrite He.
    cbn [Config.prop Config.truthy Config.is_object negb orb]. rewrite Hk.
    pose proof (proj2 (ConfigFacts.key_truthy key) Hne) as Ht.
    cbn [Config.truthy] in Ht. rewrite Ht. cbn [negb].
    eexists. reflexivity.
Qed.

(** X24: a configuration [parseConfig] returns lacks nothing: its
    [apiKey] is a non-empty string, [model] and [dbPath] are truthy (the
    defaults [text-embedding-3-small] and [~/.openclaw/memory/tools] stand in
    for whatever is falsy, an empty string included), and
    [decayCheckInterval] is neither [undefined] nor [null] (24 stands in for
    these alone, so that 0 is kept). Parsing the returned configuration
    again returns it unchanged. *)
Theorem parseConfig_fills_defaults (raw : Config.JsValue) (c : Config.MemoryToolsConfig) :
  Config.parseConfig raw = inr c ->
  Config.apiKey c <> EmptyString
  /\ Config.truthy (Config.model c) = true
  /\ Config.truthy (Config.dbPath c) = true
  /\ Config.decayCheckInterval c <> Config.JUndefined
  /\ Config.decayCheckInterval c <> Config.JNull
  /\ Config.parseConfig (Config.to_raw c) = inr c.
Proof.
  intros H.
  destruct (parseConfig_inv raw c H)
    as [fields [efields [key [-> [He [Hk Hne]]]]]].
  unfold Config.parseConfig in H. cbn [Config.prop] in H. rewrite He in H.
  cbn [Config.prop Config.truthy Config.is_object negb orb] in H. rewrite Hk in H.
  pose proof (proj2 (ConfigFacts.key_truthy key) Hne) as Ht.
  cbn [Config.truthy] in Ht. rewrite Ht in H. cbn [negb] in H.
  injection H as <-. cbn [Config.apiKey Config.model Config.dbPath
                           Config.decayCheckInterval Config.autoInjectInstructions].
  split; [exact Hne|].
  split; [now apply ConfigFacts.or_else_truthy|].
  split; [now apply ConfigFacts.or_else_truthy|].
  split; [destruct (Config.lookup "decayCheckInterval" fields); discriminate|].
  split; [destruct (Config.lookup "decayCheckInterval" fields); discriminate|].
  unfold Config.to_raw, Config.parseConfig.
  cbn [Config.apiKey Config.model Config.dbPath
       Config.decayCheckInterval Config.autoInjectInstructions].
  cbn [Config.prop Config.lookup String.eqb Ascii.eqb Bool.eqb
       Config.truthy Config.is_object negb orb].
  rewrite Ht. cbn [negb].
  rewrite !ConfigFacts.or_else_idem by reflexivity.
  rewrite ConfigFacts.nullish_else_idem.
  f_equal. f_equal.
  now destruct (Config.lookup "autoInjectInstructions" fields) as [| | [|] | | | |].
Qed.

Lemma parseConfig_fills_defaults_witness :
  exists c,
    Config.parseConfig Sample.raw_config = inr c
    /\ Config.model c = Config.JString "text-embedding-3-small"
    /\ Config.dbPath c = Config.JString "~/.openclaw/memory/tools"
    /\ Config.autoInjectInstructions c = true
    /\ Config.decayCheckInterval c = Config.JNumber 0
    /\ Config.parseConfig (Config.to_raw c) = inr c.
Proof.
  eexists. split; [vm_compute; reflexivity|].
  repeat (split; [reflexivity|]).
  refine (proj2 (proj2 (proj2 (proj2 (proj2
           (parseConfig_fills_defaults Sample.raw_config _ eq_refl)))))).
Defined.

(** ** The mock provider's hash *)

Module MockFacts.
Import Mock.

Lemma to_int32_range (z : Z) : -2147483648 <= to_int32 z < 2147483648.
Proof.
  unfold to_int32.
  pose proof (Z.mod_pos_bound (z + 2147483648) 4294967296 ltac:(lia)). lia.
Qed.

Lemma to_int32_congr (a b : Z) :
  (a - b) mod 4294967296 = 0 -> to_int32 a = to_int32 b.
Proof.
  intros H. unfold to_int32. f_equal.
  apply Z.mod_divide in H; [|lia]. destruct H as [k Hk].
  replace (a + 2147483648) with (b + 2147483648 + k * 4294967296) by lia.
  apply Z.mod_add. lia.
Qed.

Lemma to_int32_diff (z : Z) : (to_int32 z - z) mod 4294967296 = 0.
Proof.
  unfold to_int32.
  rewrite (Z.mod_eq (z + 2147483648) 4294967296) by lia.
  replace (z + 2147483648 - 4294967296 * ((z + 2147483648) / 4294967296) - 2147483648 - z)
    with ((- ((z + 2147483648) / 4294967296)) * 4294967296) by lia.
  apply Z.mod_mul. lia.
Qed.

Lemma to_int32_id (z : Z) : -2147483648 <= z < 2147483648 -> to_int32 z = z.
Proof. intros H. unfold to_int32. rewrite Z.mod_small; lia. Qed.

Lemma step_poly (h c : Z) : step h c = to_int32 (h * 31 + c).
Proof.
  unfold step. apply to_int32_congr.
  replace (to_int32 (h * 32) - h + c - (h * 31 + c)) with (to_int32 (h * 32) - h * 32) by lia.
  apply to_int32_diff.
Qed.

Lemma poly_congr (s : string) (a b : Z) :
  (a - b) mod 4294967296 = 0 ->
  (poly_from a s - poly_from b s) mod 4294967296 = 0.
Proof.
  revert a b. induction s as [|c s IH]; intros a b H; cbn [poly_from]; [exact H|].
  apply IH.
  replace (a * 31 + Z.of_nat (nat_of_ascii c) - (b * 31 + Z.of_nat (nat_of_ascii c)))
    with ((a - b) * 31) by lia.
  apply Z.mod_divide in H; [|lia]. destruct H as [k Hk]. rewrite Hk.
  replace (k * 4294967296 * 31) with (k * 31 * 4294967296) by lia.
  apply Z.mod_mul. lia.
Qed.

Lemma hash_from_poly (s : string) (h : Z) :
  -2147483648 <= h < 2147483648 ->
  hash_from h s = to_int32 (poly_from h s).
Proof.
  revert h. induction s as [|c s IH]; intros h Hh; cbn [hash_from poly_from].
  - symmetry. now apply to_int32_id.
  - rewrite IH by apply to_int32_range.
    apply to_int32_congr, poly_congr.
    rewrite step_poly. apply to_int32_diff.
Qed.

End MockFacts.

(** X25: the hash of the mock provider is the polynomial hash in base 31
    of the character codes, wrapped to a signed 32-bit integer once at the
    end: wrapping after every character, as the loop does, loses nothing.
    The value always is a 32-bit integer. *)
Theorem hashString_is_polynomial_hash (s : string) :
  Mock.hashString s = Mock.to_int32 (Mock.poly_from 0 s)
  /\ -2147483648 <= Mock.hashString s < 2147483648.
Proof.
  assert (Mock.hashString s = Mock.to_int32 (Mock.poly_from 0 s)) as E
      by (apply MockFacts.hash_from_poly; lia).
  split; [exact E|]. rewrite E. apply MockFacts.to_int32_range.
Qed.

Lemma parseConfig_accepts_witness :
  exists c, Config.parseConfig Sample.raw_config = inr c.
Proof.
  apply (proj2 (parseConfig_accepts Sample.raw_config)).
  eexists _, _, _. split; [reflexivity|].
  split; [reflexivity|]. split; [reflexivity | discriminate].
Defined.
